(** * MoSP-Geo-Tool: geometry kernel, OSM store, line generalisation,
      POI connection and partition labelling

    A shallow embedding of the core of the tool:
    - [geo/geo_utils.py]      (distances, polygon test, connection primitives),
    - [geo/osm_import.py]     (Node, Way, OSM_objects: the keyed store),
    - [app/douglas_peucker.py] (iterative Douglas-Peucker),
    - [app/poi.py]            (POI connection strategies),
    - [app/partition.py]      (breadth-first partition labelling).

    Conventions of the embedding.
    - Python floats are IEEE binary64: [PrimFloat.float] with its primitive
      operations.  Python ints are unbounded: [Z].
    - Objects live in an arena: a reference to a [Node] or a [Way] is its OSM
      id, resolved in the AVL trees of [OSM_objects] ([gmap Z]).  Pure geometry
      takes the [Node] record itself (it only reads the read-only properties
      [lon], [lat], [node_id], tags).
    - An operation that can raise returns a [result]; an operation that also
      mutates the store is a function from the store to a [result] paired with
      the store as left by the call (mutations made before a raise persist).
    - A [while] loop is run with fuel; [None] means that the fuel ran out.
    - pyproj ([Geod.inv], [Geod.fwd], the UTM [Proj]) is an external library:
      it is a parameter of the kernel. *)

From Stdlib Require Import ZArith List Lia PrimFloat Uint63 Floats.
From stdpp Require Import base option list gmap strings.

Local Open Scope Z_scope.

(** ** Exceptions and results *)

Inductive exn : Type :=
| ValueError
| TypeError
| ZeroDivisionError
| IndexError
| AttributeError
| AssertionError
| UnboundLocalError.

Inductive result (A : Type) : Type :=
| Ok (a : A)
| Raise (e : exn).

Arguments Ok {A} a.
Arguments Raise {A} e.

Definition rbind {A B : Type} (m : result A) (k : A -> result B) : result B :=
  match m with
  | Ok a => k a
  | Raise e => Raise e
  end.


Notation "x <- m ;; k" := (rbind m (fun x => k))
  (at level 100, m at next level, right associativity).

(** ** Python arithmetic on floats *)

Module Py.

(** [x / y] on floats raises [ZeroDivisionError] when [y] compares equal to
    zero (either sign). *)
Definition div (x y : float) : result float :=
  if PrimFloat.eqb y 0%float then Raise ZeroDivisionError
  else Ok (PrimFloat.div x y).

(** [min(a, b)] keeps [a] unless [b < a]; [max(a, b)] keeps [a] unless
    [b > a]. *)
Definition min (a b : float) : float := if PrimFloat.ltb b a then b else a.
Definition max (a b : float) : float := if PrimFloat.ltb a b then b else a.

(** [x ** 2] on a float: the square [x * x]. *)
Definition sq (x : float) : float := PrimFloat.mul x x.

(** [float(z)], the C double an int is handed to pyproj as: the nearest
    double, ties to even, exact for magnitudes up to [2^53].  (Beyond the
    range of doubles, where Python raises [OverflowError], this is an
    infinity.) *)
Definition float_of_int (z : Z) : float :=
  SF2Prim (binary_normalize prec emax z 0 false).

(** [x < z] for a float [x] and an int [z].  Python compares the two values
    exactly, whatever the size of the int: a finite float is [m * 2^e] for
    integers [m] and [e], and the comparison is made on integers. *)
Definition lt_int (x : float) (z : Z) : bool :=
  match Prim2SF x with
  | S754_nan => false
  | S754_infinity negative => negative
  | S754_zero _ => (0 <? z)%Z
  | S754_finite negative m e =>
      let v := if negative then Z.neg m else Z.pos m in
      if (0 <=? e)%Z then (v * 2 ^ e <? z)%Z
      else (v <? z * 2 ^ (- e))%Z
  end.

(** [l[i]] for an index that is not negative. *)
Definition index {A : Type} (l : list A) (i : nat) : result A :=
  match l !! i with
  | Some x => Ok x
  | None => Raise IndexError
  end.

(** [l[0]] and [l[-1]]. *)
Definition first {A : Type} (l : list A) : result A :=
  match head l with
  | Some x => Ok x
  | None => Raise IndexError
  end.

Definition final {A : Type} (l : list A) : result A :=
  match last l with
  | Some x => Ok x
  | None => Raise IndexError
  end.

(** [d.setdefault(k, v)] on a dictionary (the returned value is unused). *)
Definition setdefault (k v : string) (d : gmap string string) : gmap string string :=
  match d !! k with
  | Some _ => d
  | None => <[k := v]> d
  end.

(** [1e400] overflows to infinity. *)
Definition inf : float := PrimFloat.infinity.
Definition neg_inf : float := PrimFloat.neg_infinity.

End Py.

(** ** Data model ([geo/osm_import.py]) *)

(** Bounding boxes and rectangles: [[left_lon, bottom_lat, right_lon, top_lat]]. *)
Definition Box : Type := (float * float * float * float)%type.

(** [class Node]. [neighbours] holds references (ids). *)
Record Node : Type := mkNode {
  node_id : Z;
  lon : float;
  lat : float;
  node_tags : gmap string string;
  node_attr : gmap string string;
  neighbours : list Z;
  partition_id : Z;       (* 0: none, -1: filtered street, >= 1: partition *)
  filtered : bool;
  poi : Z
}.

(** [class Way]. [nodeIDs] is [__nodes], [way_nodes] is [__node_objects]
    (references).  [generalized] maps a tolerance to a node list. *)
Record Way : Type := mkWay {
  way_id : Z;
  nodeIDs : list Z;
  way_nodes : list Z;
  way_tags : gmap string string;
  way_attr : gmap string string;
  way_partition_id : Z;
  way_filtered : bool;
  generalized : gmap Z (list Z);
  box : Box
}.

(** [class OSM_objects]: the AVL trees of nodes and ways, the raw relations
    (only their keys matter here), the two R-trees as the list of their
    [(id, box)] entries in insertion order, and the set of POI nodes.  The
    lists kept for export only (deleted and other ways) are left out. *)
Record OSM_objects : Type := mkOSM {
  node_avl : gmap Z Node;
  way_avl : gmap Z Way;
  relations : gmap Z unit;
  street_tree : list (Z * Box);
  building_tree : list (Z * Box);
  poi_set : gset Z
}.

(** Field updates. *)
Definition set_neighbours (l : list Z) (n : Node) : Node :=
  mkNode (node_id n) (lon n) (lat n) (node_tags n) (node_attr n) l
         (partition_id n) (filtered n) (poi n).
Definition set_partition_id (p : Z) (n : Node) : Node :=
  mkNode (node_id n) (lon n) (lat n) (node_tags n) (node_attr n) (neighbours n)
         p (filtered n) (poi n).
Definition set_poi_field (p : Z) (n : Node) : Node :=
  mkNode (node_id n) (lon n) (lat n) (node_tags n) (node_attr n) (neighbours n)
         (partition_id n) (filtered n) p.
Definition set_way_partition_id (p : Z) (w : Way) : Way :=
  mkWay (way_id w) (nodeIDs w) (way_nodes w) (way_tags w) (way_attr w) p
        (way_filtered w) (generalized w) (box w).
Definition set_way_node_lists (ids objs : list Z) (w : Way) : Way :=
  mkWay (way_id w) ids objs (way_tags w) (way_attr w) (way_partition_id w)
        (way_filtered w) (generalized w) (box w).

Definition with_node_avl (m : gmap Z Node) (s : OSM_objects) : OSM_objects :=
  mkOSM m (way_avl s) (relations s) (street_tree s) (building_tree s) (poi_set s).
Definition with_way_avl (m : gmap Z Way) (s : OSM_objects) : OSM_objects :=
  mkOSM (node_avl s) m (relations s) (street_tree s) (building_tree s) (poi_set s).
Definition with_street_tree (t : list (Z * Box)) (s : OSM_objects) : OSM_objects :=
  mkOSM (node_avl s) (way_avl s) (relations s) t (building_tree s) (poi_set s).
Definition with_poi_set (p : gset Z) (s : OSM_objects) : OSM_objects :=
  mkOSM (node_avl s) (way_avl s) (relations s) (street_tree s) (building_tree s) p.

(** Mutating the object a reference points to; a dangling reference is the
    [None] that [AVLTree.get] returns, and using it raises [AttributeError]. *)
Definition update_node (i : Z) (f : Node -> Node) (s : OSM_objects) : OSM_objects :=
  with_node_avl (alter f i (node_avl s)) s.
Definition update_way (i : Z) (f : Way -> Way) (s : OSM_objects) : OSM_objects :=
  with_way_avl (alter f i (way_avl s)) s.

Definition deref_node (s : OSM_objects) (i : Z) : result Node :=
  match node_avl s !! i with
  | Some n => Ok n
  | None => Raise AttributeError
  end.

Definition deref_way (s : OSM_objects) (i : Z) : result Way :=
  match way_avl s !! i with
  | Some w => Ok w
  | None => Raise AttributeError
  end.

(** [way.nodes] for a way of the store: the referenced [Node] objects.
    Lists of streets and buildings are lists of references to ways. *)
Fixpoint resolve_nodes (s : OSM_objects) (refs : list Z) : result (list Node) :=
  match refs with
  | [] => Ok []
  | r :: refs' =>
      n <- deref_node s r ;;
      ns <- resolve_nodes s refs' ;;
      Ok (n :: ns)
  end.

(** The result of [__distance_point_to_line]'s mode: a list of length one
    ([[node]]) or of length three ([[start, end, projection_scalar]]). *)
Inductive distance_mode : Type :=
| ModeNode (n : Node)
| ModeSegment (segment_start segment_end : Node) (projection_scalar : float).

Definition mode_len (m : distance_mode) : nat :=
  match m with
  | ModeNode _ => 1
  | ModeSegment _ _ _ => 3
  end.

(** ** The geometry kernel ([geo/geo_utils.py]) *)

Definition TOLERANCE : float := 0x1.ad7f29abcaf48p-24%float.   (* 1e-7 *)

Section Kernel.

(** [GEOD.inv(lon1, lat1, lon2, lat2)]: forward azimuth, back azimuth and
    distance; [None] is the [ValueError] pyproj raises on near-coincident
    points. *)
Variable GEOD_inv : float -> float -> float -> float -> option (float * float * float).
(** [GEOD.fwd(lon, lat, azimuth, distance)]: longitude, latitude, back azimuth. *)
Variable GEOD_fwd : float -> float -> float -> float -> float * float * float.
(** The UTM projection of the store, applied to [(lon, lat)]. *)
Variable utm : float -> float -> float * float.
(** [float('%.7f' % x)]: rounding to seven decimal places through text. *)
Variable round7 : float -> float.

Definition get_xy_utm (n : Node) : float * float := utm (lon n) (lat n).
Definition get_x_utm (n : Node) : float := fst (get_xy_utm n).
Definition get_y_utm (n : Node) : float := snd (get_xy_utm n).

(** A value on the right of a tuple assignment: a float or a tuple of floats. *)
Inductive rhs : Type :=
| RFloat (x : float)
| RTuple (xs : list float).

(** [a, b, c = v]: a float is not iterable, a tuple must have three items. *)
Definition unpack3 (v : rhs) : result (float * float * float) :=
  match v with
  | RFloat _ => Raise TypeError
  | RTuple [a; b; c] => Ok (a, b, c)
  | RTuple _ => Raise ValueError
  end.

(** [distance_points]: the handler of [ValueError] assigns the float [0.0]
    to a three-name target. *)
Definition distance_points (point1 point2 : Node) : result (float * float * float) :=
  match GEOD_inv (lon point1) (lat point1) (lon point2) (lat point2) with
  | Some (az_f, az_b, distance) => Ok (az_f, az_b, distance)
  | None =>
      t <- unpack3 (RFloat 0%float) ;;
      let '(az_f, az_b, distance) := t in
      Ok (az_f, az_b, distance)
  end.

Definition create_node_box (node : Node) (distance : float) : Box :=
  let '(_, north_lat, _) := GEOD_fwd (lon node) (lat node) 0%float distance in
  let '(east_lon, _, _) := GEOD_fwd (lon node) (lat node) 90%float distance in
  let '(_, south_lat, _) := GEOD_fwd (lon node) (lat node) 180%float distance in
  let '(west_lon, _, _) := GEOD_fwd (lon node) (lat node) 270%float distance in
  (west_lon, south_lat, east_lon, north_lat).

(** [have_same_coords]: the second comparison subtracts [point1.lat] from
    itself, as the source does. *)
Definition have_same_coords_tol (point1 point2 : option Node) (tolerance : float) : bool :=
  match point1, point2 with
  | Some p1, Some p2 =>
      PrimFloat.leb (PrimFloat.abs (PrimFloat.sub (lon p1) (lon p2))) tolerance
      && PrimFloat.leb (PrimFloat.abs (PrimFloat.sub (lat p1) (lat p1))) tolerance
  | _, _ => false
  end.

Definition have_same_coords (point1 point2 : option Node) : bool :=
  have_same_coords_tol point1 point2 TOLERANCE.

(** [is_area]: [way.nodeIDs[0] == way.nodeIDs[-1]]. *)
Definition is_area (way : Way) : result bool :=
  a <- Py.first (nodeIDs way) ;;
  b <- Py.final (nodeIDs way) ;;
  Ok (bool_decide (a = b)).

(** [is_building]: [None] is falsy. *)
Definition is_building (building : option Way) : result bool :=
  match building with
  | Some b =>
      area <- is_area b ;;
      Ok (area && bool_decide (way_tags b !! "building"%string = Some "yes"%string))
  | None => Ok false
  end.

(** The state of the even-odd loop of [is_inside_polygon]; [xinters] is
    unbound until first assigned. *)
Record crossing_state : Type := mkCrossing {
  intersections : nat;
  p1_x : float;
  p1_y : float;
  xinters : option float
}.

Definition crossing_step (node : Node) (p2 : Node) (st : crossing_state)
  : result crossing_state :=
  let '(p2_x, p2_y) := get_xy_utm p2 in
  let y := get_y_utm node in
  let x := get_x_utm node in
  st' <-
    (if PrimFloat.ltb (Py.min (p1_y st) p2_y) y then
       if PrimFloat.leb y (Py.max (p1_y st) p2_y) then
         if PrimFloat.leb x (Py.max (p1_x st) p2_x) then
           xi <-
             (if negb (PrimFloat.eqb (p1_y st) p2_y) then
                q <- Py.div (PrimFloat.mul (PrimFloat.sub y (p1_y st))
                                           (PrimFloat.sub p2_x (p1_x st)))
                            (PrimFloat.sub p2_y (p1_y st)) ;;
                Ok (Some (PrimFloat.add q (p1_x st)))
              else Ok (xinters st)) ;;
           if PrimFloat.eqb (p1_x st) p2_x then
             Ok (mkCrossing (S (intersections st)) (p1_x st) (p1_y st) xi)
           else
             match xi with
             | None => Raise UnboundLocalError
             | Some v =>
                 if PrimFloat.leb x v
                 then Ok (mkCrossing (S (intersections st)) (p1_x st) (p1_y st) xi)
                 else Ok (mkCrossing (intersections st) (p1_x st) (p1_y st) xi)
             end
         else Ok st
       else Ok st
     else Ok st) ;;
  Ok (mkCrossing (intersections st') p2_x p2_y (xinters st')).

Fixpoint crossing_loop (node : Node) (polygon : list Node) (idxs : list nat)
    (st : crossing_state) : result crossing_state :=
  match idxs with
  | [] => Ok st
  | i :: idxs' =>
      p2 <- Py.index polygon (i mod length polygon)%nat ;;
      st' <- crossing_step node p2 st ;;
      crossing_loop node polygon idxs' st'
  end.

(** [is_inside_polygon(node, way)]. *)
Definition is_inside_polygon (s : OSM_objects) (node : Node) (way : Way)
  : result bool :=
  area <- is_area way ;;
  if negb area then Ok false
  else
    polygon <- resolve_nodes s (way_nodes way) ;;
    let n := length polygon in
    p0 <- Py.index polygon 0 ;;
    let '(x0, y0) := get_xy_utm p0 in
    st <- crossing_loop node polygon (seq 0 (n + 1)) (mkCrossing 0 x0 y0 None) ;;
    Ok (negb (Nat.even (intersections st))).

(** [__distance_point_to_line]. *)
Definition distance_point_to_line (line_start line_end point : Node)
  : result (float * distance_mode) :=
  seg <-
    (if negb (have_same_coords (Some line_start) (Some line_end)) then
       let line_segment_x := PrimFloat.sub (get_x_utm line_end) (get_x_utm line_start) in
       let line_segment_y := PrimFloat.sub (get_y_utm line_end) (get_y_utm line_start) in
       match GEOD_inv (lon line_start) (lat line_start) (lon line_end) (lat line_end) with
       | Some (_, _, segment_length) =>
           lx <- Py.div line_segment_x segment_length ;;
           ly <- Py.div line_segment_y segment_length ;;
           Ok (lx, ly)
       | None => Ok (0%float, 0%float)
       end
     else Ok (0%float, 0%float)) ;;
  let '(line_segment_x, line_segment_y) := seg in
  let start_to_point_x := PrimFloat.sub (get_x_utm point) (get_x_utm line_start) in
  let start_to_point_y := PrimFloat.sub (get_y_utm point) (get_y_utm line_start) in
  let projection_scalar :=
    PrimFloat.add (PrimFloat.mul start_to_point_x line_segment_x)
                  (PrimFloat.mul start_to_point_y line_segment_y) in
  if PrimFloat.ltb projection_scalar 0%float then
    let distance :=
      match GEOD_inv (lon line_start) (lat line_start) (lon point) (lat point) with
      | Some (_, _, d) => d
      | None => 0%float
      end in
    Ok (distance, ModeNode line_start)
  else
    let end_to_point_x := PrimFloat.sub (get_x_utm point) (get_x_utm line_end) in
    let end_to_point_y := PrimFloat.sub (get_y_utm point) (get_y_utm line_end) in
    let segment_length :=
      match GEOD_inv (lon line_end) (lat line_end) (lon point) (lat point) with
      | Some (_, _, d) => d
      | None => 0%float
      end in
    let projection_scalar2 :=
      PrimFloat.add (PrimFloat.mul end_to_point_x (PrimFloat.opp line_segment_x))
                    (PrimFloat.mul end_to_point_y (PrimFloat.opp line_segment_y)) in
    if PrimFloat.ltb projection_scalar2 0%float then
      Ok (segment_length, ModeNode line_end)
    else
      Ok (PrimFloat.sqrt (PrimFloat.abs
            (PrimFloat.sub (Py.sq segment_length) (Py.sq projection_scalar2))),
          ModeSegment line_start line_end projection_scalar).

Definition distance_mode_point_line (line_start line_end point : Node)
  : result (float * distance_mode) :=
  distance_point_to_line line_start line_end point.

Definition distance_point_line (line_start line_end point : Node) : result float :=
  r <- distance_point_to_line line_start line_end point ;;
  Ok (fst r).

(** The loop of [distance_node_street] over the segments
    [(snodes[i], snodes[i + 1])]. *)
Fixpoint nearest_segment (node : Node) (snodes : list Node)
    (acc : float * option distance_mode) : result (float * option distance_mode) :=
  match snodes with
  | a :: tl =>
      match tl with
      | b :: _ =>
          r <- distance_mode_point_line a b node ;;
          let '(distance, mode) := r in
          nearest_segment node tl
            (if PrimFloat.ltb distance (fst acc) then (distance, Some mode) else acc)
      | [] => Ok acc
      end
  | [] => Ok acc
  end.

Definition distance_node_street (s : OSM_objects) (node : Node) (street : Z)
  : result (float * option distance_mode) :=
  w <- deref_way s street ;;
  snodes <- resolve_nodes s (way_nodes w) ;;
  nearest_segment node snodes (Py.inf, None).

(** The inner loop of [get_nearest_street_node] over the nodes of one street. *)
Fixpoint nearest_node_of (node : Node) (street_nodes : list Node)
    (acc : option Node * float) : result (option Node * float) :=
  match street_nodes with
  | [] => Ok acc
  | street_node :: rest =>
      t <- distance_points node street_node ;;
      let '(_, _, distance) := t in
      nearest_node_of node rest
        (if PrimFloat.ltb distance (snd acc) then (Some street_node, distance) else acc)
  end.

Fixpoint nearest_street_node_loop (s : OSM_objects) (node : Node) (streets : list Z)
    (acc : option Node * float) : result (option Node * float) :=
  match streets with
  | [] => Ok acc
  | street :: rest =>
      w <- deref_way s street ;;
      snodes <- resolve_nodes s (way_nodes w) ;;
      acc' <- nearest_node_of node snodes acc ;;
      nearest_street_node_loop s node rest acc'
  end.

(** [get_nearest_street_node]: [(nearest_node, min_dist)]. *)
Definition get_nearest_street_node (s : OSM_objects) (node : Node) (streets : list Z)
  : result (option Node * float) :=
  nearest_street_node_loop s node streets (None, Py.inf).

Fixpoint nearest_street_loop (s : OSM_objects) (node : Node) (streets : list Z)
    (acc : option Z * float * option distance_mode)
  : result (option Z * float * option distance_mode) :=
  match streets with
  | [] => Ok acc
  | street :: rest =>
      r <- distance_node_street s node street ;;
      let '(distance, mode) := r in
      nearest_street_loop s node rest
        (if PrimFloat.ltb distance (snd (fst acc)) then (Some street, distance, mode)
         else acc)
  end.

(** [get_nearest_street]: [(nearest_street, min_dist, nearest_mode)]. *)
Definition get_nearest_street (s : OSM_objects) (node : Node) (streets : list Z)
  : result (option Z * float * option distance_mode) :=
  nearest_street_loop s node streets (None, Py.inf, None).

Definition merge_boxes (box1 box2 : Box) : Box :=
  let '(box1_min_x, box1_min_y, box1_max_x, box1_max_y) := box1 in
  let '(box2_min_x, box2_min_y, box2_max_x, box2_max_y) := box2 in
  (Py.min box1_min_x box2_min_x, Py.min box1_min_y box2_min_y,
   Py.max box1_max_x box2_max_x, Py.max box1_max_y box2_max_y).

Definition intersects (rectangle1 rectangle2 : Box) : bool :=
  let '(rect_min_x1, rect_min_y1, rect_max_x1, rect_max_y1) := rectangle1 in
  let '(rect_min_x2, rect_min_y2, rect_max_x2, rect_max_y2) := rectangle2 in
  PrimFloat.leb rect_min_x1 rect_max_x2 && PrimFloat.leb rect_min_x2 rect_max_x1
  && PrimFloat.leb rect_min_y1 rect_max_y2 && PrimFloat.leb rect_min_y2 rect_max_y1.

(** ** Douglas-Peucker ([app/douglas_peucker.py]) *)

(** The variables of the [while] loop.  [stack] has its top (the end of the
    Python list) at the head. *)
Record dp_state : Type := mkDP {
  new_way : list Node;
  stack : list nat;
  anchor : nat;
  floater : nat
}.

(** The [for i in range(anchor + 1, floater)] loop, from the current
    [(max_distance, farthest)]. *)
Fixpoint dp_scan (way_segment : list Node) (a f : nat) (idxs : list nat)
    (max_distance : float) (farthest : nat) : result (float * nat) :=
  match idxs with
  | [] => Ok (max_distance, farthest)
  | i :: idxs' =>
      pa <- Py.index way_segment a ;;
      pf <- Py.index way_segment f ;;
      pi <- Py.index way_segment i ;;
      distance <- distance_point_line pa pf pi ;;
      if PrimFloat.ltb max_distance distance
      then dp_scan way_segment a f idxs' distance i
      else dp_scan way_segment a f idxs' max_distance farthest
  end.

(** [range(lo, hi)]. *)
Definition py_range (lo hi : nat) : list nat := seq lo (hi - lo).

(** One iteration of the [while stack:] loop; the stack is not empty. *)
Definition dp_iter (way_segment : list Node) (tolerance : float) (st : dp_state)
  : result dp_state :=
  r <- dp_scan way_segment (anchor st) (floater st)
         (py_range (anchor st + 1) (floater st)) 0%float (floater st) ;;
  let '(max_distance, farthest) := r in
  if PrimFloat.ltb max_distance tolerance then
    match stack st with
    | top :: rest =>
        x <- Py.index way_segment top ;;
        Ok (mkDP (new_way st ++ [x]) rest (floater st)
                 (match rest with
                  | next :: _ => next
                  | [] => floater st
                  end))
    | [] => Raise IndexError
    end
  else
    Ok (mkDP (new_way st) (farthest :: stack st) (anchor st) farthest).

Fixpoint dp_loop (fuel : nat) (way_segment : list Node) (tolerance : float)
    (st : dp_state) : option (result (list Node)) :=
  match stack st with
  | [] => Some (Ok (new_way st))
  | _ :: _ =>
      match fuel with
      | O => None
      | S fuel' =>
          match dp_iter way_segment tolerance st with
          | Ok st' => dp_loop fuel' way_segment tolerance st'
          | Raise e => Some (Raise e)
          end
      end
  end.

(** [douglas_peucker(way_segment, tolerance)] run for at most [fuel]
    iterations of its loop. *)
Definition douglas_peucker_fuel (fuel : nat) (way_segment : list Node)
    (tolerance : float) : option (result (list Node)) :=
  match way_segment with
  | [] => Some (Raise IndexError)
  | first :: _ =>
      let floater := (length way_segment - 1)%nat in
      dp_loop fuel way_segment tolerance (mkDP [first] [floater] 0%nat floater)
  end.

(** Twice the length of the segment bounds the iterations whenever the loop
    terminates at all (see [dp_loop_terminates]). *)
Definition douglas_peucker (way_segment : list Node) (tolerance : float)
  : option (result (list Node)) :=
  douglas_peucker_fuel (2 * length way_segment) way_segment tolerance.

(** ** Operations that mutate the store *)

(** A computation on the store: its outcome and the store it leaves. *)
Definition M (A : Type) : Type := OSM_objects -> result A * OSM_objects.

Definition ret {A : Type} (a : A) : M A := fun s => (Ok a, s).
Definition raise {A : Type} (e : exn) : M A := fun s => (Raise e, s).
Definition lift {A : Type} (r : result A) : M A := fun s => (r, s).
Definition modify (f : OSM_objects -> OSM_objects) : M unit := fun s => (Ok tt, f s).
Definition sbind {A B : Type} (m : M A) (k : A -> M B) : M B :=
  fun s =>
    match m s with
    | (Ok a, s') => k a s'
    | (Raise e, s') => (Raise e, s')
    end.

Notation "x <~ m ;; k" := (sbind m (fun x => k))
  (at level 100, m at next level, right associativity).

(** Reading through a reference in the current store. *)
Definition read_node (i : Z) : M Node := fun s => (deref_node s i, s).
Definition read_way (i : Z) : M Way := fun s => (deref_way s i, s).

(** [min(l)] and [max(l)] on a list of ints, [ValueError] on an empty one;
    [AVLTree.min_key()] and [max_key()] raise [ValueError] on an empty tree. *)
Definition list_min (l : list Z) : result Z :=
  match l with
  | [] => Raise ValueError
  | x :: l' => Ok (foldl Z.min x l')
  end.

Definition list_max (l : list Z) : result Z :=
  match l with
  | [] => Raise ValueError
  | x :: l' => Ok (foldl Z.max x l')
  end.

Definition keys {A : Type} (t : gmap Z A) : list Z := (map_to_list t).*1.
Definition min_key {A : Type} (t : gmap Z A) : result Z := list_min (keys t).
Definition max_key {A : Type} (t : gmap Z A) : result Z := list_max (keys t).

(** [OSM_objects.find_new_key]. *)
Definition find_new_key (s : OSM_objects) : result Z :=
  ks <-
    (if bool_decide (relations s = ∅) then
       nmin <- min_key (node_avl s) ;;
       nmax <- max_key (node_avl s) ;;
       wmin <- min_key (way_avl s) ;;
       wmax <- max_key (way_avl s) ;;
       Ok [nmin; nmax; wmin; wmax]
     else
       nmin <- min_key (node_avl s) ;;
       nmax <- max_key (node_avl s) ;;
       wmin <- min_key (way_avl s) ;;
       wmax <- max_key (way_avl s) ;;
       rmin <- min_key (relations s) ;;
       rmax <- max_key (relations s) ;;
       Ok [nmin; nmax; wmin; wmax; rmin; rmax]) ;;
  m <- list_min ks ;;
  if (0 <=? m)%Z then Ok (-1) else Ok (m - 1).

(** [Node.__init__]. *)
Definition Node_init (osm_id : Z) (lon lat : float)
    (tags attr : gmap string string) : Node :=
  mkNode osm_id lon lat tags attr [] 0 false 0.

(** [OSM_objects.insert_new_node]; returns the reference to the new node. *)
Definition insert_new_node (lat lon : float) (tags attr : gmap string string) : M Z :=
  osm_id <~ (fun s => (find_new_key s, s)) ;;
  let attr := Py.setdefault "version" "1" attr in
  let nd := Node_init osm_id lon lat tags attr in
  _ <~ modify (fun s => with_node_avl (<[osm_id := nd]> (node_avl s)) s) ;;
  ret osm_id.

(** The variables of the loop of [Way.__init__]. *)
Record way_init_state : Type := mkWayInit {
  wi_min_lon : float;
  wi_min_lat : float;
  wi_max_lon : float;
  wi_max_lat : float;
  wi_node_objects : list Z;
  wi_last_node : option Z
}.

Definition append_neighbour (x : Z) (n : Node) : Node :=
  set_neighbours (neighbours n ++ [x]) n.

Fixpoint way_init_loop (nodes : list Z) (is_street : bool) (st : way_init_state)
  : M way_init_state :=
  match nodes with
  | [] => ret st
  | node_id :: rest =>
      osm_node <~ read_node node_id ;;
      let min_lon := if PrimFloat.ltb (lon osm_node) (wi_min_lon st)
                     then lon osm_node else wi_min_lon st in
      let max_lon := if PrimFloat.ltb (wi_max_lon st) (lon osm_node)
                     then lon osm_node else wi_max_lon st in
      let min_lat := if PrimFloat.ltb (lat osm_node) (wi_min_lat st)
                     then lat osm_node else wi_min_lat st in
      let max_lat := if PrimFloat.ltb (wi_max_lat st) (lat osm_node)
                     then lat osm_node else wi_max_lat st in
      _ <~ (match wi_last_node st with
            | Some last_node =>
                if is_street then
                  _ <~ modify (update_node node_id (append_neighbour last_node)) ;;
                  modify (update_node last_node (append_neighbour node_id))
                else ret tt
            | None => ret tt
            end) ;;
      way_init_loop rest is_street
        (mkWayInit min_lon min_lat max_lon max_lat
                   (wi_node_objects st ++ [node_id]) (Some node_id))
  end.

(** [Way.__init__(osm_id, nodes, tags, attr, node_avl)]: builds the way, its
    bounding box, and the neighbour relation when the way is a street. *)
Definition Way_init (osm_id : Z) (nodes : list Z) (tags attr : gmap string string)
  : M Way :=
  st <~ way_init_loop nodes (bool_decide (is_Some (tags !! "highway"%string)))
          (mkWayInit Py.inf Py.inf Py.neg_inf Py.neg_inf [] None) ;;
  ret (mkWay osm_id nodes (wi_node_objects st) tags attr 0 false ∅
             (wi_min_lon st, wi_min_lat st, wi_max_lon st, wi_max_lat st)).

(** [OSM_objects.append_new_street]; returns the reference to the new way. *)
Definition append_new_street (tags : gmap string string) (nodes : list Z)
    (attr : gmap string string) : M Z :=
  osm_id <~ (fun s => (find_new_key s, s)) ;;
  let attr := Py.setdefault "version" "1" attr in
  way <~ Way_init osm_id nodes tags attr ;;
  _ <~ modify (fun s => with_street_tree (street_tree s ++ [(osm_id, box way)]) s) ;;
  _ <~ modify (fun s => with_way_avl (<[osm_id := way]> (way_avl s)) s) ;;
  ret osm_id.

(** [connect_by_node(osm_object, node, street_node)]; returns the reference
    to the new street. *)
Definition connect_by_node (node street_node : Z) : M Z :=
  let tags : gmap string string := {[ "highway"%string := "footway"%string ]} in
  n <~ read_node node ;;
  sn <~ read_node street_node ;;
  let nodes := [node_id n; node_id sn] in
  let attr : gmap string string := {[ "visible"%string := "true"%string ]} in
  new_street <~ append_new_street tags nodes attr ;;
  n <~ read_node node ;;
  if (0 <? partition_id n)%Z then
    _ <~ modify (update_way new_street (set_way_partition_id (partition_id n))) ;;
    ret new_street
  else
    sn <~ read_node street_node ;;
    _ <~ modify (update_way new_street (set_way_partition_id (partition_id sn))) ;;
    _ <~ modify (update_node node (set_partition_id (partition_id sn))) ;;
    ret new_street.

(** Python list operations on lists of references. *)
Fixpoint list_index_from (x : Z) (l : list Z) (pos start : nat) : result nat :=
  match l with
  | [] => Raise ValueError
  | y :: l' =>
      if (start <=? pos)%nat && bool_decide (y = x) then Ok pos
      else list_index_from x l' (S pos) start
  end.

(** [l.index(x, start)]. *)
Definition list_index (x : Z) (l : list Z) (start : nat) : result nat :=
  list_index_from x l 0 start.

(** [l.insert(i, x)] for [0 <= i]. *)
Definition list_insert_at (i : nat) (x : Z) (l : list Z) : list Z :=
  take i l ++ x :: drop i l.

(** [l.remove(x)]. *)
Fixpoint list_remove (x : Z) (l : list Z) : result (list Z) :=
  match l with
  | [] => Raise ValueError
  | y :: l' =>
      if bool_decide (y = x) then Ok l'
      else l'' <- list_remove x l' ;; Ok (y :: l'')
  end.

Definition remove_neighbour (of_node x : Z) : M unit :=
  n <~ read_node of_node ;;
  l <~ lift (list_remove x (neighbours n)) ;;
  modify (update_node of_node (set_neighbours l)).

(** [Way.insert_node(segment_start, segment_end, node)] on the way [street]. *)
Definition insert_node (street segment_start segment_end node : Z) : M unit :=
  w <~ read_way street ;;
  ss <~ read_node segment_start ;;
  index_start <~ lift (list_index (node_id ss) (nodeIDs w) 0) ;;
  se <~ read_node segment_end ;;
  index_end <~ lift (list_index (node_id se) (nodeIDs w) 1) ;;
  obj_start <~ lift (list_index segment_start (way_nodes w) 0) ;;
  if negb (index_start =? obj_start)%nat then raise AssertionError
  else
    obj_end <~ lift (list_index segment_end (way_nodes w) 1) ;;
    if negb (index_end =? obj_end)%nat then raise AssertionError
    else if negb (Z.of_nat index_start =? Z.of_nat index_end - 1)%Z
    then raise AssertionError
    else
      nd <~ read_node node ;;
      _ <~ modify (update_way street
                     (set_way_node_lists
                        (list_insert_at index_end (node_id nd) (nodeIDs w))
                        (list_insert_at index_end node (way_nodes w)))) ;;
      _ <~ remove_neighbour segment_start segment_end ;;
      _ <~ modify (update_node segment_start (append_neighbour node)) ;;
      _ <~ remove_neighbour segment_end segment_start ;;
      _ <~ modify (update_node segment_end (append_neighbour node)) ;;
      _ <~ modify (update_node node (append_neighbour segment_start)) ;;
      modify (update_node node (append_neighbour segment_end)).

(** The positional arguments of a call of [connect_by_node]. *)
Inductive pyarg : Type :=
| ArgStore
| ArgNode (ref : Z).

(** Calling [connect_by_node], which has three parameters and no defaults:
    any other number of arguments raises [TypeError] before the body runs. *)
Definition call_connect_by_node (args : list pyarg) : M Z :=
  match args with
  | [ArgStore; ArgNode node; ArgNode street_node] => connect_by_node node street_node
  | [_; _; _] => raise AttributeError
  | _ => raise TypeError
  end.

(** [connect_by_projection(osm_object, node, street, mode)].  The Python
    result is [False] ([None] here) or the new way.  In the fallback for a
    mode of length one the source calls [connect_by_node(node, mode[0])]. *)
Definition connect_by_projection (node : Z) (street : option Z)
    (mode : option distance_mode) : M (option Z) :=
  match street, mode with
  | Some street, Some mode =>
      match mode with
      | ModeNode m0 =>
          connected <~ call_connect_by_node [ArgNode node; ArgNode (node_id m0)] ;;
          ret (Some connected)
      | ModeSegment start_node end_node projection_length =>
          match GEOD_inv (lon start_node) (lat start_node)
                         (lon end_node) (lat end_node) with
          | None => raise ValueError
          | Some (azimuth_f, _, _) =>
              let '(new_lon, new_lat, _) :=
                GEOD_fwd (lon start_node) (lat start_node) azimuth_f projection_length in
              let new_lon := round7 new_lon in
              let new_lat := round7 new_lat in
              let attr : gmap string string := {[ "visible"%string := "true"%string ]} in
              new_node <~ insert_new_node new_lat new_lon ∅ attr ;;
              w <~ read_way street ;;
              _ <~ modify (update_node new_node (set_partition_id (way_partition_id w))) ;;
              _ <~ insert_node street (node_id start_node) (node_id end_node) new_node ;;
              connected <~ call_connect_by_node [ArgStore; ArgNode node; ArgNode new_node] ;;
              ret (Some connected)
          end
      end
  | _, _ => ret None
  end.

(** [R-tree.intersection(box, "raw")]: the ids stored with the entries whose
    box meets the query box. *)
Definition rtree_intersection (tree : list (Z * Box)) (query : Box) : list Z :=
  (filter (fun e => intersects (snd e) query = true) tree).*1.

(** [OSM_objects.get_adjacent_streets(node, threshold)]. *)
Definition get_adjacent_streets (s : OSM_objects) (node : Node) (threshold : Z)
  : list Z :=
  rtree_intersection (street_tree s) (create_node_box node (Py.float_of_int threshold)).

(** ** Points of interest ([app/poi.py]) *)

Definition POI_SELECTED : Z := 1.
Definition POI_CONNECTED : Z := 2.
Definition POI_NOT_CONNECTED : Z := 4.

(** Truth value of [d.get(key)]: a string that is present and not empty. *)
Definition truthy (v : option string) : bool :=
  match v with
  | Some str => negb (String.eqb str EmptyString)
  | None => false
  end.

(** [Node.set_poi(state)]. *)
Definition set_poi (node : Z) (state : Z) : M unit :=
  _ <~ read_node node ;;
  _ <~ modify (update_node node (set_poi_field state)) ;;
  modify (fun s => with_poi_set ({[ node ]} ∪ poi_set s) s).

(** [Poi.is_street_node]. *)
Definition is_street_node (n : Node) : bool :=
  negb (bool_decide (neighbours n = [])).

Fixpoint streets_named (s : OSM_objects) (name : string) (streets : list Z)
  : result (list Z) :=
  match streets with
  | [] => Ok []
  | street :: rest =>
      w <- deref_way s street ;;
      tl <- streets_named s name rest ;;
      Ok (if bool_decide (way_tags w !! "name"%string = Some name)
          then street :: tl else tl)
  end.

(** [Poi.get_street_by_name(name, streets)]: [None] when [name] is falsy. *)
Definition get_street_by_name (s : OSM_objects) (name : option string)
    (streets : list Z) : result (option (list Z)) :=
  match name with
  | Some nm =>
      if String.eqb nm EmptyString then Ok None
      else l <- streets_named s nm streets ;; Ok (Some l)
  | None => Ok None
  end.

(** [Poi.get_adjacent_buildings]. *)
Definition get_adjacent_buildings (s : OSM_objects) (node : Node) (threshold : Z)
  : list Z :=
  rtree_intersection (building_tree s) (create_node_box node (Py.float_of_int threshold)).

Fixpoint poi_building_loop (poi_node : Node) (bnodes : list Node) (min_dist : float)
  : result float :=
  match bnodes with
  | a :: tl =>
      match tl with
      | b :: _ =>
          distance <- distance_point_line a b poi_node ;;
          poi_building_loop poi_node tl
            (if PrimFloat.ltb distance min_dist then distance else min_dist)
      | [] => Ok min_dist
      end
  | [] => Ok min_dist
  end.

(** [Poi.distance_poi_building]. *)
Definition distance_poi_building (s : OSM_objects) (poi_node : Node) (building : Z)
  : result float :=
  w <- deref_way s building ;;
  bnodes <- resolve_nodes s (way_nodes w) ;;
  poi_building_loop poi_node bnodes Py.inf.

Fixpoint nearest_building_loop (s : OSM_objects) (node : Node) (buildings : list Z)
    (acc : option Z * float) : result (option Z * float) :=
  match buildings with
  | [] => Ok acc
  | building :: rest =>
      distance <- distance_poi_building s node building ;;
      nearest_building_loop s node rest
        (if PrimFloat.ltb distance (snd acc) then (Some building, distance) else acc)
  end.

(** [Poi.get_nearest_building]. *)
Definition get_nearest_building (s : OSM_objects) (node : Node) (buildings : list Z)
  : result (option Z * float) :=
  nearest_building_loop s node buildings (None, Py.inf).

(** [Poi.connect_with_nearest_street(poi_node, streets, projection_threshold)];
    the result is [False] ([None]) or the way that was created. *)
Definition connect_with_nearest_street (poi_node : Z) (streets : list Z)
    (projection_threshold : Z) : M (option Z) :=
  match streets with
  | [] => ret None
  | _ :: _ =>
      p <~ read_node poi_node ;;
      r <~ (fun s => (get_nearest_street s p streets, s)) ;;
      let '(nearest_street, street_distance, nearest_mode) := r in
      match nearest_mode with
      | None => raise TypeError
      | Some (ModeNode m0) =>
          connected <~ connect_by_node poi_node (node_id m0) ;;
          ret (Some connected)
      | Some (ModeSegment _ _ _) =>
          match nearest_street with
          | None => raise AttributeError
          | Some street =>
              r2 <~ (fun s => (get_nearest_street_node s p [street], s)) ;;
              let '(nearest_node, node_distance) := r2 in
              if Py.lt_int (PrimFloat.sub node_distance street_distance)
                           projection_threshold
              then
                match nearest_node with
                | None => raise AttributeError
                | Some nn =>
                    connected <~ connect_by_node poi_node (node_id nn) ;;
                    ret (Some connected)
                end
              else connect_by_projection poi_node nearest_street nearest_mode
          end
      end
  end.

(** [Poi.connect_by_address]. *)
Definition connect_by_address (poi_node : Z) (address : option string)
    (streets : list Z) (projection_threshold address_threshold : Z) : M (option Z) :=
  named_streets <~ (fun s => (get_street_by_name s address streets, s)) ;;
  match named_streets with
  | Some (street :: more) =>
      let named := street :: more in
      p <~ read_node poi_node ;;
      ra <~ (fun s => (get_nearest_street s p named, s)) ;;
      let '(_, address_distance, _) := ra in
      rn <~ (fun s => (get_nearest_street s p streets, s)) ;;
      let '(_, nearest_distance, _) := rn in
      if Py.lt_int (PrimFloat.sub address_distance nearest_distance) address_threshold
      then connect_with_nearest_street poi_node named projection_threshold
      else connect_with_nearest_street poi_node streets projection_threshold
  | _ => connect_with_nearest_street poi_node streets projection_threshold
  end.

(** [get_building_entrance(building)]: the set of entrance nodes, listed in
    the order of the building's nodes; [None] when it is not a building. *)
Definition get_building_entrance (s : OSM_objects) (building : option Way)
  : result (option (list Z)) :=
  isb <- is_building building ;;
  match building with
  | Some b =>
      if isb then
        bnodes <- resolve_nodes s (way_nodes b) ;;
        Ok (Some (remove_dups
              (node_id <$>
                 filter (fun n => node_tags n !! "building"%string
                                  = Some "entrance"%string) bnodes)))
      else Ok None
  | None => Ok None
  end.

(** The loop of [connect_by_building] over the entrances. *)
Fixpoint connect_entrances (poi_node : Z) (entrances : list Z)
    (poi_address building_address : option string) (streets : list Z)
    (projection_threshold address_threshold : Z) (connected : option Z)
  : M (option Z) :=
  match entrances with
  | [] => ret connected
  | entrance :: rest =>
      _ <~ connect_by_node poi_node entrance ;;
      e <~ read_node entrance ;;
      let entrance_address := node_tags e !! "addr:street"%string in
      connected' <~
        (if truthy entrance_address then
           connect_by_address entrance entrance_address streets
                              projection_threshold address_threshold
         else if truthy poi_address then
           connect_by_address entrance poi_address streets
                              projection_threshold address_threshold
         else if truthy building_address then
           connect_by_address entrance building_address streets
                              projection_threshold address_threshold
         else connect_with_nearest_street entrance streets projection_threshold) ;;
      connect_entrances poi_node rest poi_address building_address streets
                        projection_threshold address_threshold connected'
  end.

(** [Poi.connect_by_building]. *)
Definition connect_by_building (poi_node : Z) (building : option Z)
    (streets : list Z) (projection_threshold address_threshold : Z) : M (option Z) :=
  bw <~ (match building with
         | Some b => w <~ read_way b ;; ret (Some w)
         | None => ret None
         end) ;;
  isb <~ lift (is_building bw) ;;
  inside <~ (match bw with
             | Some w =>
                 if isb then
                   p <~ read_node poi_node ;;
                   (fun s => (is_inside_polygon s p w, s))
                 else ret false
             | None => ret false
             end) ;;
  if negb (isb && inside) then ret None
  else
    match bw with
    | None => ret None
    | Some w =>
        let building_address := way_tags w !! "addr:street"%string in
        building_entrance <~ (fun s => (get_building_entrance s bw, s)) ;;
        p <~ read_node poi_node ;;
        let poi_address := node_tags p !! "addr:street"%string in
        match building_entrance with
        | Some (e :: es) =>
            connect_entrances poi_node (e :: es) poi_address building_address
                              streets projection_threshold address_threshold None
        | _ =>
            if truthy poi_address then
              connect_by_address poi_node poi_address streets
                                 projection_threshold address_threshold
            else if truthy building_address then
              connect_by_address poi_node building_address streets
                                 projection_threshold address_threshold
            else connect_with_nearest_street poi_node streets projection_threshold
        end
    end.

(** The body of the loop of [Poi.connect_poi] for one selected node. *)
Definition connect_poi_node (search_threshold projection_threshold address_threshold : Z)
    (poi_node : Z) : M unit :=
  p <~ read_node poi_node ;;
  if is_street_node p then set_poi poi_node POI_CONNECTED
  else
    streets <~ (fun s => (Ok (get_adjacent_streets s p search_threshold), s)) ;;
    connected <~
      (match streets with
       | [] => ret None
       | _ :: _ =>
           let poi_address := node_tags p !! "addr:street"%string in
           buildings <~ (fun s => (Ok (get_adjacent_buildings s p search_threshold), s)) ;;
           rb <~ (fun s => (get_nearest_building s p buildings, s)) ;;
           let nearest_building := fst rb in
           rn <~ (fun s => (get_nearest_street_node s p streets, s)) ;;
           let nearest_node := fst rn in
           c1 <~ (if have_same_coords (Some p) nearest_node then
                    match nearest_node with
                    | Some nn => w <~ connect_by_node poi_node (node_id nn) ;; ret (Some w)
                    | None => ret None
                    end
                  else ret None) ;;
           c2 <~ (match c1 with
                  | None => connect_by_building poi_node nearest_building streets
                              projection_threshold address_threshold
                  | Some _ => ret c1
                  end) ;;
           c3 <~ (match c2 with
                  | None =>
                      if truthy poi_address then
                        connect_by_address poi_node poi_address streets
                                           projection_threshold address_threshold
                      else ret c2
                  | Some _ => ret c2
                  end) ;;
           match c3 with
           | None => connect_with_nearest_street poi_node streets projection_threshold
           | Some _ => ret c3
           end
       end) ;;
    match connected with
    | Some _ => set_poi poi_node POI_CONNECTED
    | None => set_poi poi_node POI_NOT_CONNECTED
    end.

(** [Poi.connect_poi] over the selected nodes, in the order the set yields
    them. *)
Fixpoint connect_poi (search_threshold projection_threshold address_threshold : Z)
    (poi_nodes : list Z) : M unit :=
  match poi_nodes with
  | [] => ret tt
  | poi_node :: rest =>
      _ <~ connect_poi_node search_threshold projection_threshold address_threshold
             poi_node ;;
      connect_poi search_threshold projection_threshold address_threshold rest
  end.

(** The body of the loop of [OSM_objects.__create_ways] for one imported way
    [(osm_id, tags, nodes, attr)]. *)
Definition create_way (osm_id : Z) (tags : gmap string string) (nodes : list Z)
    (attr : gmap string string) : M unit :=
  way <~ Way_init osm_id nodes tags attr ;;
  _ <~ (if negb (bool_decide (attr !! "action"%string = Some "delete"%string)) then
          if bool_decide (is_Some (tags !! "highway"%string)) then
            modify (fun s => with_street_tree (street_tree s ++ [(osm_id, box way)]) s)
          else if bool_decide (tags !! "building"%string = Some "yes"%string) then
            modify (fun s => mkOSM (node_avl s) (way_avl s) (relations s) (street_tree s)
                                   (building_tree s ++ [(osm_id, box way)]) (poi_set s))
          else ret tt
        else ret tt) ;;
  modify (fun s => with_way_avl (<[osm_id := way]> (way_avl s)) s).

(** ** Generalisation of a street ([app/generalize.py]) *)

(** The variables of the loop of [generalize] over the nodes of one way. *)
Record gen_state : Type := mkGen {
  gen_new_way : list Node;
  gen_segment : list Node
}.

(** The test that ends a segment at [way.nodes[i]]: a road junction or dead
    end, the last node of the street, or a point of interest. *)
Definition ends_segment (nodes : list Node) (i : nat) (n : Node) : bool :=
  negb (length (neighbours n) =? 2)%nat
  || (i =? length nodes - 1)%nat
  || (0 <? poi n)%Z.

(** The body of [for i in range(1, len(way.nodes))]. *)
Definition generalize_step (nodes : list Node) (tolerance : float) (i : nat)
    (st : gen_state) : option (result gen_state) :=
  match Py.index nodes i with
  | Raise e => Some (Raise e)
  | Ok n =>
      let segment := gen_segment st ++ [n] in
      if ends_segment nodes i n then
        match douglas_peucker segment tolerance with
        | None => None
        | Some (Raise e) => Some (Raise e)
        | Some (Ok dp) =>
            Some (Ok (mkGen
                        (match gen_new_way st with
                         | [] => dp
                         | _ :: _ => removelast (gen_new_way st) ++ dp
                         end)
                        [n]))
        end
      else Some (Ok (mkGen (gen_new_way st) segment))
  end.

Fixpoint generalize_loop (nodes : list Node) (tolerance : float) (idxs : list nat)
    (st : gen_state) : option (result (list Node)) :=
  match idxs with
  | [] => Some (Ok (gen_new_way st))
  | i :: idxs' =>
      match generalize_step nodes tolerance i st with
      | None => None
      | Some (Raise e) => Some (Raise e)
      | Some (Ok st') => generalize_loop nodes tolerance idxs' st'
      end
  end.

(** The new node list [generalize] computes for one way from [way.nodes];
    [None] when a run of [douglas_peucker] does not finish. *)
Definition generalize_way (nodes : list Node) (tolerance : float)
  : option (result (list Node)) :=
  match nodes with
  | [] => Some (Raise IndexError)
  | first :: _ =>
      generalize_loop nodes tolerance (py_range 1 (length nodes)) (mkGen [] [first])
  end.

End Kernel.

Arguments ret {A} a _ /.
Arguments raise {A} e _ /.
Arguments lift {A} r _ /.
Arguments modify f _ /.
Arguments sbind {A B} m k _ /.

(** ** Partitions ([app/partition.py]) *)

(** [class Partition]: sets of references to its nodes and streets, and the
    union of the boxes of its streets. *)
Record Partition : Type := mkPartition {
  part_id : Z;
  part_nodes : gset Z;
  part_streets : gset Z;
  part_box : option Box
}.

Definition Partition_init (partition_id : Z) : Partition :=
  mkPartition partition_id ∅ ∅ None.

(** [Partition.add_street]. *)
Definition add_street (street : Z) (street_box : Box) (p : Partition) : Partition :=
  mkPartition (part_id p) (part_nodes p) ({[ street ]} ∪ part_streets p)
    (match part_box p with
     | Some b => Some (merge_boxes b street_box)
     | None => Some street_box
     end).

(** [Partition.add_node]. *)
Definition add_node (node : Z) (p : Partition) : Partition :=
  mkPartition (part_id p) ({[ node ]} ∪ part_nodes p) (part_streets p) (part_box p).

(** The part of [class PartitionFinder] that labelling reads and writes: the
    store, the dictionary of partitions and the highest partition id. *)
Record PartitionFinder : Type := mkFinder {
  osm : OSM_objects;
  partitions : gmap Z Partition;
  finder_partition_id : Z
}.

Definition with_osm (f : OSM_objects -> OSM_objects) (pf : PartitionFinder)
  : PartitionFinder :=
  mkFinder (f (osm pf)) (partitions pf) (finder_partition_id pf).

Definition with_partitions (f : gmap Z Partition -> gmap Z Partition)
    (pf : PartitionFinder) : PartitionFinder :=
  mkFinder (osm pf) (f (partitions pf)) (finder_partition_id pf).

Definition set_filtered (b : bool) (n : Node) : Node :=
  mkNode (node_id n) (lon n) (lat n) (node_tags n) (node_attr n) (neighbours n)
         (partition_id n) b (poi n).
Definition set_way_filtered (b : bool) (w : Way) : Way :=
  mkWay (way_id w) (nodeIDs w) (way_nodes w) (way_tags w) (way_attr w)
        (way_partition_id w) b (generalized w) (box w).

(** [for neighbour in node.neighbours: if not neighbour.filtered: ...]: the
    neighbours that are appended to the queue. *)
Fixpoint unfiltered_neighbours (s : OSM_objects) (ns : list Z) : result (list Z) :=
  match ns with
  | [] => Ok []
  | neighbour :: rest =>
      n <- deref_node s neighbour ;;
      tl <- unfiltered_neighbours s rest ;;
      Ok (if negb (filtered n) then neighbour :: tl else tl)
  end.

(** The [while node_queue:] loop of [breadth_first_search]. *)
Fixpoint flood (fuel : nat) (node_queue : list Z) (pf : PartitionFinder)
  : option (result PartitionFinder) :=
  match node_queue with
  | [] => Some (Ok pf)
  | node :: queue =>
      match fuel with
      | O => None
      | S fuel' =>
          match deref_node (osm pf) node with
          | Raise e => Some (Raise e)
          | Ok n =>
              if (0 <? partition_id n)%Z then flood fuel' queue pf
              else if (partition_id n =? -1)%Z && filtered n then
                let pf1 := with_osm (update_node node
                                       (set_partition_id (finder_partition_id pf))) pf in
                match unfiltered_neighbours (osm pf1) (neighbours n) with
                | Raise e => Some (Raise e)
                | Ok l => flood fuel' (queue ++ l) pf1
                end
              else if filtered n then flood fuel' queue pf
              else
                let pf1 := with_osm (update_node node
                                       (set_partition_id (finder_partition_id pf))) pf in
                match partitions pf1 !! finder_partition_id pf1 with
                | None => Some (Raise AttributeError)
                | Some _ =>
                    flood fuel' (queue ++ neighbours n)
                      (with_partitions (alter (add_node node) (finder_partition_id pf1)) pf1)
                end
          end
      end
  end.

(** [PartitionFinder.breadth_first_search(streets)]; each [while] loop gets
    [fuel] iterations. *)
Fixpoint breadth_first_search (fuel : nat) (streets : list Z) (pf : PartitionFinder)
  : option (result PartitionFinder) :=
  match streets with
  | [] => Some (Ok pf)
  | street :: rest =>
      match deref_way (osm pf) street with
      | Raise e => Some (Raise e)
      | Ok w =>
          if way_filtered w then breadth_first_search fuel rest pf
          else
            match way_nodes w with
            | [] => Some (Raise IndexError)
            | first :: _ =>
                match deref_node (osm pf) first with
                | Raise e => Some (Raise e)
                | Ok n0 =>
                    if (0 <? partition_id n0)%Z then
                      let pf1 := with_osm (update_way street
                                             (set_way_partition_id (partition_id n0))) pf in
                      match partitions pf1 !! partition_id n0 with
                      | None => Some (Raise AttributeError)
                      | Some _ =>
                          breadth_first_search fuel rest
                            (with_partitions
                               (alter (add_street street (box w)) (partition_id n0)) pf1)
                      end
                    else
                      let pid := finder_partition_id pf + 1 in
                      let pf1 := mkFinder
                                   (update_way street (set_way_partition_id pid) (osm pf))
                                   (alter (add_street street (box w)) pid
                                      (match partitions pf !! pid with
                                       | Some _ => partitions pf
                                       | None => <[pid := Partition_init pid]> (partitions pf)
                                       end))
                                   pid in
                      match flood fuel (way_nodes w) pf1 with
                      | None => None
                      | Some (Raise e) => Some (Raise e)
                      | Some (Ok pf2) => breadth_first_search fuel rest pf2
                      end
                end
            end
      end
  end.

(** The list [self.__streets]: every way of the street R-tree. *)
Definition all_streets (s : OSM_objects) : list Z := (street_tree s).*1.

(** The marking loop of [PartitionFinder.filter_streets] for one street whose
    highway type is in the filter. *)
Definition mark_filtered (street : Z) (s : OSM_objects) : result OSM_objects :=
  w <- deref_way s street ;;
  let s1 := update_way street (fun w => set_way_filtered true (set_way_partition_id (-1) w)) s in
  _ <- resolve_nodes s1 (way_nodes w) ;;
  Ok (foldl (fun acc node =>
               update_node node (fun n => set_filtered true (set_partition_id (-1) n)) acc)
            s1 (way_nodes w)).

Fixpoint mark_streets (street_filter : list string) (streets : list Z)
    (s : OSM_objects) : result OSM_objects :=
  match streets with
  | [] => Ok s
  | street :: rest =>
      w <- deref_way s street ;;
      match way_tags w !! "highway"%string with
      | Some h =>
          if bool_decide (h ∈ street_filter) then
            s1 <- mark_filtered street s ;;
            mark_streets street_filter rest s1
          else mark_streets street_filter rest s
      | None => mark_streets street_filter rest s
      end
  end.

(** [PartitionFinder.find_partitions] up to the labelling: a fresh dictionary,
    partition id [0], then [breadth_first_search] over [streets]. *)
Definition find_partitions (fuel : nat) (streets : list Z) (s : OSM_objects)
  : option (result PartitionFinder) :=
  breadth_first_search fuel streets (mkFinder s ∅ 0).

(** ** More of partitions ([app/partition.py]) *)

(** The loop of [PartitionFinder.find_largest_partition] over the items of
    the dictionary of partitions, in the order [iteritems()] yields them;
    [partitions.get(max_partition)] is [None] for a key that is absent. *)
Fixpoint find_largest_loop (partitions : gmap Z Partition)
    (items : list (Z * Partition)) (max_partition : Z) (max_size : nat) : result Z :=
  match items with
  | [] => Ok max_partition
  | (partition_id, partition) :: rest =>
      let partition_size := size (part_nodes partition) in
      if (max_size <? partition_size)%nat then
        find_largest_loop partitions rest partition_id partition_size
      else if (partition_size =? max_size)%nat then
        match partitions !! max_partition with
        | None => Raise AttributeError
        | Some largest =>
            if (size (part_streets largest) <? size (part_streets partition))%nat
            then find_largest_loop partitions rest partition_id partition_size
            else find_largest_loop partitions rest max_partition max_size
        end
      else find_largest_loop partitions rest max_partition max_size
  end.

(** [PartitionFinder.find_largest_partition], for the items in the order of
    the keys. *)
Definition find_largest_partition (pf : PartitionFinder) : result Z :=
  find_largest_loop (partitions pf) (map_to_list (partitions pf)) 0 0.

(** [PartitionFinder.filter_streets_by_partition(streets, partition_id)]. *)
Fixpoint filter_streets_by_partition (s : OSM_objects) (streets : list Z)
    (partition_id : Z) : result (list Z) :=
  match streets with
  | [] => Ok []
  | street :: rest =>
      w <- deref_way s street ;;
      tl <- filter_streets_by_partition s rest partition_id ;;
      Ok (if negb (way_partition_id w =? partition_id)%Z then street :: tl else tl)
  end.

(** [Partition.append_partition(other_partition)] for the partition stored
    under the key [self] of the dictionary: the members of the other
    partition are relabelled and the sets are merged before [merge_boxes]
    unpacks the two boxes, which raises [TypeError] on [None]. *)
Definition append_partition (self : Z) (other : Partition) (pf : PartitionFinder)
  : result unit * PartitionFinder :=
  match partitions pf !! self with
  | None => (Raise AttributeError, pf)
  | Some this =>
      let osm1 := foldl (fun acc node =>
                           update_node node (set_partition_id (part_id this)) acc)
                        (osm pf) (elements (part_nodes other)) in
      let osm2 := foldl (fun acc street =>
                           update_way street (set_way_partition_id (part_id this)) acc)
                        osm1 (elements (part_streets other)) in
      let merged box :=
        mkPartition (part_id this) (part_nodes this ∪ part_nodes other)
                    (part_streets this ∪ part_streets other) box in
      match part_box this, part_box other with
      | Some box1, Some box2 =>
          (Ok tt, mkFinder osm2
                    (<[self := merged (Some (merge_boxes box1 box2))]> (partitions pf))
                    (finder_partition_id pf))
      | _, _ =>
          (Raise TypeError, mkFinder osm2
                              (<[self := merged (part_box this)]> (partitions pf))
                              (finder_partition_id pf))
      end
  end.

(** ** Filtering streets ([app/partition.py]) *)

(** The loop body of [PartitionFinder.reset_partitions]: the street and its
    nodes get partition id [0] and are not filtered. *)
Definition reset_street (street : Z) (s : OSM_objects) : result OSM_objects :=
  w <- deref_way s street ;;
  let s1 := update_way street (fun w => set_way_filtered false (set_way_partition_id 0 w)) s in
  _ <- resolve_nodes s1 (way_nodes w) ;;
  Ok (foldl (fun acc node =>
               update_node node (fun n => set_filtered false (set_partition_id 0 n)) acc)
            s1 (way_nodes w)).

Fixpoint reset_streets (streets : list Z) (s : OSM_objects) : result OSM_objects :=
  match streets with
  | [] => Ok s
  | street :: rest =>
      s1 <- reset_street street s ;;
      reset_streets rest s1
  end.

(** [PartitionFinder.reset_partitions]: the list [self.__streets] it reads
    from the street tree, and the store. *)
Definition reset_partitions (s : OSM_objects) : result (list Z * OSM_objects) :=
  let streets := all_streets s in
  s1 <- reset_streets streets s ;;
  Ok (streets, s1).

(** [street.getTags().get('highway') in street_filter]. *)
Definition highway_in (street_filter : list string) (w : Way) : bool :=
  match way_tags w !! "highway"%string with
  | Some h => bool_decide (h ∈ street_filter)
  | None => false
  end.

(** The loop of [PartitionFinder.filter_streets], with its flag [filtered]
    and the list [self.__filtered_streets]. *)
Fixpoint filter_loop (street_filter : list string) (streets : list Z)
    (filtered : bool) (filtered_streets : list Z) (s : OSM_objects)
  : result (bool * list Z * OSM_objects) :=
  match streets with
  | [] => Ok (filtered, filtered_streets, s)
  | street :: rest =>
      w <- deref_way s street ;;
      if highway_in street_filter w then
        s1 <- mark_filtered street s ;;
        filter_loop street_filter rest true (filtered_streets ++ [street]) s1
      else filter_loop street_filter rest filtered filtered_streets s
  end.

(** What [filter_streets] returns and leaves in the finder. *)
Record Filtered : Type := mkFiltered {
  any_filtered : bool;
  filtered_streets : list Z;
  finder : PartitionFinder;
  largest_partition : Z
}.

(** [PartitionFinder.filter_streets(street_filter)]: [reset_partitions], the
    marking loop, then [find_partitions], which labels the streets of
    [self.__streets] and looks for the largest partition. *)
Definition filter_streets (fuel : nat) (street_filter : list string) (s : OSM_objects)
  : option (result Filtered) :=
  match reset_partitions s with
  | Raise e => Some (Raise e)
  | Ok (self_streets, s1) =>
      match filter_loop street_filter (all_streets s1) false [] s1 with
      | Raise e => Some (Raise e)
      | Ok (filtered, fstreets, s2) =>
          match find_partitions fuel self_streets s2 with
          | None => None
          | Some (Raise e) => Some (Raise e)
          | Some (Ok pf) =>
              match find_largest_partition pf with
              | Raise e => Some (Raise e)
              | Ok largest => Some (Ok (mkFiltered filtered fstreets pf largest))
              end
          end
      end
  end.

(** ** A planar kernel and concrete stores

    To run the definitions, pyproj is replaced by a flat stand-in:
    coordinates are read as planar metres, the geodesic distance is the
    Euclidean one, the UTM projection is the identity, and [Geod.fwd] moves
    along the four cardinal azimuths.  [inv_strict] additionally fails, as
    pyproj is documented to do, on two points that differ by less than a
    nanometre-scale amount without being equal. *)

Module Planar.

Definition inv (lon1 lat1 lon2 lat2 : float) : option (float * float * float) :=
  let dx := PrimFloat.sub lon2 lon1 in
  let dy := PrimFloat.sub lat2 lat1 in
  Some (0%float, 0%float,
        PrimFloat.sqrt (PrimFloat.add (PrimFloat.mul dx dx) (PrimFloat.mul dy dy))).

Definition inv_strict (lon1 lat1 lon2 lat2 : float) : option (float * float * float) :=
  match inv lon1 lat1 lon2 lat2 with
  | Some (az_f, az_b, d) =>
      if PrimFloat.ltb 0%float d && PrimFloat.ltb d 0x1p-30%float then None
      else Some (az_f, az_b, d)
  | None => None
  end.

Definition fwd (lon lat azimuth distance : float) : float * float * float :=
  if PrimFloat.eqb azimuth 0%float then (lon, PrimFloat.add lat distance, 180%float)
  else if PrimFloat.eqb azimuth 90%float then (PrimFloat.add lon distance, lat, 270%float)
  else if PrimFloat.eqb azimuth 180%float then (lon, PrimFloat.sub lat distance, 0%float)
  else if PrimFloat.eqb azimuth 270%float then (PrimFloat.sub lon distance, lat, 90%float)
  else (lon, lat, azimuth).

Definition utm (lon lat : float) : float * float := (lon, lat).

Definition round7 (x : float) : float := x.

End Planar.

Module Fixtures.

(** An imported node without tags. *)
Definition node (osm_id : Z) (x y : float) : Node := Node_init osm_id x y ∅ ∅.

Definition highway (kind : string) : gmap string string :=
  {[ "highway"%string := kind ]}.

Definition named_highway (kind name : string) : gmap string string :=
  <[ "name"%string := name ]> (highway kind).

Definition empty_store : OSM_objects := mkOSM ∅ ∅ ∅ [] [] ∅.

(** [__create_nodes] then [__create_ways] on imported records. *)
Definition with_nodes (ns : list Node) (s : OSM_objects) : OSM_objects :=
  foldl (fun acc n => with_node_avl (<[node_id n := n]> (node_avl acc)) acc) s ns.

Fixpoint with_ways (ws : list (Z * gmap string string * list Z)) (s : OSM_objects)
  : OSM_objects :=
  match ws with
  | [] => s
  | (osm_id, tags, nodes) :: rest => with_ways rest (snd (create_way osm_id tags nodes ∅ s))
  end.

(** Three nodes of a way segment: [n1] lies 4 m off the chord from [n0] to
    [n2] (a 3-4-5 triangle with [n2]). *)
Definition n0 : Node := node 1 0 0.
Definition n1 : Node := node 2 7 4.
Definition n2 : Node := node 3 10 0.

(** A POI at the origin, an unnamed street 4 m away and "Main St" 12 m away. *)
Definition poi0 : Node := node 1 0 0.
Definition address_store : OSM_objects :=
  with_ways
    [ (10, highway "residential", [2; 3]);
      (11, named_highway "residential" "Main St", [4; 5]) ]
    (with_nodes [ poi0; node 2 (-3) 4; node 3 3 4; node 4 (-5) 12; node 5 5 12 ]
                empty_store).

(** A POI at the origin and a street whose nearest node has the POI's
    longitude but lies 3 m to the north. *)
Definition same_lon_store : OSM_objects :=
  with_ways [ (10, highway "residential", [2; 3]) ]
    (with_nodes [ poi0; node 2 0 3; node 3 4 3 ] empty_store).

(** Two labelled nodes of different partitions, and a street. *)
Definition two_partitions_store : OSM_objects :=
  update_node 4 (set_partition_id 1)
    (update_node 3 (set_partition_id 1)
       (update_node 2 (set_partition_id 2)
          (update_node 1 (set_partition_id 2)
             (with_ways [ (10, highway "residential", [1; 2]);
                          (11, highway "residential", [3; 4]) ]
                (with_nodes [ node 1 0 0; node 2 1 0; node 3 0 5; node 4 1 5 ]
                   empty_store))))).

(** Streets [10 = [1, 2]] and [11 = [2, 3]] are residential; the service
    roads [12 = [2, 4]] and [13 = [3, 5]] branch off at nodes 2 and 3. *)
Definition service_store : OSM_objects :=
  with_ways
    [ (10, highway "residential", [1; 2]);
      (11, highway "residential", [2; 3]);
      (12, highway "service", [2; 4]);
      (13, highway "service", [3; 5]) ]
    (with_nodes [ node 1 0 0; node 2 1 0; node 3 2 0; node 4 1 1; node 5 2 1 ]
                empty_store).

(** [filter_streets(['service'])] up to the call of [find_partitions]. *)
Definition service_filtered : result OSM_objects :=
  mark_streets [ "service"%string ] (all_streets service_store) service_store.

(** Two points closer than [inv_strict] tolerates. *)
Definition near_a : Node := node 1 10 50.
Definition near_b : Node := node 2 0x1.4000000000001p+3 50.

End Fixtures.

Module Cases.


(** A way without nodes. *)
Definition empty_way : Way :=
  mkWay 20 [] [] ∅ ∅ 0 false ∅ (0%float, 0%float, 0%float, 0%float).

(** A residential street between two service roads: every node of street
    [11 = [2, 3]] also lies on a service road. *)
Definition flanked_store : OSM_objects :=
  Fixtures.with_ways
    [ (11, Fixtures.highway "residential", [2; 3]);
      (12, Fixtures.highway "service", [2; 4]);
      (13, Fixtures.highway "service", [3; 5]) ]
    (Fixtures.with_nodes
       [ Fixtures.node 2 1 0; Fixtures.node 3 2 0; Fixtures.node 4 1 1;
         Fixtures.node 5 2 1 ]
       Fixtures.empty_store).

(** [filter_streets(['service'])] up to the call of [find_partitions]. *)
Definition flanked_filtered : result OSM_objects :=
  mark_streets [ "service"%string ] (all_streets flanked_store) flanked_store.

(** The two partitions of [two_partitions_store], with boxes. *)
Definition two_partitions : PartitionFinder :=
  mkFinder Fixtures.two_partitions_store
    {[ 1 := mkPartition 1 {[ 3; 4 ]} {[ 11 ]} (Some (0, 5, 1, 5)%float);
       2 := mkPartition 2 {[ 1; 2 ]} {[ 10 ]} (Some (0, 0, 1, 0)%float) ]}
    2.

(** The store of the two streets, with one more node [9] that lies on
    street [10 = [2, 3]]. *)
Definition splice_store : OSM_objects :=
  Fixtures.with_nodes [ Fixtures.node 9 0 4 ] Fixtures.address_store.

End Cases.

(** ** Vocabulary of the properties *)

(** The stack holds strictly increasing indices above [lo], down to the
    last index [hi] at its bottom. *)
Inductive stack_ok (hi : nat) : nat -> list nat -> Prop :=
| stack_ok_one (lo : nat) : (lo < hi)%nat -> stack_ok hi lo [hi]
| stack_ok_cons (lo x : nat) (stk : list nat) :
    (lo < x)%nat -> stack_ok hi x stk -> stack_ok hi lo (x :: stk).

(** The nodes kept so far, for the anchor [a]. *)
Definition way_ok (way_segment : list Node) (a : nat) (nw : list Node) : Prop :=
  nw `sublist_of` take (S a) way_segment /\
  head nw = head way_segment /\
  last nw = way_segment !! a.

Definition dp_inv (way_segment : list Node) (hi : nat) (st : dp_state) : Prop :=
  stack_ok hi (anchor st) (stack st) /\
  head (stack st) = Some (floater st) /\
  way_ok way_segment (anchor st) (new_way st).

Definition dp_measure (way_segment : list Node) (st : dp_state) : nat :=
  (2 * (length way_segment - anchor st) - length (stack st))%nat.

(** The properties of a finished run. *)
Definition dp_good (way_segment : list Node) (out : result (list Node)) : Prop :=
  match out with
  | Ok r => r `sublist_of` way_segment /\
            head r = head way_segment /\ last r = last way_segment
  | Raise e => e = ZeroDivisionError
  end.

(** The ids in use: keys of the node tree, of the way tree and of the
    relations. *)
Definition has_id (s : OSM_objects) (i : Z) : Prop :=
  is_Some (node_avl s !! i) \/ is_Some (way_avl s !! i) \/ is_Some (relations s !! i).

Definition is_min_id (s : OSM_objects) (m : Z) : Prop :=
  has_id s m /\ forall i, has_id s i -> m <= i.

(** The id [find_new_key] derives from the minimum id in use. *)
Definition key_below (m : Z) : Z := if (0 <=? m)%Z then -1 else m - 1.

(** [Way.__init__] only appends to neighbour lists: the ways, the relations
    and the partition id of every node stay as they were. *)
Definition same_labels (s s' : OSM_objects) : Prop :=
  way_avl s' = way_avl s /\ relations s' = relations s /\
  forall j, partition_id <$> node_avl s' !! j = partition_id <$> node_avl s !! j.

(** *** The order of floats *)

(** The order of the floats that are not NaN, read off their
    sign-exponent-mantissa form: [None] for NaN, and otherwise a triple that
    compares lexicographically as the float does (both zeros share a key). *)
Definition sf_key (f : spec_float) : option (Z * Z * Z) :=
  match f with
  | S754_nan => None
  | S754_infinity true => Some (-2, 0, 0)
  | S754_infinity false => Some (2, 0, 0)
  | S754_zero _ => Some (0, 0, 0)
  | S754_finite true m e => Some (-1, - e, Z.neg m)
  | S754_finite false m e => Some (1, e, Z.pos m)
  end.

Definition float_key (x : float) : option (Z * Z * Z) := sf_key (Prim2SF x).

Definition key_lt (a b : Z * Z * Z) : Prop :=
  a.1.1 < b.1.1 \/
  (a.1.1 = b.1.1 /\ (a.1.2 < b.1.2 \/ (a.1.2 = b.1.2 /\ a.2 < b.2))).

(** [x < y], [x <= y] and "[x] is a number" on floats, as propositions. *)
Definition flt (x y : float) : Prop :=
  match float_key x, float_key y with
  | Some a, Some b => key_lt a b
  | _, _ => False
  end.

Definition fle (x y : float) : Prop :=
  match float_key x, float_key y with
  | Some a, Some b => ~ key_lt b a
  | _, _ => False
  end.

Definition feq (x y : float) : Prop :=
  match float_key x, float_key y with
  | Some a, Some b => a = b
  | _, _ => False
  end.

Definition is_number (x : float) : Prop := is_Some (float_key x).

(** *** Chords accepted by Douglas-Peucker *)

(** A computed distance [d] counts as below the tolerance when it compares
    so, or when it is not a number (a NaN never compares greater than the
    running maximum). *)
Definition below_tolerance (tolerance d : float) : Prop :=
  PrimFloat.eqb d d = false \/ PrimFloat.ltb d tolerance = true.

Section Chords.

Variable GEOD_inv : float -> float -> float -> float -> option (float * float * float).
Variable utm : float -> float -> float * float.
Variable way_segment : list Node.
Variable tolerance : float.

(** Every node strictly between the indices [a] and [f] has a distance from
    the chord between the nodes at [a] and [f] that is below the tolerance. *)
Definition chord_ok (a f : nat) : Prop :=
  forall (i : nat) (pa pf pi : Node),
    (a < i < f)%nat ->
    way_segment !! a = Some pa -> way_segment !! f = Some pf ->
    way_segment !! i = Some pi ->
    exists d, distance_point_line GEOD_inv utm pa pf pi = Ok d /\
              below_tolerance tolerance d.

(** The indices kept: increasing, and each chord between two consecutive
    ones is within the tolerance of all the nodes it skips. *)
Fixpoint chain_ok (idxs : list nat) : Prop :=
  match idxs with
  | a :: tl =>
      match tl with
      | f :: _ => (a < f)%nat /\ chord_ok a f /\ chain_ok tl
      | [] => True
      end
  | [] => True
  end.

(** The nodes [nw] are those at a chain of indices from [0] to [a]. *)
Definition dp_kept (a : nat) (nw : list Node) : Prop :=
  exists idxs,
    Forall2 (fun i x => way_segment !! i = Some x) idxs nw /\
    head idxs = Some 0%nat /\ last idxs = Some a /\ chain_ok idxs.

End Chords.

(** *** Generalisation *)

(** The state of the loop of [generalize] before index [i], with the current
    segment starting at index [k]. *)
Definition gen_inv (nodes : list Node) (i k : nat) (st : gen_state) : Prop :=
  (k < i <= length nodes)%nat /\
  gen_segment st = drop k (take i nodes) /\
  ((gen_new_way st = [] /\ k = 0%nat) \/
   (exists pre x, gen_new_way st = pre ++ [x] /\ nodes !! k = Some x /\
                  pre `sublist_of` take k nodes /\
                  head (pre ++ [x]) = head nodes)) /\
  (forall j nj, (0 < j < i)%nat -> nodes !! j = Some nj ->
                ends_segment nodes j nj = true -> nj ∈ gen_new_way st).

(** *** Boxes *)

(** The point [(x, y)] lies in the box. *)
Definition box_contains (b : Box) (x y : float) : Prop :=
  let '(min_x, min_y, max_x, max_y) := b in
  PrimFloat.leb min_x x = true /\ PrimFloat.leb x max_x = true /\
  PrimFloat.leb min_y y = true /\ PrimFloat.leb y max_y = true.

(** No corner of the box is a NaN. *)
Definition box_numbers (b : Box) : Prop :=
  let '(min_x, min_y, max_x, max_y) := b in
  PrimFloat.eqb min_x min_x = true /\ PrimFloat.eqb min_y min_y = true /\
  PrimFloat.eqb max_x max_x = true /\ PrimFloat.eqb max_y max_y = true.

(** The running box of [Way.__init__] holds numbers, and covers a point. *)
Definition wi_numbers (st : way_init_state) : Prop :=
  is_number (wi_min_lon st) /\ is_number (wi_min_lat st) /\
  is_number (wi_max_lon st) /\ is_number (wi_max_lat st).

Definition wi_covers (st : way_init_state) (x y : float) : Prop :=
  fle (wi_min_lon st) x /\ fle x (wi_max_lon st) /\
  fle (wi_min_lat st) y /\ fle y (wi_max_lat st).

Definition wi_grows (st st' : way_init_state) : Prop :=
  fle (wi_min_lon st') (wi_min_lon st) /\ fle (wi_max_lon st) (wi_max_lon st') /\
  fle (wi_min_lat st') (wi_min_lat st) /\ fle (wi_max_lat st) (wi_max_lat st').

(** Two stores hold the same nodes at the same coordinates. *)
Definition same_coords (s s' : OSM_objects) : Prop :=
  forall j, (fun n => (lon n, lat n)) <$> node_avl s' !! j
            = (fun n => (lon n, lat n)) <$> node_avl s !! j.

(** *** Streets *)

(** The nodes of the street [street] in the store. *)
Definition street_node (s : OSM_objects) (street : Z) (n : Node) : Prop :=
  exists w ns, way_avl s !! street = Some w /\
               resolve_nodes s (way_nodes w) = Ok ns /\ n ∈ ns.

(** *** The polygon test *)

(** The exceptions the loop of [is_inside_polygon] can raise. *)
Definition polygon_exn (e : exn) : Prop :=
  e = IndexError \/ e = AttributeError \/ e = ZeroDivisionError.

(** *** Neighbours *)

(** The nodes [a] and [b] of the store list each other as neighbours. *)
Definition adjacent (s : OSM_objects) (a b : Z) : Prop :=
  exists na nb, node_avl s !! a = Some na /\ node_avl s !! b = Some nb /\
                b ∈ neighbours na /\ a ∈ neighbours nb.

(** Every node of [s] is in [s'] with at least the neighbours it had. *)
Definition neighbours_grow (s s' : OSM_objects) : Prop :=
  forall j n, node_avl s !! j = Some n ->
    exists n', node_avl s' !! j = Some n' /\
               forall x, x ∈ neighbours n -> x ∈ neighbours n'.

(** Every reference of the list resolves to a node of the store. *)
Definition all_resolve (s : OSM_objects) (refs : list Z) : Prop :=
  Forall (fun i => is_Some (node_avl s !! i)) refs.


(** The ids of the nodes are the same in both stores. *)
Definition same_ids (s s' : OSM_objects) : Prop :=
  forall j, node_id <$> node_avl s' !! j = node_id <$> node_avl s !! j.


(** *** Partitions *)

(** The order of [find_largest_partition]: by the number of nodes, then by
    the number of streets. *)
Definition not_larger (p q : Partition) : Prop :=
  (size (part_nodes p) < size (part_nodes q))%nat \/
  (size (part_nodes p) = size (part_nodes q) /\
   (size (part_streets p) <= size (part_streets q))%nat).

(** The street has a positive partition id and is a member of the partition
    with that id. *)
Definition registered (pf : PartitionFinder) (street : Z) : Prop :=
  exists w p, way_avl (osm pf) !! street = Some w /\ 0 < way_partition_id w /\
              partitions pf !! way_partition_id w = Some p /\
              street ∈ part_streets p.

(** What labelling never undoes: the filtered flags of the ways, the
    registered streets, the nodes that have a positive partition id, and a
    partition counter that is not negative. *)
Definition labelling_step (pf pf' : PartitionFinder) : Prop :=
  (forall j, way_filtered <$> way_avl (osm pf') !! j
             = way_filtered <$> way_avl (osm pf) !! j) /\
  (forall street, registered pf street -> registered pf' street) /\
  (forall j n, node_avl (osm pf) !! j = Some n -> 0 < partition_id n ->
               node_avl (osm pf') !! j = Some n) /\
  (0 <= finder_partition_id pf -> 0 <= finder_partition_id pf').

(** The node [j] of the store lists [x] as a neighbour. *)
Definition has_neighbour (s : OSM_objects) (j x : Z) : Prop :=
  exists n, node_avl s !! j = Some n /\ x ∈ neighbours n.

(** The work labelling has left on a store: the neighbour entries of the
    nodes that have no positive partition id. *)
Definition pending (s : OSM_objects) : nat :=
  sum_list_with
    (fun kn : Z * Node =>
       if (0 <? partition_id kn.2)%Z then 0%nat else length (neighbours kn.2))
    (map_to_list (node_avl s)).

(** The number of nodes of a way of the store. *)
Definition way_length (s : OSM_objects) (street : Z) : nat :=
  match way_avl s !! street with
  | Some w => length (way_nodes w)
  | None => 0%nat
  end.

(** A number of iterations that is enough for each [while] loop of
    [breadth_first_search] over [streets]. *)
Definition labelling_fuel (s : OSM_objects) (streets : list Z) : nat :=
  (max_list_with (way_length s) streets + pending s)%nat.

(** The street [street] of the store has a highway type of the filter. *)
Definition street_in_filter (street_filter : list string) (s : OSM_objects)
    (street : Z) : bool :=
  match way_avl s !! street with
  | Some w => highway_in street_filter w
  | None => false
  end.

(** * Properties *)

Arguments Py.index : simpl never.
Arguments Py.div : simpl never.

(** ** The result monad *)

Lemma rbind_Ok {A B : Type} (m : result A) (k : A -> result B) (b : B) :
  rbind m k = Ok b -> exists a, m = Ok a /\ k a = Ok b.
Proof. destruct m as [a|e]; simpl; [eauto | discriminate]. Qed.

Lemma rbind_Raise {A B : Type} (m : result A) (k : A -> result B) (e : exn) :
  rbind m k = Raise e -> m = Raise e \/ exists a, m = Ok a /\ k a = Raise e.
Proof. destruct m as [a|e']; simpl; [eauto | intros [= ->]; auto]. Qed.

Lemma index_Ok {A : Type} (l : list A) (i : nat) (x : A) :
  Py.index l i = Ok x <-> l !! i = Some x.
Proof. unfold Py.index. destruct (l !! i); split; congruence. Qed.

Lemma index_lt {A : Type} (l : list A) (i : nat) :
  (i < length l)%nat -> exists x, Py.index l i = Ok x /\ l !! i = Some x.
Proof.
  intros H. destruct (lookup_lt_is_Some_2 l i H) as [x Hx].
  exists x. split; [by apply index_Ok | done].
Qed.

(** ** Douglas-Peucker *)

Section DouglasPeucker.

Variable GEOD_inv : float -> float -> float -> float -> option (float * float * float).
Variable utm : float -> float -> float * float.

Local Abbreviation dist := (distance_point_line GEOD_inv utm).
Local Abbreviation scan := (dp_scan GEOD_inv utm).
Local Abbreviation iter := (dp_iter GEOD_inv utm).
Local Abbreviation loop := (dp_loop GEOD_inv utm).

(** The distance kernel raises nothing but the division by a zero length. *)
Lemma div_raises (x y : float) (e : exn) :
  Py.div x y = Raise e -> e = ZeroDivisionError.
Proof. unfold Py.div. destruct (PrimFloat.eqb y 0); congruence. Qed.

Lemma distance_point_to_line_raises (a b p : Node) (e : exn) :
  distance_point_to_line GEOD_inv utm a b p = Raise e -> e = ZeroDivisionError.
Proof.
  unfold distance_point_to_line. intros H.
  apply rbind_Raise in H as [H | (seg & _ & H)].
  - destruct (negb _); [| discriminate].
    destruct (GEOD_inv _ _ _ _) as [[[? ?] len]|]; [| discriminate].
    apply rbind_Raise in H as [H | (lx & _ & H)]; [by eapply div_raises |].
    apply rbind_Raise in H as [H | (ly & _ & H)]; [by eapply div_raises | discriminate].
  - destruct seg as [lx ly]. repeat case_match; discriminate.
Qed.

Lemma distance_point_line_raises (a b p : Node) (e : exn) :
  dist a b p = Raise e -> e = ZeroDivisionError.
Proof.
  unfold distance_point_line. intros H.
  apply rbind_Raise in H as [H | (r & _ & H)]; [| discriminate].
  by eapply distance_point_to_line_raises.
Qed.

Variable way_segment : list Node.
Variable tolerance : float.

(** What the scan returns: the pair it started from, or an index of the
    range with the distance computed for it. *)
Lemma dp_scan_Ok (a f : nat) (idxs : list nat) (m : float) (far : nat)
    (m' : float) (far' : nat) :
  scan way_segment a f idxs m far = Ok (m', far') ->
  (m' = m /\ far' = far) \/
  (far' ∈ idxs /\
   exists pa pf pi, way_segment !! a = Some pa /\ way_segment !! f = Some pf /\
                    way_segment !! far' = Some pi /\
                    dist pa pf pi = Ok m').
Proof.
  revert m far. induction idxs as [|i idxs IH]; intros m far H; simpl in H.
  - injection H as <- <-. by left.
  - apply rbind_Ok in H as (pa & Ha & H).
    apply rbind_Ok in H as (pf & Hf & H).
    apply rbind_Ok in H as (pi & Hi & H).
    apply rbind_Ok in H as (d & Hd & H).
    apply index_Ok in Ha, Hf, Hi.
    destruct (PrimFloat.ltb m d).
    + apply IH in H as [[-> ->] | (Hin & Hex)].
      * right. split; [left | by exists pa, pf, pi].
      * right. split; [by right | done].
    + apply IH in H as [[-> ->] | (Hin & Hex)].
      * by left.
      * right. split; [by right | done].
Qed.

Lemma dp_scan_raises (a f : nat) (idxs : list nat) (m : float) (far : nat) (e : exn) :
  (a < length way_segment)%nat -> (f < length way_segment)%nat ->
  (forall i, i ∈ idxs -> (i < length way_segment)%nat) ->
  scan way_segment a f idxs m far = Raise e -> e = ZeroDivisionError.
Proof.
  intros Ha Hf. revert m far.
  induction idxs as [|i idxs IH]; intros m far Hidx H; simpl in H; [discriminate |].
  destruct (index_lt _ _ Ha) as (pa & Ea & _).
  destruct (index_lt _ _ Hf) as (pf & Ef & _).
  destruct (index_lt way_segment i) as (pi & Ei & _); [apply Hidx; left |].
  rewrite Ea, Ef, Ei in H. simpl in H.
  apply rbind_Raise in H as [H | (d & _ & H)]; [by eapply distance_point_line_raises |].
  destruct (PrimFloat.ltb m d); eapply IH; eauto; intros; apply Hidx; by right.
Qed.

(** When every scanned point has its distance below the tolerance, so has
    the maximum. *)
Lemma dp_scan_below (a f : nat) (pa pf : Node) (idxs : list nat) (m : float) (far : nat) :
  way_segment !! a = Some pa -> way_segment !! f = Some pf ->
  (forall i, i ∈ idxs ->
     exists pi d, way_segment !! i = Some pi /\ dist pa pf pi = Ok d /\
                  PrimFloat.ltb d tolerance = true) ->
  PrimFloat.ltb m tolerance = true ->
  exists m' far', scan way_segment a f idxs m far = Ok (m', far') /\
                  PrimFloat.ltb m' tolerance = true.
Proof.
  intros Ha Hf. revert m far.
  induction idxs as [|i idxs IH]; intros m far Hall Hm; simpl.
  - by exists m, far.
  - destruct (Hall i) as (pi & d & Hi & Hd & Hlt); [left |].
    rewrite (proj2 (index_Ok _ _ _) Ha), (proj2 (index_Ok _ _ _) Hf),
            (proj2 (index_Ok _ _ _) Hi). simpl. rewrite Hd. simpl.
    destruct (PrimFloat.ltb m d); apply IH; auto; intros; apply Hall; by right.
Qed.

Lemma stack_ok_bounds (hi lo : nat) (stk : list nat) :
  stack_ok hi lo stk ->
  (lo < hi)%nat /\ (length stk <= hi - lo)%nat /\
  exists top rest, stk = top :: rest /\ (lo < top <= hi)%nat.
Proof.
  induction 1 as [lo Hlo | lo x stk Hlo Hstk (IH1 & IH2 & top & rest & -> & IH3)].
  - repeat split; simpl; [lia.. |]. exists hi, []. split; [done | lia].
  - repeat split; simpl in *; [lia.. |]. exists x, (top :: rest). split; [done | lia].
Qed.

Lemma stack_ok_lower (hi lo lo' top : nat) (rest : list nat) :
  stack_ok hi lo (top :: rest) -> (lo' < top)%nat -> stack_ok hi lo' (top :: rest).
Proof. inversion 1; subst; intros; by constructor. Qed.

Lemma way_ok_push (a f : nat) (nw : list Node) (x : Node) :
  way_ok way_segment a nw -> (a < f)%nat -> way_segment !! f = Some x ->
  way_ok way_segment f (nw ++ [x]).
Proof.
  intros (Hsub & Hhead & Hlast) Haf Hx. repeat split.
  - rewrite (take_S_r _ _ _ Hx). apply sublist_app; [| done].
    replace (take (S a) way_segment) with (take (S a) (take f way_segment)) in Hsub
      by (rewrite take_take; f_equal; lia).
    etrans; [exact Hsub | apply sublist_take].
  - destruct nw as [|y nw]; [| done].
    simpl in Hlast. symmetry in Hlast. apply lookup_ge_None in Hlast.
    apply lookup_lt_Some in Hx. lia.
  - by rewrite last_snoc.
Qed.

(** One iteration keeps the invariant and lowers the measure, or empties
    the stack at the last index. *)
Lemma dp_iter_step (hi : nat) (st : dp_state) :
  S hi = length way_segment ->
  PrimFloat.ltb 0 tolerance = true ->
  dp_inv way_segment hi st ->
  match iter way_segment tolerance st with
  | Raise e => e = ZeroDivisionError
  | Ok st' =>
      (stack st' = [] /\ anchor st' = hi /\ way_ok way_segment hi (new_way st')) \/
      (dp_inv way_segment hi st' /\ (dp_measure way_segment st' < dp_measure way_segment st)%nat)
  end.
Proof.
  intros Hlen Htol (Hstk & Hhead & Hway).
  destruct st as [nw stk a f]; simpl in *.
  destruct (stack_ok_bounds _ _ _ Hstk) as (Hlo & Hsize & top & rest & -> & Htop).
  simpl in Hhead. injection Hhead as ->.
  unfold dp_iter; simpl.
  destruct (scan way_segment a f (py_range (a + 1) f) 0 f) as [[m far]|e] eqn:Hscan;
    simpl.
  - destruct (PrimFloat.ltb m tolerance) eqn:Hlt.
    + destruct (index_lt way_segment f) as (x & Ex & Hx); [lia |].
      rewrite Ex; simpl.
      pose proof (way_ok_push _ _ _ _ Hway (proj1 Htop) Hx) as Hway'.
      inversion Hstk as [lo Hlt' | lo y stk' Hlt' Hrest]; subst.
      * left. split; [done | split; [done | exact Hway']].
      * right. destruct (stack_ok_bounds _ _ _ Hrest) as (_ & Hsz & t & r & -> & Ht).
        split; [split; [exact Hrest | split; [done | exact Hway']] |].
        unfold dp_measure; simpl in *. lia.
    + apply dp_scan_Ok in Hscan as [[-> ->] | (Hin & _)]; [congruence |].
      apply elem_of_seq in Hin.
      assert (Hnew : stack_ok hi a (far :: f :: rest)).
      { constructor; [lia |]. eapply stack_ok_lower; [exact Hstk | lia]. }
      right. split; [split; [exact Hnew | split; [done | exact Hway]] |].
      apply stack_ok_bounds in Hnew as (_ & Hsz & _).
      unfold dp_measure; simpl in *. lia.
  - eapply dp_scan_raises; [| | | exact Hscan]; [lia | lia |].
    intros i Hi. apply elem_of_seq in Hi. lia.
Qed.

Lemma dp_loop_empty (fuel : nat) (st : dp_state) :
  stack st = [] -> loop fuel way_segment tolerance st = Some (Ok (new_way st)).
Proof. intros H. destruct fuel; simpl; by rewrite H. Qed.

(** With a positive tolerance the loop finishes within the fuel its measure
    asks for. *)
Lemma dp_loop_terminates (hi : nat) :
  S hi = length way_segment ->
  PrimFloat.ltb 0 tolerance = true ->
  forall (fuel : nat) (st : dp_state),
    dp_inv way_segment hi st -> (dp_measure way_segment st < fuel)%nat ->
    exists out, loop fuel way_segment tolerance st = Some out /\ dp_good way_segment out.
Proof.
  intros Hlen Htol. induction fuel as [|fuel IH]; intros st Hinv Hfuel; [lia |].
  pose proof (dp_iter_step hi st Hlen Htol Hinv) as Hstep.
  destruct Hinv as (Hstk & _).
  destruct (stack_ok_bounds _ _ _ Hstk) as (_ & _ & top & rest & Estk & _).
  simpl. rewrite Estk.
  destruct (iter way_segment tolerance st) as [st'|e].
  - destruct Hstep as [(Hempty & Hanchor & (Hsub & Hhead & Hlast)) | (Hinv' & Hlt)].
    + exists (Ok (new_way st')). split.
      * by apply dp_loop_empty.
      * simpl. repeat split; [| done |].
        -- rewrite take_ge in Hsub by lia. done.
        -- rewrite Hlast, last_lookup, <- Hlen. done.
    + apply IH; [done | lia].
  - exists (Raise e). by split.
Qed.

(** C1 (as amended): for every way segment of at least two nodes and every
    tolerance greater than zero, [douglas_peucker] terminates within twice
    the segment's length in iterations; it propagates nothing but the
    [ZeroDivisionError] of the distance kernel, and the list it returns is an
    ordered subsequence of the input that starts with the segment's first
    node and ends with its last node. *)
Theorem douglas_peucker_terminates :
  (2 <= length way_segment)%nat ->
  PrimFloat.ltb 0 tolerance = true ->
  exists out,
    douglas_peucker GEOD_inv utm way_segment tolerance = Some out /\
    match out with
    | Ok r => r `sublist_of` way_segment /\
              head r = head way_segment /\ last r = last way_segment
    | Raise e => e = ZeroDivisionError
    end.
Proof.
  intros Hlen Htol.
  assert (H : exists out, douglas_peucker GEOD_inv utm way_segment tolerance = Some out
                          /\ dp_good way_segment out); [| exact H].
  unfold douglas_peucker, douglas_peucker_fuel.
  destruct way_segment as [|first rest] eqn:E; [simpl in Hlen; lia |].
  rewrite <- E in *.
  apply (dp_loop_terminates (length way_segment - 1)); [lia | done | |].
  - repeat split; simpl.
    + constructor. lia.
    + rewrite E. simpl. constructor. apply sublist_nil_l.
    + by rewrite E.
    + by rewrite E.
  - unfold dp_measure; simpl. lia.
Qed.

(** C6 (as amended): for every way segment of at least two nodes, if the
    tolerance is positive and strictly greater than the deviation
    [distance_point_line] computes for every interior point from the chord
    between the first and the last node, [douglas_peucker] returns exactly
    the two-element list [[first, last]]. *)
Theorem douglas_peucker_above_max_deviation (first final : Node) :
  (2 <= length way_segment)%nat ->
  head way_segment = Some first ->
  last way_segment = Some final ->
  PrimFloat.ltb 0 tolerance = true ->
  (forall (i : nat) (p : Node),
      (0 < i < length way_segment - 1)%nat -> way_segment !! i = Some p ->
      exists d, distance_point_line GEOD_inv utm first final p = Ok d /\
                PrimFloat.ltb d tolerance = true) ->
  douglas_peucker GEOD_inv utm way_segment tolerance = Some (Ok [first; final]).
Proof.
  intros Hlen Hfirst Hfinal Htol Hall.
  unfold douglas_peucker, douglas_peucker_fuel.
  rewrite head_lookup in Hfirst. rewrite last_lookup in Hfinal.
  destruct way_segment as [|x rest] eqn:E; [simpl in Hlen; lia |].
  rewrite <- E in *.
  assert (x = first) as -> by (rewrite E in Hfirst; simpl in Hfirst; congruence).
  replace (pred (length way_segment)) with (length way_segment - 1)%nat in Hfinal by lia.
  destruct (length way_segment) as [|[|n]] eqn:En; [lia | lia |].
  replace (2 * S (S n))%nat with (S (2 * n + 3)) by lia.
  cbn [dp_loop stack]. unfold dp_iter. cbn [anchor floater stack new_way].
  destruct (dp_scan_below 0 (S (S n) - 1) first final
              (py_range (0 + 1) (S (S n) - 1)) 0 (S (S n) - 1) Hfirst Hfinal)
    as (m & far & -> & Hm); [| done |].
  - intros i Hi. apply elem_of_seq in Hi.
    destruct (lookup_lt_is_Some_2 way_segment i) as [p Hp]; [lia |].
    destruct (Hall i p) as (d & Hd & Hlt); [lia | done |]. by exists p, d.
  - simpl rbind. rewrite Hm.
    replace (S (S n) - 1)%nat with (S n) in Hfinal by lia.
    rewrite (proj2 (index_Ok _ _ _) Hfinal). simpl.
    by apply dp_loop_empty.
Qed.

(** With tolerance zero the loop on a two-node segment pushes the floater
    for ever: no amount of fuel lets it finish. *)
Lemma dp_loop_zero_tolerance (a b : Node) (fuel : nat) (nw : list Node)
    (stk : list nat) :
  loop fuel [a; b] 0 (mkDP nw (1%nat :: stk) 0 1) = None.
Proof.
  revert stk. induction fuel as [|fuel IH]; intros stk; [done |].
  cbn [dp_loop stack]. unfold dp_iter.
  cbn [anchor floater stack new_way py_range]. simpl.
  change (PrimFloat.ltb 0 0) with false. cbv iota. apply IH.
Qed.

End DouglasPeucker.

Lemma douglas_peucker_terminates_witness :
  (2 <= length [Fixtures.n0; Fixtures.n1; Fixtures.n2])%nat /\
  PrimFloat.ltb 0 4 = true /\
  exists out,
    douglas_peucker Planar.inv Planar.utm [Fixtures.n0; Fixtures.n1; Fixtures.n2] 4
      = Some out /\
    match out with
    | Ok r => r `sublist_of` [Fixtures.n0; Fixtures.n1; Fixtures.n2] /\
              head r = head [Fixtures.n0; Fixtures.n1; Fixtures.n2] /\
              last r = last [Fixtures.n0; Fixtures.n1; Fixtures.n2]
    | Raise e => e = ZeroDivisionError
    end.
Proof.
  split; [simpl; lia |]. split; [reflexivity |].
  apply douglas_peucker_terminates; [simpl; lia | reflexivity].
Defined.

(** C1 as stated fails at tolerance 0: on the two-node segment [[n0, n2]] no
    number of iterations lets the loop of [douglas_peucker] finish. *)
Lemma douglas_peucker_zero_tolerance_diverges :
  ~ exists fuel out,
      douglas_peucker_fuel Planar.inv Planar.utm fuel [Fixtures.n0; Fixtures.n2] 0
        = Some out.
Proof.
  intros (fuel & out & H). unfold douglas_peucker_fuel in H. simpl length in H.
  change (2 - 1)%nat with 1%nat in H.
  rewrite dp_loop_zero_tolerance in H. discriminate.
Qed.

Lemma douglas_peucker_above_max_deviation_witness :
  distance_point_line Planar.inv Planar.utm Fixtures.n0 Fixtures.n2 Fixtures.n1 = Ok 4%float /\
  PrimFloat.ltb 4 5 = true /\
  douglas_peucker Planar.inv Planar.utm [Fixtures.n0; Fixtures.n1; Fixtures.n2] 5
    = Some (Ok [Fixtures.n0; Fixtures.n2]).
Proof.
  split; [vm_compute; reflexivity |]. split; [reflexivity |].
  apply douglas_peucker_above_max_deviation;
    [simpl; lia | reflexivity | reflexivity | reflexivity |].
  intros [|[|i]] p Hi Hp; simpl in Hi; [lia | | lia].
  injection Hp as <-. exists 4%float. split; vm_compute; reflexivity.
Defined.

(** C6 as stated fails when the tolerance equals the maximum deviation: the
    interior node [n1] lies exactly 4 m off the chord from [n0] to [n2], and
    with tolerance 4 all three nodes are kept. *)
Lemma douglas_peucker_keeps_point_at_tolerance :
  distance_point_line Planar.inv Planar.utm Fixtures.n0 Fixtures.n2 Fixtures.n1 = Ok 4%float /\
  PrimFloat.leb 4 4 = true /\
  douglas_peucker Planar.inv Planar.utm [Fixtures.n0; Fixtures.n1; Fixtures.n2] 4
    = Some (Ok [Fixtures.n0; Fixtures.n1; Fixtures.n2]).
Proof. repeat split; vm_compute; reflexivity. Qed.

(** ** Distances between points *)

(** C2 (the code at the failing input): when [Geod.inv] raises its
    [ValueError], the handler of [distance_points] unpacks the float [0.0]
    into three names, so the call raises [TypeError] instead of returning
    [(0, 0, 0)]. *)
Theorem distance_points_handler_raises
    (GEOD_inv : float -> float -> float -> float -> option (float * float * float))
    (point1 point2 : Node) :
  GEOD_inv (lon point1) (lat point1) (lon point2) (lat point2) = None ->
  distance_points GEOD_inv point1 point2 = Raise TypeError.
Proof. intros H. unfold distance_points. by rewrite H. Qed.

Lemma distance_points_handler_raises_witness :
  Planar.inv_strict (lon Fixtures.near_a) (lat Fixtures.near_a)
                    (lon Fixtures.near_b) (lat Fixtures.near_b) = None /\
  distance_points Planar.inv_strict Fixtures.near_a Fixtures.near_b = Raise TypeError.
Proof.
  split; [vm_compute; reflexivity |].
  apply distance_points_handler_raises. vm_compute; reflexivity.
Defined.

(** C3 (the code at the failing input): the latitude of the second point
    never enters [have_same_coords].  The POI at the origin and the street
    node 3 m to its north share their longitude, so they compare as having
    the same coordinates, and [connect_poi] connects the POI directly to that
    node by the new way [-1]. *)
Theorem have_same_coords_ignores_latitude :
  (forall (p1 p2 : Node) (l : float),
      have_same_coords (Some p1) (Some p2)
      = have_same_coords (Some p1)
          (Some (mkNode (node_id p2) (lon p2) l (node_tags p2) (node_attr p2)
                        (neighbours p2) (partition_id p2) (filtered p2) (poi p2)))) /\
  PrimFloat.leb (PrimFloat.abs (PrimFloat.sub (lat Fixtures.poi0) 3)) TOLERANCE = false /\
  have_same_coords (Some Fixtures.poi0) (Some (Fixtures.node 2 0 3)) = true /\
  (let r := connect_poi_node Planar.inv Planar.fwd Planar.utm Planar.round7 10 0 0 1
              Fixtures.same_lon_store in
   fst r = Ok tt /\
   nodeIDs <$> way_avl (snd r) !! (-1) = Some [1; 2] /\
   keys (way_avl (snd r)) = [-1; 10] /\
   poi <$> node_avl (snd r) !! 1 = Some POI_CONNECTED).
Proof.
  split; [reflexivity |]. repeat split; vm_compute; reflexivity.
Qed.

(** ** Connecting by projection *)

(** C9: with a street that is not [None] and a mode of length one,
    [connect_by_projection] calls [connect_by_node] with two arguments for
    its three parameters: the call raises [TypeError], nothing is returned,
    and the store is left as it was (no way and no node is added). *)
Theorem connect_by_projection_single_mode_raises
    (GEOD_inv : float -> float -> float -> float -> option (float * float * float))
    (GEOD_fwd : float -> float -> float -> float -> float * float * float)
    (round7 : float -> float)
    (node street : Z) (mode : distance_mode) (s : OSM_objects) :
  mode_len mode = 1%nat ->
  connect_by_projection GEOD_inv GEOD_fwd round7 node (Some street) (Some mode) s
  = (Raise TypeError, s).
Proof. destruct mode; [reflexivity | discriminate]. Qed.

Lemma connect_by_projection_single_mode_raises_witness :
  mode_len (ModeNode (Fixtures.node 2 (-3) 4)) = 1%nat /\
  connect_by_projection Planar.inv Planar.fwd Planar.round7 1 (Some 10)
    (Some (ModeNode (Fixtures.node 2 (-3) 4))) Fixtures.address_store
  = (Raise TypeError, Fixtures.address_store).
Proof.
  split; [reflexivity |].
  apply connect_by_projection_single_mode_raises. reflexivity.
Defined.

(** ** Buildings *)

Lemma is_area_open (way : Way) (a b : Z) :
  head (nodeIDs way) = Some a -> last (nodeIDs way) = Some b -> a <> b ->
  is_area way = Ok false.
Proof.
  intros Ha Hb Hne. unfold is_area, Py.first, Py.final. rewrite Ha, Hb. simpl.
  by rewrite bool_decide_eq_false_2.
Qed.

(** C10: for a way whose first and last node ids differ, [is_inside_polygon]
    returns [False] for every node without raising, and [connect_by_building]
    with that way as the building returns [False] and leaves the store as it
    was. *)
Theorem open_way_never_contains
    (GEOD_inv : float -> float -> float -> float -> option (float * float * float))
    (GEOD_fwd : float -> float -> float -> float -> float * float * float)
    (utm : float -> float -> float * float)
    (round7 : float -> float)
    (s : OSM_objects) (way : Way) (a b : Z) :
  head (nodeIDs way) = Some a -> last (nodeIDs way) = Some b -> a <> b ->
  (forall node : Node, is_inside_polygon utm s node way = Ok false) /\
  (forall (poi_node building : Z) (streets : list Z)
          (projection_threshold address_threshold : Z),
      way_avl s !! building = Some way ->
      connect_by_building GEOD_inv GEOD_fwd utm round7 poi_node (Some building)
        streets projection_threshold address_threshold s
      = (Ok None, s)).
Proof.
  intros Ha Hb Hne. pose proof (is_area_open way a b Ha Hb Hne) as Harea. split.
  - intros node. unfold is_inside_polygon. by rewrite Harea.
  - intros poi_node building streets pt at' Hway.
    unfold connect_by_building, sbind, read_way, deref_way.
    rewrite Hway. simpl. by rewrite Harea.
Qed.

Lemma open_way_never_contains_witness :
  exists way,
    way_avl Fixtures.address_store !! 10 = Some way /\
    head (nodeIDs way) = Some 2 /\ last (nodeIDs way) = Some 3 /\
    is_inside_polygon Planar.utm Fixtures.address_store Fixtures.poi0 way = Ok false /\
    connect_by_building Planar.inv Planar.fwd Planar.utm Planar.round7 1 (Some 10)
      [10; 11] 5 8 Fixtures.address_store
    = (Ok None, Fixtures.address_store).
Proof.
  destruct (way_avl Fixtures.address_store !! 10) as [way|] eqn:E;
    [| vm_compute in E; discriminate].
  exists way.
  assert (Hh : head (nodeIDs way) = Some 2).
  { vm_compute in E. injection E as <-. reflexivity. }
  assert (Hl : last (nodeIDs way) = Some 3).
  { vm_compute in E. injection E as <-. reflexivity. }
  destruct (open_way_never_contains Planar.inv Planar.fwd Planar.utm Planar.round7
              Fixtures.address_store way 2 3 Hh Hl ltac:(lia)) as [H1 H2].
  split; [reflexivity |]. split; [exact Hh |]. split; [exact Hl |].
  split; [apply H1 | by apply H2].
Defined.

(** ** Allocation of new ids *)

Lemma foldl_min_spec (l : list Z) (x : Z) :
  foldl Z.min x l <= x /\ (forall y, y ∈ l -> foldl Z.min x l <= y) /\
  (foldl Z.min x l = x \/ foldl Z.min x l ∈ l).
Proof.
  revert x. induction l as [|z l IH]; intros x; simpl.
  - split; [lia |]. split; [| by left]. intros y Hy. by apply elem_of_nil in Hy.
  - destruct (IH (Z.min x z)) as (H1 & H2 & H3). split; [lia |]. split.
    + intros y Hy. apply elem_of_cons in Hy as [-> | Hy]; [lia | by apply H2].
    + destruct H3 as [H3 | H3]; [| right; by right].
      rewrite H3.
      destruct (Z.min_spec x z) as [[_ E] | [_ E]]; rewrite E; [by left | right; by left].
Qed.

Lemma foldl_max_in (l : list Z) (x : Z) :
  foldl Z.max x l = x \/ foldl Z.max x l ∈ l.
Proof.
  revert x. induction l as [|z l IH]; intros x; simpl; [by left |].
  destruct (IH (Z.max x z)) as [H | H]; [| right; by right].
  rewrite H.
  destruct (Z.max_spec x z) as [[_ E] | [_ E]]; rewrite E; [right; by left | by left].
Qed.

Lemma list_min_Ok (l : list Z) (m : Z) :
  list_min l = Ok m -> m ∈ l /\ forall y, y ∈ l -> m <= y.
Proof.
  destruct l as [|x l]; simpl; [discriminate |]. intros [= <-].
  destruct (foldl_min_spec l x) as (H1 & H2 & H3). split.
  - destruct H3 as [-> | H3]; [by left | by right].
  - intros y Hy. apply elem_of_cons in Hy as [-> | Hy]; [done | by apply H2].
Qed.

Lemma list_max_Ok (l : list Z) (m : Z) : list_max l = Ok m -> m ∈ l.
Proof.
  destruct l as [|x l]; simpl; [discriminate |]. intros [= <-].
  destruct (foldl_max_in l x) as [-> | H]; [by left | by right].
Qed.

Lemma elem_of_keys {A : Type} (t : gmap Z A) (k : Z) :
  k ∈ keys t <-> is_Some (t !! k).
Proof.
  unfold keys. rewrite list_elem_of_fmap. split.
  - intros ([k' x] & -> & Hin). apply elem_of_map_to_list in Hin. by exists x.
  - intros [x Hx]. exists (k, x). split; [done | by apply elem_of_map_to_list].
Qed.

Lemma keys_nonempty {A : Type} (t : gmap Z A) (k : Z) :
  is_Some (t !! k) -> exists x l, keys t = x :: l.
Proof.
  intros H. apply elem_of_keys in H. destruct (keys t) as [|x l]; [| by eauto].
  by apply elem_of_nil in H.
Qed.

Lemma min_key_Ok {A : Type} (t : gmap Z A) (m : Z) :
  min_key t = Ok m -> is_Some (t !! m) /\ forall k, is_Some (t !! k) -> m <= k.
Proof.
  intros H. apply list_min_Ok in H as [H1 H2]. split; [by apply elem_of_keys |].
  intros k Hk. by apply H2, elem_of_keys.
Qed.

Lemma max_key_Ok {A : Type} (t : gmap Z A) (m : Z) :
  max_key t = Ok m -> is_Some (t !! m).
Proof. intros H. by apply elem_of_keys, list_max_Ok. Qed.

Lemma min_key_total {A : Type} (t : gmap Z A) (k : Z) :
  is_Some (t !! k) -> exists m, min_key t = Ok m.
Proof.
  intros H. destruct (keys_nonempty t k H) as (x & l & E).
  unfold min_key. rewrite E. simpl. eauto.
Qed.

Lemma max_key_total {A : Type} (t : gmap Z A) (k : Z) :
  is_Some (t !! k) -> exists m, max_key t = Ok m.
Proof.
  intros H. destruct (keys_nonempty t k H) as (x & l & E).
  unfold max_key. rewrite E. simpl. eauto.
Qed.

(** A key that [find_new_key] returns lies below the minimum id in use. *)
Lemma find_new_key_Ok (s : OSM_objects) (k : Z) :
  find_new_key s = Ok k -> exists m, is_min_id s m /\ k = key_below m.
Proof.
  unfold find_new_key. intros H.
  apply rbind_Ok in H as (ks & Hks & H).
  apply rbind_Ok in H as (m & Hm & H).
  exists m. split; [| unfold key_below; destruct (0 <=? m)%Z; congruence].
  apply list_min_Ok in Hm as [Hin Hle].
  destruct (bool_decide (relations s = ∅)) eqn:Hrel.
  - apply bool_decide_eq_true_1 in Hrel.
    apply rbind_Ok in Hks as (nmin & Hnmin & Hks).
    apply rbind_Ok in Hks as (nmax & Hnmax & Hks).
    apply rbind_Ok in Hks as (wmin & Hwmin & Hks).
    apply rbind_Ok in Hks as (wmax & Hwmax & Hks).
    injection Hks as <-.
    apply min_key_Ok in Hnmin as [Hn1 Hn2]. apply min_key_Ok in Hwmin as [Hw1 Hw2].
    apply max_key_Ok in Hnmax. apply max_key_Ok in Hwmax.
    split.
    + unfold has_id.
      repeat (apply elem_of_cons in Hin as [-> | Hin]);
        [by left | by left | right; by left | right; by left |
         by apply elem_of_nil in Hin].
    + intros i [Hi | [Hi | Hi]].
      * etrans; [apply (Hle nmin); by left | by apply Hn2].
      * etrans; [apply (Hle wmin); do 2 right; by left | by apply Hw2].
      * rewrite Hrel in Hi. by apply lookup_empty_is_Some in Hi.
  - apply rbind_Ok in Hks as (nmin & Hnmin & Hks).
    apply rbind_Ok in Hks as (nmax & Hnmax & Hks).
    apply rbind_Ok in Hks as (wmin & Hwmin & Hks).
    apply rbind_Ok in Hks as (wmax & Hwmax & Hks).
    apply rbind_Ok in Hks as (rmin & Hrmin & Hks).
    apply rbind_Ok in Hks as (rmax & Hrmax & Hks).
    injection Hks as <-.
    apply min_key_Ok in Hnmin as [Hn1 Hn2]. apply min_key_Ok in Hwmin as [Hw1 Hw2].
    apply min_key_Ok in Hrmin as [Hr1 Hr2].
    apply max_key_Ok in Hnmax. apply max_key_Ok in Hwmax. apply max_key_Ok in Hrmax.
    split.
    + unfold has_id.
      repeat (apply elem_of_cons in Hin as [-> | Hin]);
        [by left | by left | right; by left | right; by left |
         right; by right | right; by right | by apply elem_of_nil in Hin].
    + intros i [Hi | [Hi | Hi]].
      * etrans; [apply (Hle nmin); by left | by apply Hn2].
      * etrans; [apply (Hle wmin); do 2 right; by left | by apply Hw2].
      * etrans; [apply (Hle rmin); do 4 right; by left | by apply Hr2].
Qed.

(** With a node and a way in the store, [find_new_key] returns. *)
Lemma find_new_key_total (s : OSM_objects) (n w : Z) :
  is_Some (node_avl s !! n) -> is_Some (way_avl s !! w) ->
  exists k, find_new_key s = Ok k.
Proof.
  intros Hn Hw. unfold find_new_key.
  destruct (min_key_total _ _ Hn) as (nmin & ->).
  destruct (max_key_total _ _ Hn) as (nmax & ->).
  destruct (min_key_total _ _ Hw) as (wmin & ->).
  destruct (max_key_total _ _ Hw) as (wmax & ->).
  destruct (bool_decide (relations s = ∅)) eqn:Hrel; simpl.
  - destruct (0 <=? _)%Z; eauto.
  - apply bool_decide_eq_false_1 in Hrel.
    apply map_choose in Hrel as (r & x & Hr).
    destruct (min_key_total (relations s) r) as (rmin & ->); [by exists x |].
    destruct (max_key_total (relations s) r) as (rmax & ->); [by exists x |].
    simpl. destruct (0 <=? _)%Z; eauto.
Qed.

Lemma key_below_lt (m : Z) : key_below m < m /\ key_below m < 0.
Proof. unfold key_below. destruct (0 <=? m)%Z eqn:E; lia. Qed.

Lemma find_new_key_fresh (s : OSM_objects) (k : Z) :
  find_new_key s = Ok k -> ~ has_id s k.
Proof.
  intros H Hid. apply find_new_key_Ok in H as (m & [_ Hmin] & ->).
  apply Hmin in Hid. pose proof (key_below_lt m). lia.
Qed.

(** Once the new key is itself in use, the next key is one below it. *)
Lemma find_new_key_next (s s1 : OSM_objects) (k n w : Z) :
  find_new_key s = Ok k ->
  (forall i, has_id s1 i <-> has_id s i \/ i = k) ->
  is_Some (node_avl s1 !! n) -> is_Some (way_avl s1 !! w) ->
  find_new_key s1 = Ok (k - 1).
Proof.
  intros Hk Hids Hn Hw.
  destruct (find_new_key_total s1 n w Hn Hw) as (k1 & Hk1). rewrite Hk1. f_equal.
  apply find_new_key_Ok in Hk as (m & [_ Hmin] & ->).
  apply find_new_key_Ok in Hk1 as (m1 & [Hm1 Hmin1] & ->).
  pose proof (key_below_lt m) as [Hlt Hneg].
  assert (m1 = key_below m) as ->.
  { apply Hids in Hm1 as [Hm1 | Hm1]; [| done].
    apply Hmin in Hm1. assert (m1 <= key_below m); [| lia].
    apply Hmin1, Hids. by right. }
  unfold key_below at 1. destruct (0 <=? key_below m)%Z eqn:E; lia.
Qed.

(** ** What building a way leaves untouched *)

Lemma same_labels_refl (s : OSM_objects) : same_labels s s.
Proof. by repeat split. Qed.

Lemma same_labels_trans (s1 s2 s3 : OSM_objects) :
  same_labels s1 s2 -> same_labels s2 s3 -> same_labels s1 s3.
Proof.
  intros (W1 & R1 & N1) (W2 & R2 & N2). repeat split; [congruence | congruence |].
  intros j. by rewrite N2, N1.
Qed.

Lemma update_node_labels (i x : Z) (s : OSM_objects) :
  same_labels s (update_node i (append_neighbour x) s).
Proof.
  repeat split. intros j. simpl.
  destruct (decide (i = j)) as [-> | Hne].
  - rewrite lookup_alter_eq. by destruct (node_avl s !! j).
  - by rewrite lookup_alter_ne.
Qed.

Lemma way_init_loop_labels (nodes : list Z) (is_street : bool) (st : way_init_state)
    (s : OSM_objects) :
  same_labels s (snd (way_init_loop nodes is_street st s)).
Proof.
  revert st s. induction nodes as [|node_id nodes IH]; intros st s; simpl.
  - apply same_labels_refl.
  - unfold read_node, deref_node.
    destruct (node_avl s !! node_id) as [osm_node|]; simpl; [| apply same_labels_refl].
    destruct (wi_last_node st) as [last_node|]; [destruct is_street |]; simpl.
    + eapply same_labels_trans; [| apply IH].
      eapply same_labels_trans; apply update_node_labels.
    + apply IH.
    + apply IH.
Qed.

Lemma Way_init_labels (osm_id : Z) (nodes : list Z) (tags attr : gmap string string)
    (s : OSM_objects) :
  same_labels s (snd (Way_init osm_id nodes tags attr s)).
Proof.
  unfold Way_init. simpl.
  pose proof (way_init_loop_labels nodes (bool_decide (is_Some (tags !! "highway"%string)))
                (mkWayInit Py.inf Py.inf Py.neg_inf Py.neg_inf [] None) s) as H.
  by destruct (way_init_loop _ _ _ s) as [[st|e] s1].
Qed.

Lemma same_labels_has_node (s s' : OSM_objects) (j : Z) :
  same_labels s s' -> (is_Some (node_avl s' !! j) <-> is_Some (node_avl s !! j)).
Proof.
  intros (_ & _ & N). specialize (N j).
  rewrite <- (fmap_is_Some partition_id (node_avl s' !! j)), N.
  apply fmap_is_Some.
Qed.

(** The way built from two nodes of the store. *)
Lemma Way_init_two (osm_id a b : Z) (tags attr : gmap string string)
    (s : OSM_objects) (na nb : Node) :
  node_avl s !! a = Some na -> node_avl s !! b = Some nb ->
  exists way,
    fst (Way_init osm_id [a; b] tags attr s) = Ok way /\
    nodeIDs way = [a; b] /\ way_nodes way = [a; b] /\ way_tags way = tags /\
    way_partition_id way = 0.
Proof.
  intros Ha Hb. unfold Way_init. simpl. unfold read_node, deref_node.
  rewrite Ha. simpl.
  destruct (bool_decide (is_Some (tags !! "highway"%string))); simpl;
    rewrite Hb; simpl; eexists; by repeat split.
Qed.

(** What a successful [append_new_street] does to the store. *)
Lemma append_new_street_Ok (tags : gmap string string) (nodes : list Z)
    (attr : gmap string string) (s s1 : OSM_objects) (k : Z) :
  append_new_street tags nodes attr s = (Ok k, s1) ->
  find_new_key s = Ok k /\
  exists way s0,
    Way_init k nodes tags (Py.setdefault "version" "1" attr) s = (Ok way, s0) /\
    same_labels s s0 /\
    way_avl s1 = <[k := way]> (way_avl s0) /\
    node_avl s1 = node_avl s0 /\ relations s1 = relations s0.
Proof.
  unfold append_new_street. unfold sbind at 1.
  destruct (find_new_key s) as [k'|e]; [| discriminate].
  unfold sbind at 1.
  pose proof (Way_init_labels k' nodes tags (Py.setdefault "version" "1" attr) s) as Hl.
  destruct (Way_init k' nodes tags _ s) as [[way|e] s0] eqn:E; [| discriminate].
  simpl. intros [= <- <-]. split; [done |]. exists way, s0.
  split; [exact E |]. split; [exact Hl |]. by repeat split.
Qed.

Lemma insert_new_node_Ok (lat lon : float) (tags attr : gmap string string)
    (s : OSM_objects) (k : Z) :
  find_new_key s = Ok k ->
  exists nd,
    insert_new_node lat lon tags attr s
    = (Ok k, with_node_avl (<[k := nd]> (node_avl s)) s).
Proof. intros H. unfold insert_new_node, sbind. rewrite H. simpl. eauto. Qed.

(** C8: for a store with at least one node and one way, [find_new_key]
    returns [-1] when the minimum [m] over all node, way and relation ids is
    not negative and [m - 1] otherwise; the returned id is not in use; and
    after [insert_new_node] or [append_new_street] has allocated it, the next
    id [find_new_key] returns is smaller by one. *)
Theorem find_new_key_allocates (s : OSM_objects) :
  node_avl s <> ∅ -> way_avl s <> ∅ ->
  exists m k,
    is_min_id s m /\
    find_new_key s = Ok k /\
    k = (if (0 <=? m)%Z then -1 else m - 1) /\
    ~ has_id s k /\
    (forall (lat lon : float) (tags attr : gmap string string),
        exists s1, insert_new_node lat lon tags attr s = (Ok k, s1) /\
                   find_new_key s1 = Ok (k - 1)) /\
    (forall (tags : gmap string string) (nodes : list Z) (attr : gmap string string)
            (k1 : Z) (s1 : OSM_objects),
        append_new_street tags nodes attr s = (Ok k1, s1) ->
        k1 = k /\ find_new_key s1 = Ok (k - 1)).
Proof.
  intros Hn Hw.
  apply map_choose in Hn as (n & xn & Hn). apply map_choose in Hw as (w & xw & Hw).
  destruct (find_new_key_total s n w) as (k & Hk); [by eexists | by eexists |].
  destruct (find_new_key_Ok s k Hk) as (m & Hmin & Ek).
  exists m, k. split; [done |]. split; [done |]. split; [done |].
  split; [by apply find_new_key_fresh |]. split.
  - intros lat lon tags attr.
    destruct (insert_new_node_Ok lat lon tags attr s k Hk) as (nd & ->).
    eexists. split; [done |].
    apply (find_new_key_next s _ k k w Hk); simpl.
    + intros i. unfold has_id; simpl. rewrite lookup_insert_is_Some'.
      assert (k = i <-> i = k) as -> by (split; congruence). tauto.
    + rewrite lookup_insert_eq. by eexists.
    + by eexists.
  - intros tags nodes attr k1 s1 H.
    apply append_new_street_Ok in H
      as (Hk1 & way & s0 & _ & (W0 & R0 & N0) & W1 & N1 & R1).
    assert (k1 = k) as -> by congruence. split; [done |].
    apply (find_new_key_next s s1 k n k Hk).
    + intros i. unfold has_id. rewrite W1, N1, R1, W0, R0.
      rewrite lookup_insert_is_Some'.
      rewrite (same_labels_has_node s s0 i) by by repeat split.
      assert (k = i <-> i = k) as -> by (split; congruence). tauto.
    + rewrite N1. apply (same_labels_has_node s s0 n); [by repeat split | by eexists].
    + rewrite W1, lookup_insert_eq. by eexists.
Qed.

Lemma find_new_key_allocates_witness :
  node_avl Fixtures.address_store <> ∅ /\
  way_avl Fixtures.address_store <> ∅ /\
  exists m k,
    is_min_id Fixtures.address_store m /\
    find_new_key Fixtures.address_store = Ok k /\
    k = (if (0 <=? m)%Z then -1 else m - 1) /\
    ~ has_id Fixtures.address_store k /\
    (forall (lat lon : float) (tags attr : gmap string string),
        exists s1, insert_new_node lat lon tags attr Fixtures.address_store = (Ok k, s1) /\
                   find_new_key s1 = Ok (k - 1)) /\
    (forall (tags : gmap string string) (nodes : list Z) (attr : gmap string string)
            (k1 : Z) (s1 : OSM_objects),
        append_new_street tags nodes attr Fixtures.address_store = (Ok k1, s1) ->
        k1 = k /\ find_new_key s1 = Ok (k - 1)).
Proof.
  assert (Hn : node_avl Fixtures.address_store <> ∅).
  { intros E. apply (f_equal (fun t => t !! 1)) in E. vm_compute in E. discriminate. }
  assert (Hw : way_avl Fixtures.address_store <> ∅).
  { intros E. apply (f_equal (fun t => t !! 10)) in E. vm_compute in E. discriminate. }
  split; [exact Hn |]. split; [exact Hw |].
  exact (find_new_key_allocates Fixtures.address_store Hn Hw).
Defined.

(** ** Connecting two nodes *)

(** C4 (as amended): after every successful call
    [connect_by_node(osm_object, a, b)] a new way tagged [highway=footway]
    exists in the store whose node list is exactly [[a, b]]; [b] keeps its
    partition id; when [a] had no positive partition id it takes the
    partition id of [b], so that both share it, and otherwise [a] keeps its
    own positive partition id, which is also the one the new way takes. *)
Theorem connect_by_node_effect (s s' : OSM_objects) (a b w : Z) (na nb : Node) :
  node_avl s !! a = Some na -> node_id na = a ->
  node_avl s !! b = Some nb -> node_id nb = b ->
  connect_by_node a b s = (Ok w, s') ->
  let label := if (0 <? partition_id na)%Z then partition_id na else partition_id nb in
  way_avl s !! w = None /\
  (exists way,
      way_avl s' !! w = Some way /\
      nodeIDs way = [a; b] /\ way_nodes way = [a; b] /\
      way_tags way = {[ "highway"%string := "footway"%string ]} /\
      way_partition_id way = label) /\
  partition_id <$> node_avl s' !! a = Some label /\
  partition_id <$> node_avl s' !! b = Some (partition_id nb).
Proof.
  intros Ha Ida Hb Idb Hcall label.
  unfold connect_by_node in Hcall.
  unfold sbind at 1, read_node at 1, deref_node in Hcall. rewrite Ha in Hcall.
  unfold sbind at 1, read_node at 1, deref_node in Hcall. rewrite Hb in Hcall.
  rewrite Ida, Idb in Hcall. unfold sbind at 1 in Hcall.
  destruct (append_new_street _ [a; b] _ s) as [[k|e] s2] eqn:Happ; [| discriminate].
  apply append_new_street_Ok in Happ
    as (Hk & way & s0 & Hinit & (W0 & R0 & N0) & W2 & N2 & R2).
  destruct (Way_init_two k a b {[ "highway"%string := "footway"%string ]}
              (Py.setdefault "version" "1" {[ "visible"%string := "true"%string ]})
              s na nb Ha Hb) as (way' & Hway' & Hids & Hobjs & Htags & Hpid).
  rewrite Hinit in Hway'. simpl in Hway'. injection Hway' as <-.
  assert (Hlab : forall j, partition_id <$> node_avl s2 !! j
                           = partition_id <$> node_avl s !! j).
  { intros j. by rewrite N2, N0. }
  pose proof (Hlab a) as Ha2. rewrite Ha in Ha2. simpl in Ha2.
  apply fmap_Some in Ha2 as (na2 & Ha2 & Epa).
  pose proof (Hlab b) as Hb2. rewrite Hb in Hb2. simpl in Hb2.
  apply fmap_Some in Hb2 as (nb2 & Hb2 & Epb).
  unfold sbind at 1, read_node at 1, deref_node in Hcall. rewrite Ha2 in Hcall.
  assert (Hfresh : way_avl s !! k = None).
  { apply eq_None_not_Some. intros Hsome.
    apply (find_new_key_fresh s k Hk). right. by left. }
  subst label. rewrite Epa.
  destruct (0 <? partition_id na2)%Z.
  - simpl in Hcall. injection Hcall as <- <-. simpl.
    split; [done |]. split.
    + exists (set_way_partition_id (partition_id na2) way).
      rewrite W2, lookup_alter_eq, lookup_insert_eq. by repeat split.
    + rewrite Ha2, Hb2. simpl. by rewrite Epb.
  - unfold sbind at 1, read_node at 1, deref_node in Hcall. simpl in Hcall.
    rewrite Hb2 in Hcall. simpl in Hcall. injection Hcall as <- <-. simpl.
    split; [done |]. split.
    + exists (set_way_partition_id (partition_id nb2) way).
      rewrite W2, lookup_alter_eq, lookup_insert_eq. simpl. by rewrite Epb.
    + rewrite lookup_alter_eq, Ha2. simpl. split; [by rewrite Epb |].
      destruct (decide (a = b)) as [-> | Hne].
      * rewrite lookup_alter_eq, Hb2. simpl. by rewrite Epb.
      * rewrite lookup_alter_ne, Hb2 by done. simpl. by rewrite Epb.
Qed.

Lemma connect_by_node_effect_witness :
  exists na nb,
    node_avl Fixtures.two_partitions_store !! 3 = Some na /\
    node_avl Fixtures.two_partitions_store !! 1 = Some nb /\
    let s' := snd (connect_by_node 3 1 Fixtures.two_partitions_store) in
    let label := if (0 <? partition_id na)%Z then partition_id na else partition_id nb in
    way_avl Fixtures.two_partitions_store !! (-1) = None /\
    (exists way,
        way_avl s' !! (-1) = Some way /\
        nodeIDs way = [3; 1] /\ way_nodes way = [3; 1] /\
        way_tags way = {[ "highway"%string := "footway"%string ]} /\
        way_partition_id way = label) /\
    partition_id <$> node_avl s' !! 3 = Some label /\
    partition_id <$> node_avl s' !! 1 = Some (partition_id nb).
Proof.
  destruct (node_avl Fixtures.two_partitions_store !! 3) as [na|] eqn:Ea;
    [| vm_compute in Ea; discriminate].
  destruct (node_avl Fixtures.two_partitions_store !! 1) as [nb|] eqn:Eb;
    [| vm_compute in Eb; discriminate].
  exists na, nb. split; [reflexivity |]. split; [reflexivity |].
  apply (connect_by_node_effect Fixtures.two_partitions_store _ 3 1 (-1) na nb Ea).
  - vm_compute in Ea. injection Ea as <-. reflexivity.
  - exact Eb.
  - vm_compute in Eb. injection Eb as <-. reflexivity.
  - destruct (connect_by_node 3 1 Fixtures.two_partitions_store) as [r s'] eqn:E.
    simpl. f_equal. apply (f_equal fst) in E. vm_compute in E. congruence.
Defined.

(** C4 as stated fails when [a] already has a positive partition id that
    differs from the one of [b]: node 1 lies in partition 2 and node 3 in
    partition 1; the call succeeds and creates the way [-1], and afterwards
    the two nodes still have different partition ids. *)
Lemma connect_by_node_keeps_distinct_labels :
  fst (connect_by_node 1 3 Fixtures.two_partitions_store) = Ok (-1) /\
  nodeIDs <$> way_avl (snd (connect_by_node 1 3 Fixtures.two_partitions_store)) !! (-1)
    = Some [1; 3] /\
  partition_id <$> node_avl (snd (connect_by_node 1 3 Fixtures.two_partitions_store)) !! 1
    = Some 2 /\
  partition_id <$> node_avl (snd (connect_by_node 1 3 Fixtures.two_partitions_store)) !! 3
    = Some 1.
Proof. repeat split; vm_compute; reflexivity. Qed.

(** ** Partition labelling *)

(** C5 (the code at the failing input): streets [10 = [1, 2]] and
    [11 = [2, 3]] are not filtered, the service roads [12 = [2, 4]] and
    [13 = [3, 5]] are.  After [filter_streets(['service'])] has marked the
    nodes 2, 3, 4 and 5 and [breadth_first_search] has run over the streets in
    the order 10, 11, 12, 13, street 11 belongs to partition 1 but its node 3,
    a node of a street that is not filtered, still has partition id [-1]. *)
Theorem labelling_misses_node_of_unfiltered_street :
  match Fixtures.service_filtered with
  | Ok s =>
      all_streets s = [10; 11; 12; 13] /\
      match find_partitions 100 (all_streets s) s with
      | Some (Ok pf) =>
          way_filtered <$> way_avl (osm pf) !! 11 = Some false /\
          way_nodes <$> way_avl (osm pf) !! 11 = Some [2; 3] /\
          way_partition_id <$> way_avl (osm pf) !! 11 = Some 1 /\
          partition_id <$> node_avl (osm pf) !! 2 = Some 1 /\
          partition_id <$> node_avl (osm pf) !! 3 = Some (-1)
      | _ => False
      end
  | Raise _ => False
  end.
Proof. vm_compute. repeat split. Qed.

(** ** The order of floats *)

Ltac key_cases :=
  unfold key_lt; simpl;
  repeat match goal with
         | |- context [Z.compare ?a ?b] => destruct (Z.compare_spec a b)
         | |- context [Pos.compare_cont Eq ?a ?b] =>
             change (Pos.compare_cont Eq a b) with (Pos.compare a b);
             destruct (Pos.compare_spec a b)
         end;
  simpl; split; intros; try discriminate; try lia; try done.

Lemma SFltb_key (f1 f2 : spec_float) :
  SFltb f1 f2 = true <->
  match sf_key f1, sf_key f2 with
  | Some a, Some b => key_lt a b
  | _, _ => False
  end.
Proof.
  unfold SFltb.
  destruct f1 as [[]|[]| |[] m1 e1], f2 as [[]|[]| |[] m2 e2]; key_cases.
Qed.

Lemma SFleb_key (f1 f2 : spec_float) :
  SFleb f1 f2 = true <->
  match sf_key f1, sf_key f2 with
  | Some a, Some b => ~ key_lt b a
  | _, _ => False
  end.
Proof.
  unfold SFleb.
  destruct f1 as [[]|[]| |[] m1 e1], f2 as [[]|[]| |[] m2 e2]; key_cases.
Qed.

Lemma SFeqb_key (f1 f2 : spec_float) :
  SFeqb f1 f2 = true <->
  match sf_key f1, sf_key f2 with
  | Some a, Some b => a = b
  | _, _ => False
  end.
Proof.
  unfold SFeqb.
  destruct f1 as [[]|[]| |[] m1 e1], f2 as [[]|[]| |[] m2 e2]; key_cases;
    try congruence; try (f_equal; f_equal; lia); simplify_eq; lia.
Qed.

Lemma ltb_flt (x y : float) : PrimFloat.ltb x y = true <-> flt x y.
Proof. rewrite FloatAxioms.ltb_spec. apply SFltb_key. Qed.

Lemma leb_fle (x y : float) : PrimFloat.leb x y = true <-> fle x y.
Proof. rewrite FloatAxioms.leb_spec. apply SFleb_key. Qed.

Lemma eqb_feq (x y : float) : PrimFloat.eqb x y = true <-> feq x y.
Proof. rewrite FloatAxioms.eqb_spec. apply SFeqb_key. Qed.

Lemma eqb_number (x : float) : PrimFloat.eqb x x = true <-> is_number x.
Proof.
  rewrite FloatAxioms.eqb_spec, SFeqb_key. unfold is_number, float_key.
  destruct (sf_key (Prim2SF x)); split; try done; by intros [? ?].
Qed.

Ltac float_order :=
  unfold flt, fle, feq, is_number, key_lt in *;
  repeat match goal with
         | H : is_Some _ |- _ => destruct H as [? H]
         end;
  repeat match goal with
         | H : context [float_key _] |- _ => revert H
         end;
  repeat match goal with
         | |- context [float_key ?x] => destruct (float_key x) as [[[? ?] ?]|]
         end;
  simpl; intros; simplify_eq; simpl in *; try done; try (by eexists); try lia.

Lemma flt_irrefl (x : float) : ~ flt x x.
Proof. float_order. Qed.

Lemma flt_trans (x y z : float) : flt x y -> flt y z -> flt x z.
Proof. intros. float_order. Qed.

Lemma flt_fle_trans (x y z : float) : flt x y -> fle y z -> flt x z.
Proof. intros. float_order. Qed.

Lemma fle_flt_trans (x y z : float) : fle x y -> flt y z -> flt x z.
Proof. intros. float_order. Qed.

Lemma fle_trans (x y z : float) : fle x y -> fle y z -> fle x z.
Proof. intros. float_order. Qed.

Lemma flt_fle (x y : float) : flt x y -> fle x y.
Proof. intros. float_order. Qed.

Lemma flt_not_fle (x y : float) : flt x y -> ~ fle y x.
Proof. intros ? ?. float_order. Qed.

Lemma fle_total (x y : float) : is_number x -> is_number y -> ~ flt x y -> fle y x.
Proof. intros. float_order. Qed.

Lemma fle_refl (x : float) : is_number x -> fle x x.
Proof. intros. float_order. Qed.

Lemma flt_number (x y : float) : flt x y -> is_number x /\ is_number y.
Proof. intros. float_order. Qed.

Lemma fle_number (x y : float) : fle x y -> is_number x /\ is_number y.
Proof. intros. float_order. Qed.

Lemma ltb_false_flt (x y : float) : PrimFloat.ltb x y = false <-> ~ flt x y.
Proof.
  rewrite <- ltb_flt. destruct (PrimFloat.ltb x y); split; try done; intros H; by destruct H.
Qed.

Lemma feq_flt_fle (a b x y : float) : feq a b -> flt a x -> fle y b -> flt y x.
Proof. intros. float_order. Qed.

Lemma feq_sym (a b : float) : feq a b -> feq b a.
Proof. intros. float_order. Qed.

Lemma feq_refl (a : float) : is_number a -> feq a a.
Proof. intros. float_order. Qed.

(** ** The error bound of Douglas-Peucker *)

Section DouglasPeuckerBound.

Variable GEOD_inv : float -> float -> float -> float -> option (float * float * float).
Variable utm : float -> float -> float * float.
Variable way_segment : list Node.
Variable tolerance : float.

Local Abbreviation dist := (distance_point_line GEOD_inv utm).
Local Abbreviation scan := (dp_scan GEOD_inv utm).
Local Abbreviation iter := (dp_iter GEOD_inv utm).
Local Abbreviation loop := (dp_loop GEOD_inv utm).
Local Abbreviation chord := (chord_ok GEOD_inv utm way_segment tolerance).
Local Abbreviation chain := (chain_ok GEOD_inv utm way_segment tolerance).
Local Abbreviation kept := (dp_kept GEOD_inv utm way_segment tolerance).

(** The scan returns a number that no scanned distance exceeds. *)
Lemma dp_scan_max (a f : nat) (pa pf : Node) (idxs : list nat) (m : float) (far : nat)
    (m' : float) (far' : nat) :
  way_segment !! a = Some pa -> way_segment !! f = Some pf ->
  is_number m ->
  scan way_segment a f idxs m far = Ok (m', far') ->
  is_number m' /\ fle m m' /\
  forall (i : nat) (pi : Node),
    i ∈ idxs -> way_segment !! i = Some pi ->
    exists d, dist pa pf pi = Ok d /\ ~ flt m' d.
Proof.
  intros Ha Hf. revert m far.
  induction idxs as [|i idxs IH]; intros m far Hm H; simpl in H.
  - injection H as <- <-. split; [done |]. split; [by apply fle_refl |].
    intros i pi Hi. by apply elem_of_nil in Hi.
  - apply rbind_Ok in H as (pa' & Ha' & H).
    apply rbind_Ok in H as (pf' & Hf' & H).
    apply rbind_Ok in H as (pi & Hi & H).
    apply rbind_Ok in H as (d & Hd & H).
    apply index_Ok in Ha', Hf', Hi.
    assert (pa' = pa) as -> by congruence. assert (pf' = pf) as -> by congruence.
    destruct (PrimFloat.ltb m d) eqn:Hlt.
    + apply ltb_flt in Hlt.
      destruct (IH d i (proj2 (flt_number m d Hlt)) H) as (Hn & Hle & Hall).
      split; [done |]. split; [eapply fle_trans; [by apply flt_fle | done] |].
      intros j pj Hj Hpj. apply elem_of_cons in Hj as [-> | Hj]; [| by apply (Hall j)].
      assert (pj = pi) as -> by congruence.
      exists d. split; [done |]. intros Hlt'. by apply (flt_not_fle m' d).
    + destruct (IH m far Hm H) as (Hn & Hle & Hall).
      split; [done |]. split; [done |].
      intros j pj Hj Hpj. apply elem_of_cons in Hj as [-> | Hj]; [| by apply (Hall j)].
      assert (pj = pi) as -> by congruence.
      exists d. split; [done |]. intros Hlt'.
      assert (flt m d) as Hmd by (by eapply fle_flt_trans).
      apply ltb_flt in Hmd. congruence.
Qed.

Lemma chain_ok_snoc (idxs : list nat) (a f : nat) :
  chain idxs -> last idxs = Some a -> (a < f)%nat -> chord a f ->
  chain (idxs ++ [f]).
Proof.
  intros Hchain Hlast Haf Hchord.
  induction idxs as [|x [|y idxs] IH]; [done | |].
  - simpl in *. injection Hlast as ->. by repeat split.
  - destruct Hchain as (Hxy & Hc & Hrest).
    change (chain (x :: (y :: idxs) ++ [f])). simpl.
    split; [done |]. split; [done |]. by apply IH.
Qed.

(** One iteration keeps the chain of accepted chords. *)
Lemma dp_iter_kept (hi : nat) (st st' : dp_state) :
  S hi = length way_segment ->
  dp_inv way_segment hi st ->
  kept (anchor st) (new_way st) ->
  iter way_segment tolerance st = Ok st' ->
  kept (anchor st') (new_way st').
Proof.
  intros Hlen (Hstk & Hhead & Hway) (idxs & Hall & Hfirst & Hlast & Hchain) Hiter.
  destruct st as [nw stk a f]; simpl in *.
  destruct (stack_ok_bounds _ _ _ Hstk) as (Hlo & Hsize & top & rest & -> & Htop).
  simpl in Hhead. injection Hhead as ->.
  unfold dp_iter in Hiter; simpl in Hiter.
  apply rbind_Ok in Hiter as ([m far] & Hscan & Hiter).
  destruct (PrimFloat.ltb m tolerance) eqn:Hlt.
  - apply rbind_Ok in Hiter as (x & Hx & Hiter). injection Hiter as <-. simpl.
    apply index_Ok in Hx.
    destruct (lookup_lt_is_Some_2 way_segment a) as [pa Hpa]; [lia |].
    destruct (dp_scan_max a f pa x _ _ _ _ _ Hpa Hx (proj1 (eqb_number 0) eq_refl) Hscan)
      as (Hn & _ & Hscanned).
    apply ltb_flt in Hlt.
    assert (Hchord : chord a f).
    { intros i pa' pf' pi Hi Hpa' Hpf' Hpi.
      assert (pa' = pa) as -> by congruence. assert (pf' = x) as -> by congruence.
      destruct (Hscanned i pi) as (d & Hd & Hnot); [| done |].
      { apply elem_of_seq. lia. }
      exists d. split; [done |]. unfold below_tolerance.
      destruct (PrimFloat.eqb d d) eqn:Ed; [right | by left].
      apply ltb_flt. apply eqb_number in Ed.
      eapply fle_flt_trans; [| exact Hlt]. by apply fle_total. }
    exists (idxs ++ [f]). split; [apply Forall2_app; [done | by constructor] |].
    split; [| split].
    + destruct idxs; [done | done].
    + by rewrite last_snoc.
    + apply (chain_ok_snoc idxs a f); [done | done | lia | done].
  - injection Hiter as <-. simpl. by exists idxs.
Qed.

(** A finished run has kept a chain of chords from the first to the last
    index. *)
Lemma dp_loop_kept (hi : nat) :
  S hi = length way_segment ->
  PrimFloat.ltb 0 tolerance = true ->
  forall (fuel : nat) (st : dp_state) (r : list Node),
    dp_inv way_segment hi st -> kept (anchor st) (new_way st) ->
    loop fuel way_segment tolerance st = Some (Ok r) ->
    kept hi r.
Proof.
  intros Hlen Htol. induction fuel as [|fuel IH]; intros st r Hinv Hkept Hrun.
  - destruct Hinv as (Hstk & _).
    destruct (stack_ok_bounds _ _ _ Hstk) as (_ & _ & top & rest & Estk & _).
    simpl in Hrun. by rewrite Estk in Hrun.
  - pose proof (dp_iter_step GEOD_inv utm way_segment tolerance hi st Hlen Htol Hinv)
      as Hstep.
    pose proof (dp_iter_kept hi st) as Hk.
    destruct Hinv as (Hstk & Hhd & Hway).
    destruct (stack_ok_bounds _ _ _ Hstk) as (_ & _ & top & rest & Estk & _).
    simpl in Hrun. rewrite Estk in Hrun.
    destruct (iter way_segment tolerance st) as [st'|e]; [| discriminate].
    specialize (Hk st' Hlen (conj Hstk (conj Hhd Hway)) Hkept eq_refl).
    destruct Hstep as [(Hempty & Hanchor & _) | (Hinv' & _)].
    + rewrite (dp_loop_empty GEOD_inv utm way_segment tolerance fuel st' Hempty) in Hrun.
      injection Hrun as <-. by rewrite <- Hanchor.
    + by apply (IH st').
Qed.

End DouglasPeuckerBound.

(** Every node that [douglas_peucker] drops lies within the tolerance of the
    chord that replaces it. *)
Theorem douglas_peucker_error_bound
    (GEOD_inv : float -> float -> float -> float -> option (float * float * float))
    (utm : float -> float -> float * float)
    (way_segment : list Node) (tolerance : float) (r : list Node) :
  (2 <= length way_segment)%nat ->
  PrimFloat.ltb 0 tolerance = true ->
  douglas_peucker GEOD_inv utm way_segment tolerance = Some (Ok r) ->
  dp_kept GEOD_inv utm way_segment tolerance (length way_segment - 1) r.
Proof.
  intros Hlen Htol Hrun.
  unfold douglas_peucker, douglas_peucker_fuel in Hrun.
  destruct way_segment as [|first rest] eqn:E; [simpl in Hlen; lia |].
  rewrite <- E in *.
  eapply (dp_loop_kept GEOD_inv utm way_segment tolerance (length way_segment - 1));
    [lia | done | | | exact Hrun].
  - split; [| split]; simpl.
    + constructor. lia.
    + done.
    + split; [| split].
      * rewrite E. simpl. constructor. apply sublist_nil_l.
      * by rewrite E.
      * by rewrite E.
  - exists [0%nat]. simpl. split; [| done].
    constructor; [by rewrite E | constructor].
Qed.

Lemma douglas_peucker_error_bound_witness :
  (2 <= length [Fixtures.n0; Fixtures.n1; Fixtures.n2])%nat /\
  PrimFloat.ltb 0 5 = true /\
  douglas_peucker Planar.inv Planar.utm [Fixtures.n0; Fixtures.n1; Fixtures.n2] 5
    = Some (Ok [Fixtures.n0; Fixtures.n2]) /\
  dp_kept Planar.inv Planar.utm [Fixtures.n0; Fixtures.n1; Fixtures.n2] 5 2
    [Fixtures.n0; Fixtures.n2].
Proof.
  split; [simpl; lia |]. split; [reflexivity |]. split; [vm_compute; reflexivity |].
  apply (douglas_peucker_error_bound Planar.inv Planar.utm
           [Fixtures.n0; Fixtures.n1; Fixtures.n2] 5 [Fixtures.n0; Fixtures.n2]);
    [simpl; lia | reflexivity | vm_compute; reflexivity].
Defined.

(** ** Generalisation of a street *)

Lemma sublist_snoc_inv {A : Type} (l m : list A) (x y : A) :
  (l ++ [x]) `sublist_of` (m ++ [y]) -> l `sublist_of` m.
Proof.
  intros H. apply sublist_app_l in H as (k1 & k2 & E & H1 & H2).
  destruct (decide (k2 = [])) as [-> | Hne].
  - by apply sublist_nil_r in H2.
  - destruct (exists_last Hne) as (k2' & z & ->).
    rewrite app_assoc in E. apply app_inj_tail in E as [-> _].
    by apply sublist_inserts_r.
Qed.

Lemma last_Some_snoc {A : Type} (l : list A) (x : A) :
  last l = Some x -> exists l', l = l' ++ [x].
Proof.
  intros H. destruct (decide (l = [])) as [-> | Hne]; [done |].
  destruct (exists_last Hne) as (l' & z & ->).
  rewrite last_snoc in H. injection H as ->. by exists l'.
Qed.

Lemma match_snoc {A B : Type} (l : list A) (x : A) (a b : B) :
  match l ++ [x] with [] => a | _ :: _ => b end = b.
Proof. by destruct l. Qed.

Section GeneralizeProps.

Variable GEOD_inv : float -> float -> float -> float -> option (float * float * float).
Variable utm : float -> float -> float * float.

(** [douglas_peucker] on a segment of at least two nodes, for a positive
    tolerance. *)
Lemma douglas_peucker_good (way_segment : list Node) (tolerance : float) :
  (2 <= length way_segment)%nat ->
  PrimFloat.ltb 0 tolerance = true ->
  exists out, douglas_peucker GEOD_inv utm way_segment tolerance = Some out /\
              dp_good way_segment out.
Proof.
  intros Hlen Htol.
  unfold douglas_peucker, douglas_peucker_fuel.
  destruct way_segment as [|first rest] eqn:E; [simpl in Hlen; lia |].
  rewrite <- E in *.
  apply (dp_loop_terminates GEOD_inv utm way_segment tolerance (length way_segment - 1));
    [lia | done | |].
  - split; [| split]; simpl.
    + constructor. lia.
    + done.
    + split; [| split].
      * rewrite E. simpl. constructor. apply sublist_nil_l.
      * by rewrite E.
      * by rewrite E.
  - unfold dp_measure; simpl. lia.
Qed.

Lemma generalize_step_inv (nodes : list Node) (tolerance : float) (i k : nat)
    (st : gen_state) :
  PrimFloat.ltb 0 tolerance = true ->
  (i < length nodes)%nat ->
  gen_inv nodes i k st ->
  exists out, generalize_step GEOD_inv utm nodes tolerance i st = Some out /\
    match out with
    | Ok st' => exists k', gen_inv nodes (S i) k' st' /\
                           (i = (length nodes - 1)%nat -> k' = i)
    | Raise e => e = ZeroDivisionError
    end.
Proof.
  intros Htol Hi (Hk & Hseg & Hnew & Hmem).
  destruct (index_lt nodes i Hi) as (n & En & Hn).
  unfold generalize_step. rewrite En.
  assert (Hseg' : gen_segment st ++ [n] = drop k (take (S i) nodes)).
  { rewrite (take_S_r _ _ _ Hn), drop_app_le by (rewrite length_take; lia).
    by rewrite Hseg. }
  destruct (ends_segment nodes i n) eqn:Hends.
  - destruct (douglas_peucker_good (gen_segment st ++ [n]) tolerance) as (out & -> & Hgood);
      [| done |].
    { rewrite length_app, Hseg, length_drop, length_take. simpl. lia. }
    destruct out as [dp|e]; [| eexists; split; [done | exact Hgood]].
    eexists; split; [done |]. exists i. split; [| done].
    destruct Hgood as (Hsub & Hhead & Hlast).
    rewrite last_snoc in Hlast. apply last_Some_snoc in Hlast as (dpre & ->).
    apply sublist_snoc_inv in Hsub.
    assert (Hhd : head (dpre ++ [n]) = nodes !! k).
    { rewrite Hhead, Hseg', head_lookup, lookup_drop, lookup_take_lt by lia.
      f_equal. lia. }
    assert (Htake : take i nodes = take k nodes ++ drop k (take i nodes)).
    { rewrite <- (take_drop k (take i nodes)) at 1. f_equal.
      rewrite take_take. f_equal. lia. }
    split; [lia |]. split.
    { simpl. rewrite (take_S_r _ _ _ Hn), drop_app_le by (rewrite length_take; lia).
      rewrite drop_ge by (rewrite length_take; lia). done. }
    split.
    + right. destruct Hnew as [[Enw ->] | (pre & x & Enw & Hx & Hpre & Hh)].
      * exists dpre, n. simpl. rewrite Enw.
        split; [done |]. split; [done |]. split.
        -- rewrite Htake, take_0. simpl. by rewrite <- Hseg.
        -- rewrite Hhd. by rewrite head_lookup.
      * exists (pre ++ dpre), n. simpl. rewrite Enw.
        rewrite match_snoc, removelast_last.
        split; [by rewrite app_assoc |]. split; [done |]. split.
        -- rewrite Htake. apply sublist_app; [done | by rewrite <- Hseg].
        -- rewrite <- Hh. destruct pre as [|p pre]; [| done].
           simpl. rewrite Hhd. by rewrite Hx.
    + intros j nj Hj Hnj Hsplit. simpl.
      assert (Hin : nj ∈ gen_new_way st \/ nj = n).
      { destruct (decide (j = i)) as [-> | Hne];
          [right; congruence | left; apply (Hmem j); [lia | done | done]]. }
      destruct Hnew as [[Enw ->] | (pre & x & Enw & Hx & Hpre & Hh)]; rewrite Enw in *.
      * destruct Hin as [Hin | ->]; [by apply elem_of_nil in Hin |].
        apply elem_of_app. right. by left.
      * rewrite match_snoc, removelast_last.
        destruct Hin as [Hin | ->].
        -- apply elem_of_app in Hin as [Hin | Hin]; [apply elem_of_app; by left |].
           apply list_elem_of_singleton in Hin as ->.
           apply elem_of_app. right.
           rewrite Hx in Hhd. apply head_Some_elem_of. done.
        -- rewrite !elem_of_app. right. right. by left.
  - eexists; split; [done |]. exists k. split.
    + split; [lia |]. split; [done |]. split; [done |]. simpl.
      intros j nj Hj Hnj Hsplit.
      destruct (decide (j = i)) as [-> | Hne]; [congruence |].
      apply (Hmem j); [lia | done | done].
    + intros ->. unfold ends_segment in Hends.
      rewrite Nat.eqb_refl in Hends. by rewrite orb_true_r in Hends.
Qed.

Lemma generalize_loop_inv (nodes : list Node) (tolerance : float) :
  PrimFloat.ltb 0 tolerance = true ->
  forall (c i k : nat) (st : gen_state),
    (i + c = length nodes)%nat -> (0 < c)%nat ->
    gen_inv nodes i k st ->
    exists out, generalize_loop GEOD_inv utm nodes tolerance (seq i c) st = Some out /\
      match out with
      | Ok r => exists st', r = gen_new_way st' /\
                            gen_inv nodes (length nodes) (length nodes - 1) st'
      | Raise e => e = ZeroDivisionError
      end.
Proof.
  intros Htol. induction c as [|c IH]; intros i k st Hic Hc Hinv; [lia |].
  simpl.
  destruct (generalize_step_inv nodes tolerance i k st Htol ltac:(lia) Hinv)
    as (out & -> & Hout).
  destruct out as [st'|e]; [| by exists (Raise e)].
  destruct Hout as (k' & Hinv' & Hlast).
  destruct c as [|c].
  - simpl. eexists; split; [done |]. exists st'. split; [done |].
    assert (k' = i) as -> by (apply Hlast; lia).
    assert (i = length nodes - 1)%nat as -> by lia.
    by replace (S (length nodes - 1)) with (length nodes) in Hinv' by lia.
  - apply (IH (S i) k'); [lia | lia | done].
Qed.

End GeneralizeProps.

(** The node list [generalize] computes for a way of at least two nodes is,
    for a positive tolerance, a subsequence of the way's nodes that keeps the
    first and the last node and every node at which a segment ends: each
    junction or dead end, and each point of interest. *)
Theorem generalize_way_keeps_topology
    (GEOD_inv : float -> float -> float -> float -> option (float * float * float))
    (utm : float -> float -> float * float)
    (nodes : list Node) (tolerance : float) :
  (2 <= length nodes)%nat ->
  PrimFloat.ltb 0 tolerance = true ->
  exists out,
    generalize_way GEOD_inv utm nodes tolerance = Some out /\
    match out with
    | Ok r =>
        r `sublist_of` nodes /\ head r = head nodes /\ last r = last nodes /\
        (forall (j : nat) (nj : Node),
            (0 < j)%nat -> nodes !! j = Some nj ->
            (length (neighbours nj) <> 2%nat \/ 0 < poi nj) -> nj ∈ r)
    | Raise e => e = ZeroDivisionError
    end.
Proof.
  intros Hlen Htol. unfold generalize_way.
  destruct nodes as [|first rest] eqn:E; [simpl in Hlen; lia |].
  rewrite <- E in *. unfold py_range.
  destruct (generalize_loop_inv GEOD_inv utm nodes tolerance Htol
              (length nodes - 1) 1 0 (mkGen [] [first])) as (out & -> & Hout);
    [lia | lia | |].
  { split; [lia |]. split; [by rewrite E |]. split; [by left |].
    intros j nj Hj. lia. }
  exists out. split; [done |]. destruct out as [r|e]; [| done].
  destruct Hout as (st' & -> & (Hk & Hseg & Hnew & Hmem)).
  destruct Hnew as [[_ Hz] | (pre & x & Enw & Hx & Hpre & Hh)]; [lia |].
  rewrite Enw in *. split; [| split; [done | split]].
  - assert (Hn : take (length nodes - 1) nodes ++ [x] = nodes).
    { rewrite <- (take_drop (length nodes - 1) nodes) at 3. f_equal.
      rewrite (drop_S _ _ _ Hx), drop_ge by lia. done. }
    rewrite <- Hn at 1. by apply sublist_app.
  - rewrite last_snoc, last_lookup, <- Hx. f_equal. lia.
  - intros j nj Hj Hnj Hcase. apply (Hmem j); [| done |].
    + apply lookup_lt_Some in Hnj. lia.
    + unfold ends_segment. destruct Hcase as [Hc | Hc].
      * apply Nat.eqb_neq in Hc. by rewrite Hc.
      * apply Z.ltb_lt in Hc. rewrite Hc. by rewrite orb_true_r.
Qed.

Lemma generalize_way_keeps_topology_witness :
  (2 <= length [Fixtures.n0; Fixtures.n1; Fixtures.n2])%nat /\
  PrimFloat.ltb 0 5 = true /\
  exists out,
    generalize_way Planar.inv Planar.utm [Fixtures.n0; Fixtures.n1; Fixtures.n2] 5
      = Some out /\
    match out with
    | Ok r =>
        r `sublist_of` [Fixtures.n0; Fixtures.n1; Fixtures.n2] /\
        head r = head [Fixtures.n0; Fixtures.n1; Fixtures.n2] /\
        last r = last [Fixtures.n0; Fixtures.n1; Fixtures.n2] /\
        (forall (j : nat) (nj : Node),
            (0 < j)%nat -> [Fixtures.n0; Fixtures.n1; Fixtures.n2] !! j = Some nj ->
            (length (neighbours nj) <> 2%nat \/ 0 < poi nj) -> nj ∈ r)
    | Raise e => e = ZeroDivisionError
    end.
Proof.
  split; [simpl; lia |]. split; [reflexivity |].
  apply generalize_way_keeps_topology; [simpl; lia | reflexivity].
Defined.

(** ** Nearest street *)

Section Nearest.

Variable GEOD_inv : float -> float -> float -> float -> option (float * float * float).
Variable utm : float -> float -> float * float.

Lemma nearest_street_loop_min (s : OSM_objects) (node : Node) (streets : list Z) :
  forall (acc r : option Z * float * option distance_mode),
    is_number (snd (fst acc)) ->
    nearest_street_loop GEOD_inv utm s node streets acc = Ok r ->
    is_number (snd (fst r)) /\ fle (snd (fst r)) (snd (fst acc)) /\
    (forall street, street ∈ streets ->
       exists d m, distance_node_street GEOD_inv utm s node street = Ok (d, m) /\
                   ~ flt d (snd (fst r))) /\
    (r = acc \/
     exists street, street ∈ streets /\ fst (fst r) = Some street /\
                    distance_node_street GEOD_inv utm s node street
                    = Ok (snd (fst r), snd r)).
Proof.
  induction streets as [|street rest IH]; intros acc r Hacc H; simpl in H.
  - injection H as <-. split; [done |]. split; [by apply fle_refl |].
    split; [| by left]. intros street Hin. by apply elem_of_nil in Hin.
  - apply rbind_Ok in H as ([distance mode] & Hd & H).
    destruct (PrimFloat.ltb distance (snd (fst acc))) eqn:Hlt.
    + apply ltb_flt in Hlt.
      destruct (IH (Some street, distance, mode) r (proj1 (flt_number _ _ Hlt)) H)
        as (Hn & Hle & Hall & Hsrc).
      simpl in Hle. split; [done |].
      split; [eapply fle_trans; [exact Hle | by apply flt_fle] |]. split.
      * intros st Hin. apply elem_of_cons in Hin as [-> | Hin]; [| by apply Hall].
        exists distance, mode. split; [done |]. intros Hc. by apply (flt_not_fle _ _ Hc).
      * right. destruct Hsrc as [-> | (st & Hin & Hst & Hdist)].
        -- exists street. split; [left | done].
        -- exists st. split; [by right | done].
    + destruct (IH acc r Hacc H) as (Hn & Hle & Hall & Hsrc).
      split; [done |]. split; [done |]. split.
      * intros st Hin. apply elem_of_cons in Hin as [-> | Hin]; [| by apply Hall].
        exists distance, mode. split; [done |]. intros Hc.
        apply ltb_false_flt in Hlt. apply Hlt. by eapply flt_fle_trans.
      * destruct Hsrc as [-> | (st & Hin & Hst & Hdist)]; [by left |].
        right. exists st. split; [by right | done].
Qed.

End Nearest.

(** The street [get_nearest_street] returns is one of the candidates, the
    distance and the mode returned are those of that street, and no
    candidate is strictly nearer; without a street the distance is the
    initial infinity. *)
Theorem get_nearest_street_minimal
    (GEOD_inv : float -> float -> float -> float -> option (float * float * float))
    (utm : float -> float -> float * float)
    (s : OSM_objects) (node : Node) (streets : list Z)
    (nearest : option Z) (min_dist : float) (mode : option distance_mode) :
  get_nearest_street GEOD_inv utm s node streets = Ok (nearest, min_dist, mode) ->
  (forall street, street ∈ streets ->
     exists d m, distance_node_street GEOD_inv utm s node street = Ok (d, m) /\
                 PrimFloat.ltb d min_dist = false) /\
  match nearest with
  | Some street =>
      street ∈ streets /\
      distance_node_street GEOD_inv utm s node street = Ok (min_dist, mode)
  | None => min_dist = Py.inf /\ mode = None
  end.
Proof.
  intros H. unfold get_nearest_street in H.
  apply nearest_street_loop_min in H as (_ & _ & Hall & Hsrc);
    [| by apply eqb_number].
  simpl in *. split.
  - intros street Hin. destruct (Hall street Hin) as (d & m & Hd & Hnot).
    exists d, m. split; [done | by apply ltb_false_flt].
  - destruct Hsrc as [[= -> -> ->] | (street & Hin & -> & Hd)]; [done | done].
Qed.

Lemma get_nearest_street_minimal_witness :
  exists nearest min_dist mode,
    get_nearest_street Planar.inv Planar.utm Fixtures.address_store Fixtures.poi0 [10; 11]
      = Ok (nearest, min_dist, mode) /\
    (forall street, street ∈ [10; 11] ->
       exists d m, distance_node_street Planar.inv Planar.utm Fixtures.address_store
                     Fixtures.poi0 street = Ok (d, m) /\
                   PrimFloat.ltb d min_dist = false) /\
    match nearest with
    | Some street =>
        street ∈ [10; 11] /\
        distance_node_street Planar.inv Planar.utm Fixtures.address_store
          Fixtures.poi0 street = Ok (min_dist, mode)
    | None => min_dist = Py.inf /\ mode = None
    end.
Proof.
  destruct (get_nearest_street Planar.inv Planar.utm Fixtures.address_store
              Fixtures.poi0 [10; 11]) as [[[nearest min_dist] mode]|e] eqn:E;
    [| vm_compute in E; discriminate].
  exists nearest, min_dist, mode. split; [reflexivity |].
  exact (get_nearest_street_minimal Planar.inv Planar.utm Fixtures.address_store
           Fixtures.poi0 [10; 11] nearest min_dist mode E).
Defined.

(** ** Nearest street node *)

Section NearestNode.

Variable GEOD_inv : float -> float -> float -> float -> option (float * float * float).

Lemma nearest_node_of_min (node : Node) (street_nodes : list Node) :
  forall (acc r : option Node * float),
    is_number (snd acc) ->
    nearest_node_of GEOD_inv node street_nodes acc = Ok r ->
    is_number (snd r) /\ fle (snd r) (snd acc) /\
    (forall n, n ∈ street_nodes ->
       exists az_f az_b d, distance_points GEOD_inv node n = Ok (az_f, az_b, d) /\
                           ~ flt d (snd r)) /\
    (r = acc \/
     exists n az_f az_b, n ∈ street_nodes /\ fst r = Some n /\
                         distance_points GEOD_inv node n = Ok (az_f, az_b, snd r)).
Proof.
  induction street_nodes as [|sn rest IH]; intros acc r Hacc H; simpl in H.
  - injection H as <-. split; [done |]. split; [by apply fle_refl |].
    split; [| by left]. intros n Hin. by apply elem_of_nil in Hin.
  - apply rbind_Ok in H as ([[az_f az_b] distance] & Hd & H).
    destruct (PrimFloat.ltb distance (snd acc)) eqn:Hlt.
    + apply ltb_flt in Hlt.
      destruct (IH (Some sn, distance) r (proj1 (flt_number _ _ Hlt)) H)
        as (Hn & Hle & Hall & Hsrc).
      simpl in Hle. split; [done |].
      split; [eapply fle_trans; [exact Hle | by apply flt_fle] |]. split.
      * intros n Hin. apply elem_of_cons in Hin as [-> | Hin]; [| by apply Hall].
        exists az_f, az_b, distance. split; [done |].
        intros Hc. by apply (flt_not_fle _ _ Hc).
      * right. destruct Hsrc as [-> | (n & a1 & a2 & Hin & Hst & Hdist)].
        -- exists sn, az_f, az_b. split; [left | done].
        -- exists n, a1, a2. split; [by right | done].
    + destruct (IH acc r Hacc H) as (Hn & Hle & Hall & Hsrc).
      split; [done |]. split; [done |]. split.
      * intros n Hin. apply elem_of_cons in Hin as [-> | Hin]; [| by apply Hall].
        exists az_f, az_b, distance. split; [done |]. intros Hc.
        apply ltb_false_flt in Hlt. apply Hlt. by eapply flt_fle_trans.
      * destruct Hsrc as [-> | (n & a1 & a2 & Hin & Hst & Hdist)]; [by left |].
        right. exists n, a1, a2. split; [by right | done].
Qed.

Lemma nearest_street_node_loop_min (s : OSM_objects) (node : Node) (streets : list Z) :
  forall (acc r : option Node * float),
    is_number (snd acc) ->
    nearest_street_node_loop GEOD_inv s node streets acc = Ok r ->
    is_number (snd r) /\ fle (snd r) (snd acc) /\
    (forall street n, street ∈ streets -> street_node s street n ->
       exists az_f az_b d, distance_points GEOD_inv node n = Ok (az_f, az_b, d) /\
                           ~ flt d (snd r)) /\
    (r = acc \/
     exists street n az_f az_b,
       street ∈ streets /\ street_node s street n /\ fst r = Some n /\
       distance_points GEOD_inv node n = Ok (az_f, az_b, snd r)).
Proof.
  induction streets as [|street rest IH]; intros acc r Hacc H; simpl in H.
  - injection H as <-. split; [done |]. split; [by apply fle_refl |].
    split; [| by left]. intros street n Hin. by apply elem_of_nil in Hin.
  - apply rbind_Ok in H as (w & Hw & H).
    apply rbind_Ok in H as (snodes & Hns & H).
    apply rbind_Ok in H as (acc' & Hacc' & H).
    unfold deref_way in Hw. destruct (way_avl s !! street) as [w'|] eqn:Ew;
      [| discriminate]. injection Hw as ->.
    destruct (nearest_node_of_min node snodes acc acc' Hacc Hacc')
      as (Hn1 & Hle1 & Hall1 & Hsrc1).
    destruct (IH acc' r Hn1 H) as (Hn & Hle & Hall & Hsrc).
    split; [done |]. split; [by eapply fle_trans |]. split.
    + intros st n Hin Hsn. apply elem_of_cons in Hin as [-> | Hin];
        [| by apply (Hall st)].
      destruct Hsn as (w2 & ns2 & Hw2 & Hns2 & Hin2).
      assert (w2 = w) as -> by congruence. assert (ns2 = snodes) as -> by congruence.
      destruct (Hall1 n Hin2) as (a1 & a2 & d & Hd & Hnot).
      exists a1, a2, d. split; [done |]. intros Hc. apply Hnot.
      by eapply flt_fle_trans.
    + destruct Hsrc as [-> | (st & n & a1 & a2 & Hin & Hsn & Hfst & Hd)].
      * destruct Hsrc1 as [-> | (n & a1 & a2 & Hin & Hfst & Hd)]; [by left |].
        right. exists street, n, a1, a2. split; [left |].
        split; [by exists w, snodes | done].
      * right. exists st, n, a1, a2. split; [by right | done].
Qed.

End NearestNode.

(** The node [get_nearest_street_node] returns is a node of one of the
    candidate streets, the distance returned is its distance, and no node
    of a candidate street is strictly nearer. *)
Theorem get_nearest_street_node_minimal
    (GEOD_inv : float -> float -> float -> float -> option (float * float * float))
    (s : OSM_objects) (node : Node) (streets : list Z)
    (nearest : option Node) (min_dist : float) :
  get_nearest_street_node GEOD_inv s node streets = Ok (nearest, min_dist) ->
  (forall street n, street ∈ streets -> street_node s street n ->
     exists az_f az_b d, distance_points GEOD_inv node n = Ok (az_f, az_b, d) /\
                         PrimFloat.ltb d min_dist = false) /\
  match nearest with
  | Some n =>
      exists street az_f az_b,
        street ∈ streets /\ street_node s street n /\
        distance_points GEOD_inv node n = Ok (az_f, az_b, min_dist)
  | None => min_dist = Py.inf
  end.
Proof.
  intros H. unfold get_nearest_street_node in H.
  apply nearest_street_node_loop_min in H as (_ & _ & Hall & Hsrc);
    [| by apply eqb_number].
  simpl in *. split.
  - intros street n Hin Hsn. destruct (Hall street n Hin Hsn) as (a1 & a2 & d & Hd & Hnot).
    exists a1, a2, d. split; [done | by apply ltb_false_flt].
  - destruct Hsrc as [[= -> ->] | (street & n & a1 & a2 & Hin & Hsn & -> & Hd)];
      [done |].
    by exists street, a1, a2.
Qed.

Lemma get_nearest_street_node_minimal_witness :
  exists nearest min_dist,
    get_nearest_street_node Planar.inv Fixtures.address_store Fixtures.poi0 [10; 11]
      = Ok (nearest, min_dist) /\
    (forall street n, street ∈ [10; 11] -> street_node Fixtures.address_store street n ->
       exists az_f az_b d, distance_points Planar.inv Fixtures.poi0 n = Ok (az_f, az_b, d) /\
                           PrimFloat.ltb d min_dist = false) /\
    match nearest with
    | Some n =>
        exists street az_f az_b,
          street ∈ [10; 11] /\ street_node Fixtures.address_store street n /\
          distance_points Planar.inv Fixtures.poi0 n = Ok (az_f, az_b, min_dist)
    | None => min_dist = Py.inf
    end.
Proof.
  destruct (get_nearest_street_node Planar.inv Fixtures.address_store
              Fixtures.poi0 [10; 11]) as [[nearest min_dist]|e] eqn:E;
    [| vm_compute in E; discriminate].
  exists nearest, min_dist. split; [reflexivity |].
  exact (get_nearest_street_node_minimal Planar.inv Fixtures.address_store
           Fixtures.poi0 [10; 11] nearest min_dist E).
Defined.

(** ** Bounding boxes *)

Lemma run_min (m x : float) :
  is_number m ->
  let m' := if PrimFloat.ltb x m then x else m in
  is_number m' /\ fle m' m /\ (is_number x -> fle m' x).
Proof.
  intros Hm. destruct (PrimFloat.ltb x m) eqn:Hlt; simpl.
  - apply ltb_flt in Hlt. split; [by apply (flt_number x m) |].
    split; [by apply flt_fle |]. apply fle_refl.
  - apply ltb_false_flt in Hlt. split; [done |]. split; [by apply fle_refl |].
    intros Hx. by apply fle_total.
Qed.

Lemma run_max (m x : float) :
  is_number m ->
  let m' := if PrimFloat.ltb m x then x else m in
  is_number m' /\ fle m m' /\ (is_number x -> fle x m').
Proof.
  intros Hm. destruct (PrimFloat.ltb m x) eqn:Hlt; simpl.
  - apply ltb_flt in Hlt. split; [by apply (flt_number m x) |].
    split; [by apply flt_fle |]. apply fle_refl.
  - apply ltb_false_flt in Hlt. split; [done |]. split; [by apply fle_refl |].
    intros Hx. by apply fle_total.
Qed.

Lemma same_coords_refl (s : OSM_objects) : same_coords s s.
Proof. by intros j. Qed.

Lemma same_coords_trans (s1 s2 s3 : OSM_objects) :
  same_coords s1 s2 -> same_coords s2 s3 -> same_coords s1 s3.
Proof. intros H1 H2 j. by rewrite H2, H1. Qed.

Lemma update_node_coords (i x : Z) (s : OSM_objects) :
  same_coords s (update_node i (append_neighbour x) s).
Proof.
  intros j. simpl. destruct (decide (i = j)) as [-> | Hne].
  - rewrite lookup_alter_eq. by destruct (node_avl s !! j).
  - by rewrite lookup_alter_ne.
Qed.

Lemma same_coords_lookup (s s' : OSM_objects) (j : Z) (n : Node) :
  same_coords s s' -> node_avl s !! j = Some n ->
  exists n', node_avl s' !! j = Some n' /\ lon n' = lon n /\ lat n' = lat n.
Proof.
  intros H Hn. specialize (H j). rewrite Hn in H. simpl in H.
  apply fmap_Some in H as (n' & Hn' & E). exists n'. split; [done |].
  by injection E as -> ->.
Qed.

Lemma wi_covers_grows (st st' : way_init_state) (x y : float) :
  wi_covers st x y -> wi_grows st st' -> wi_covers st' x y.
Proof.
  intros (H1 & H2 & H3 & H4) (G1 & G2 & G3 & G4).
  repeat split; eapply fle_trans; eauto.
Qed.

Lemma way_init_loop_box (nodes : list Z) (is_street : bool) :
  forall (st st' : way_init_state) (s s' : OSM_objects),
    wi_numbers st ->
    way_init_loop nodes is_street st s = (Ok st', s') ->
    wi_numbers st' /\ wi_grows st st' /\
    forall (i : Z) (n : Node),
      i ∈ nodes -> node_avl s !! i = Some n ->
      is_number (lon n) -> is_number (lat n) ->
      wi_covers st' (lon n) (lat n).
Proof.
  induction nodes as [|node_id nodes IH]; intros st st' s s' Hnum H; simpl in H.
  - injection H as <- <-. split; [done |].
    destruct Hnum as (N1 & N2 & N3 & N4).
    split; [repeat split; by apply fle_refl |].
    intros i n Hin. by apply elem_of_nil in Hin.
  - unfold read_node, deref_node in H.
    destruct (node_avl s !! node_id) as [osm_node|] eqn:Hnode; simpl in H;
      [| discriminate].
    destruct Hnum as (N1 & N2 & N3 & N4).
    destruct (run_min (wi_min_lon st) (lon osm_node) N1) as (A1 & A2 & A3).
    destruct (run_min (wi_min_lat st) (lat osm_node) N2) as (B1 & B2 & B3).
    destruct (run_max (wi_max_lon st) (lon osm_node) N3) as (C1 & C2 & C3).
    destruct (run_max (wi_max_lat st) (lat osm_node) N4) as (D1 & D2 & D3).
    simpl in *.
    set (st1 := mkWayInit _ _ _ _ _ _) in H.
    assert (Hst1 : wi_numbers st1) by (by repeat split).
    assert (Hgrow : wi_grows st st1) by (by repeat split).
    assert (exists s1, same_coords s s1 /\
                       way_init_loop nodes is_street st1 s1 = (Ok st', s'))
      as (s1 & Hs1 & Hrun).
    { destruct (wi_last_node st) as [last_node|]; [destruct is_street |]; simpl in H.
      - eexists. split; [| exact H].
        eapply same_coords_trans; apply update_node_coords.
      - exists s. split; [apply same_coords_refl | exact H].
      - exists s. split; [apply same_coords_refl | exact H]. }
    destruct (IH _ _ _ _ Hst1 Hrun) as (Hn' & Hg' & Hall).
    split; [done |]. split.
    { destruct Hgrow as (G1 & G2 & G3 & G4), Hg' as (G1' & G2' & G3' & G4').
      repeat split; eapply fle_trans; eauto. }
    intros i n Hin Hn Hx Hy. apply elem_of_cons in Hin as [-> | Hin].
    + assert (n = osm_node) as -> by congruence.
      apply (wi_covers_grows st1); [| done].
      repeat split; simpl; auto.
    + destruct (same_coords_lookup s s1 i n Hs1 Hn) as (n' & Hn1 & Ex & Ey).
      rewrite <- Ex, <- Ey. apply (Hall i n'); [done | done | by rewrite Ex | by rewrite Ey].
Qed.

(** The bounding box [Way.__init__] computes contains every node of the way
    whose coordinates are numbers. *)
Theorem Way_init_box_contains (osm_id : Z) (nodes : list Z)
    (tags attr : gmap string string) (s s' : OSM_objects) (way : Way)
    (i : Z) (n : Node) :
  Way_init osm_id nodes tags attr s = (Ok way, s') ->
  i ∈ nodes -> node_avl s !! i = Some n ->
  PrimFloat.eqb (lon n) (lon n) = true -> PrimFloat.eqb (lat n) (lat n) = true ->
  box_contains (box way) (lon n) (lat n).
Proof.
  unfold Way_init. simpl. intros H Hin Hn Hx Hy.
  destruct (way_init_loop nodes _ _ s) as [[st|e] s1] eqn:Hloop; [| discriminate].
  injection H as <- <-. simpl.
  apply way_init_loop_box in Hloop as (_ & _ & Hall).
  - apply eqb_number in Hx, Hy.
    destruct (Hall i n Hin Hn Hx Hy) as (H1 & H2 & H3 & H4).
    repeat split; by apply leb_fle.
  - repeat split; by apply eqb_number.
Qed.

Lemma Way_init_box_contains_witness :
  exists way s' n,
    Way_init 12 [2; 3] (Fixtures.highway "footway") ∅ Fixtures.address_store
      = (Ok way, s') /\
    node_avl Fixtures.address_store !! 3 = Some n /\
    PrimFloat.eqb (lon n) (lon n) = true /\ PrimFloat.eqb (lat n) (lat n) = true /\
    box_contains (box way) (lon n) (lat n).
Proof.
  destruct (Way_init 12 [2; 3] (Fixtures.highway "footway") ∅ Fixtures.address_store)
    as [[way|e] s'] eqn:E;
    [| apply (f_equal fst) in E; vm_compute in E; discriminate].
  destruct (node_avl Fixtures.address_store !! 3) as [n|] eqn:En;
    [| vm_compute in En; discriminate].
  assert (Hx : PrimFloat.eqb (lon n) (lon n) = true).
  { vm_compute in En. injection En as <-. reflexivity. }
  assert (Hy : PrimFloat.eqb (lat n) (lat n) = true).
  { vm_compute in En. injection En as <-. reflexivity. }
  exists way, s', n. split; [reflexivity |]. split; [reflexivity |].
  split; [exact Hx |]. split; [exact Hy |].
  apply (Way_init_box_contains 12 [2; 3] (Fixtures.highway "footway") ∅
           Fixtures.address_store s' way 3 n E); [| exact En | exact Hx | exact Hy].
  apply elem_of_cons. right. apply elem_of_cons. by left.
Defined.

(** The box [merge_boxes] returns contains every point of either box, when
    no corner of the first box is a NaN. *)
Theorem merge_boxes_contains (box1 box2 : Box) (x y : float) :
  box_numbers box1 ->
  box_contains box1 x y \/ box_contains box2 x y ->
  box_contains (merge_boxes box1 box2) x y.
Proof.
  destruct box1 as [[[a1 b1] c1] d1], box2 as [[[a2 b2] c2] d2].
  unfold box_numbers, box_contains, merge_boxes, Py.min, Py.max.
  rewrite !eqb_number, !leb_fle. intros (Na & Nb & Nc & Nd) Hin.
  destruct (run_min a1 a2 Na) as (_ & A2 & A3).
  destruct (run_min b1 b2 Nb) as (_ & B2 & B3).
  destruct (run_max c1 c2 Nc) as (_ & C2 & C3).
  destruct (run_max d1 d2 Nd) as (_ & D2 & D3).
  simpl in *.
  destruct Hin as [(H1 & H2 & H3 & H4) | (H1 & H2 & H3 & H4)].
  - repeat split; eapply fle_trans; eauto.
  - repeat split.
    + eapply fle_trans; [apply A3; by apply (fle_number a2 x) | done].
    + eapply fle_trans; [done | apply C3; by apply (fle_number x c2)].
    + eapply fle_trans; [apply B3; by apply (fle_number b2 y) | done].
    + eapply fle_trans; [done | apply D3; by apply (fle_number y d2)].
Qed.

Lemma merge_boxes_contains_witness :
  box_numbers (0, 0, 1, 1)%float /\
  box_contains (2, 2, 3, 4)%float 3 3 /\
  box_contains (merge_boxes (0, 0, 1, 1)%float (2, 2, 3, 4)%float) 3 3.
Proof.
  assert (H1 : box_numbers (0, 0, 1, 1)%float) by (by repeat split).
  assert (H2 : box_contains (2, 2, 3, 4)%float 3 3) by (by repeat split).
  split; [exact H1 |]. split; [exact H2 |].
  apply merge_boxes_contains; [exact H1 | right; exact H2].
Defined.

(** ** The polygon test *)

Lemma min_max_level (a b y : float) :
  feq a b -> flt (Py.min a b) y -> fle y (Py.max a b) -> False.
Proof.
  unfold Py.min, Py.max.
  destruct (PrimFloat.ltb b a), (PrimFloat.ltb a b); intros; float_order.
Qed.

Section Polygon.

Variable utm : float -> float -> float * float.

(** The crossing test reads [xinters] only after having assigned it: with
    [p1_y == p2_y] the two tests on [y] exclude each other. *)
Lemma crossing_step_raises (node p2 : Node) (st : crossing_state) (e : exn) :
  crossing_step utm node p2 st = Raise e -> e = ZeroDivisionError.
Proof.
  unfold crossing_step. destruct (get_xy_utm utm p2) as [p2_x p2_y].
  intros H. apply rbind_Raise in H as [H | (st' & _ & H)]; [| discriminate].
  destruct (PrimFloat.ltb _ _) eqn:H1; [| discriminate].
  destruct (PrimFloat.leb _ _) eqn:H2 in H; [| discriminate].
  destruct (PrimFloat.leb _ _) eqn:H3 in H; [| discriminate].
  apply rbind_Raise in H as [H | (xi & Hxi & H)].
  - destruct (PrimFloat.eqb (p1_y st) p2_y); simpl in H; [discriminate |].
    apply rbind_Raise in H as [H | (q & _ & H)]; [| discriminate].
    unfold Py.div in H. by destruct (PrimFloat.eqb _ 0) in H; [injection H as <- |].
  - destruct (PrimFloat.eqb (p1_y st) p2_y) eqn:Heq; simpl in Hxi.
    + exfalso. apply ltb_flt in H1. apply leb_fle in H2. apply eqb_feq in Heq.
      by apply (min_max_level (p1_y st) p2_y (get_y_utm utm node)).
    + apply rbind_Ok in Hxi as (q & _ & Hxi). injection Hxi as <-.
      destruct (PrimFloat.eqb (p1_x st) p2_x); [discriminate |].
      by destruct (PrimFloat.leb _ _) in H.
Qed.

Lemma crossing_loop_raises (node : Node) (polygon : list Node) (idxs : list nat)
    (st : crossing_state) (e : exn) :
  crossing_loop utm node polygon idxs st = Raise e -> polygon_exn e.
Proof.
  revert st. induction idxs as [|i idxs IH]; intros st H; simpl in H; [discriminate |].
  apply rbind_Raise in H as [H | (p2 & _ & H)].
  - unfold Py.index in H. destruct (polygon !! _); [discriminate |].
    injection H as <-. by left.
  - apply rbind_Raise in H as [H | (st' & _ & H)]; [| by eapply IH].
    apply crossing_step_raises in H as ->. right. by right.
Qed.

Lemma resolve_nodes_raises (s : OSM_objects) (refs : list Z) (e : exn) :
  resolve_nodes s refs = Raise e -> e = AttributeError.
Proof.
  induction refs as [|r refs IH]; simpl; [discriminate |]. intros H.
  apply rbind_Raise in H as [H | (n & _ & H)].
  - unfold deref_node in H. destruct (node_avl s !! r); congruence.
  - apply rbind_Raise in H as [H | (ns & _ & H)]; [by apply IH | discriminate].
Qed.

End Polygon.

(** [is_inside_polygon] never reads [xinters] before assigning it: it raises
    no [UnboundLocalError], only [IndexError] (a way without nodes),
    [AttributeError] (a node reference that does not resolve) or the
    [ZeroDivisionError] of its division. *)
Theorem is_inside_polygon_raises
    (utm : float -> float -> float * float)
    (s : OSM_objects) (node : Node) (way : Way) (e : exn) :
  is_inside_polygon utm s node way = Raise e ->
  e = IndexError \/ e = AttributeError \/ e = ZeroDivisionError.
Proof.
  unfold is_inside_polygon. intros H.
  apply rbind_Raise in H as [H | (area & _ & H)].
  - left. unfold is_area in H.
    apply rbind_Raise in H as [H | (a & _ & H)].
    { unfold Py.first in H. destruct (head _); congruence. }
    apply rbind_Raise in H as [H | (b & _ & H)]; [| discriminate].
    unfold Py.final in H. destruct (last _); congruence.
  - destruct (negb area); [discriminate |].
    apply rbind_Raise in H as [H | (polygon & _ & H)].
    { apply resolve_nodes_raises in H as ->. right. by left. }
    apply rbind_Raise in H as [H | (p0 & _ & H)].
    { unfold Py.index in H. destruct (polygon !! _); [discriminate |].
      injection H as <-. by left. }
    destruct (get_xy_utm utm p0) as [x0 y0].
    apply rbind_Raise in H as [H | (st & _ & H)]; [| discriminate].
    by apply crossing_loop_raises in H.
Qed.

Lemma is_inside_polygon_raises_witness :
  is_inside_polygon Planar.utm Fixtures.empty_store Fixtures.poi0 Cases.empty_way
    = Raise IndexError /\
  (IndexError = IndexError \/ IndexError = AttributeError \/
   IndexError = ZeroDivisionError).
Proof.
  split; [reflexivity |].
  apply (is_inside_polygon_raises Planar.utm Fixtures.empty_store Fixtures.poi0
           Cases.empty_way IndexError). reflexivity.
Defined.

(** ** Boxes that share a point *)

Lemma intersects_common_point (b1 b2 : Box) (x y : float) :
  box_contains b1 x y -> box_contains b2 x y -> intersects b1 b2 = true.
Proof.
  destruct b1 as [[[a1 c1] e1] g1], b2 as [[[a2 c2] e2] g2].
  unfold box_contains, intersects. rewrite !leb_fle.
  intros (H1 & H2 & H3 & H4) (K1 & K2 & K3 & K4).
  rewrite !andb_true_iff, !leb_fle.
  repeat split; eapply fle_trans; eauto.
Qed.

(** A street that [__create_ways] has indexed is found by
    [get_adjacent_streets]-style queries around each of its nodes: a query
    box that contains a node of the way meets the way's bounding box. *)
Theorem create_way_indexed
    (osm_id : Z) (tags : gmap string string) (nodes : list Z)
    (attr : gmap string string) (s s' : OSM_objects)
    (i : Z) (n : Node) (query : Box) :
  create_way osm_id tags nodes attr s = (Ok tt, s') ->
  is_Some (tags !! "highway"%string) ->
  attr !! "action"%string <> Some "delete"%string ->
  i ∈ nodes -> node_avl s !! i = Some n ->
  box_contains query (lon n) (lat n) ->
  osm_id ∈ rtree_intersection (street_tree s') query.
Proof.
  intros H Hhw Hact Hin Hn Hq. unfold create_way in H. unfold sbind at 1 in H.
  destruct (Way_init osm_id nodes tags attr s) as [[way|e] s1] eqn:Hinit;
    [| discriminate].
  rewrite bool_decide_eq_false_2 in H by done.
  rewrite bool_decide_eq_true_2 in H by done. simpl in H. injection H as <-.
  unfold rtree_intersection. simpl.
  apply list_elem_of_fmap. exists (osm_id, box way). split; [done |].
  apply list_elem_of_filter. split; [| apply elem_of_app; right; by left].
  simpl. apply (intersects_common_point _ _ (lon n) (lat n)); [| done].
  assert (Hx : is_number (lon n)).
  { destruct query as [[[a c] b] d]. destruct Hq as (H1 & _).
    apply leb_fle in H1. by apply (fle_number a (lon n)). }
  assert (Hy : is_number (lat n)).
  { destruct query as [[[a c] b] d]. destruct Hq as (_ & _ & H3 & _).
    apply leb_fle in H3. by apply (fle_number c (lat n)). }
  unfold Way_init in Hinit. simpl in Hinit.
  destruct (way_init_loop nodes _ _ s) as [[st|e] s2] eqn:Hloop; [| discriminate].
  injection Hinit as <- _. simpl.
  apply way_init_loop_box in Hloop as (_ & _ & Hall);
    [| repeat split; by apply eqb_number].
  destruct (Hall i n Hin Hn Hx Hy) as (H1 & H2 & H3 & H4).
  repeat split; by apply leb_fle.
Qed.

Lemma create_way_indexed_witness :
  exists s' n,
    create_way 12 (Fixtures.highway "footway") [2; 3] ∅ Fixtures.address_store
      = (Ok tt, s') /\
    node_avl Fixtures.address_store !! 3 = Some n /\
    box_contains (2, 3, 4, 5)%float (lon n) (lat n) /\
    12 ∈ rtree_intersection (street_tree s') (2, 3, 4, 5)%float.
Proof.
  destruct (create_way 12 (Fixtures.highway "footway") [2; 3] ∅ Fixtures.address_store)
    as [[[]|e] s'] eqn:E;
    [| apply (f_equal fst) in E; vm_compute in E; discriminate].
  destruct (node_avl Fixtures.address_store !! 3) as [n|] eqn:En;
    [| vm_compute in En; discriminate].
  assert (Hq : box_contains (2, 3, 4, 5)%float (lon n) (lat n)).
  { vm_compute in En. injection En as <-. by repeat split. }
  exists s', n. split; [reflexivity |]. split; [reflexivity |]. split; [exact Hq |].
  apply (create_way_indexed 12 (Fixtures.highway "footway") [2; 3] ∅
           Fixtures.address_store s' 3 n (2, 3, 4, 5)%float E);
    [| | | exact En | exact Hq].
  - unfold Fixtures.highway. rewrite lookup_singleton_eq. by eexists.
  - by rewrite lookup_empty.
  - apply elem_of_cons. right. apply elem_of_cons. by left.
Defined.

(** ** Building a way: neighbours and failure *)

Lemma neighbours_grow_refl (s : OSM_objects) : neighbours_grow s s.
Proof. intros j n Hn. by exists n. Qed.

Lemma neighbours_grow_trans (s1 s2 s3 : OSM_objects) :
  neighbours_grow s1 s2 -> neighbours_grow s2 s3 -> neighbours_grow s1 s3.
Proof.
  intros H1 H2 j n Hn. destruct (H1 j n Hn) as (n2 & Hn2 & Hsub).
  destruct (H2 j n2 Hn2) as (n3 & Hn3 & Hsub'). exists n3. split; [done |]. auto.
Qed.

Lemma update_node_grow (i x : Z) (s : OSM_objects) :
  neighbours_grow s (update_node i (append_neighbour x) s).
Proof.
  intros j n Hn. simpl. destruct (decide (i = j)) as [-> | Hne].
  - rewrite lookup_alter_eq, Hn. simpl. eexists. split; [done |].
    intros y Hy. simpl. apply elem_of_app. by left.
  - rewrite lookup_alter_ne by done. by exists n.
Qed.

Lemma adjacent_grow (s s' : OSM_objects) (a b : Z) :
  adjacent s a b -> neighbours_grow s s' -> adjacent s' a b.
Proof.
  intros (na & nb & Ha & Hb & Hab & Hba) H.
  destruct (H a na Ha) as (na' & Ha' & Hsa). destruct (H b nb Hb) as (nb' & Hb' & Hsb).
  exists na', nb'. repeat split; auto.
Qed.

Lemma update_node_lookup (i : Z) (f : Node -> Node) (s : OSM_objects) (n : Node) :
  node_avl s !! i = Some n -> node_avl (update_node i f s) !! i = Some (f n).
Proof. intros H. simpl. by rewrite lookup_alter_eq, H. Qed.

(** The two updates of the loop of [Way.__init__] for a street. *)
Lemma link_adjacent (s : OSM_objects) (a l : Z) :
  is_Some (node_avl s !! a) -> is_Some (node_avl s !! l) ->
  adjacent (update_node l (append_neighbour a) (update_node a (append_neighbour l) s)) l a.
Proof.
  intros [na Ha] [nl Hl].
  pose proof (update_node_lookup a (append_neighbour l) s na Ha) as Ha1.
  destruct (update_node_grow a l s l nl Hl) as (nl1 & Hl1 & _).
  pose proof (update_node_lookup l (append_neighbour a) _ nl1 Hl1) as Hl2.
  destruct (update_node_grow l a _ a _ Ha1) as (na2 & Ha2 & Hsub).
  exists (append_neighbour a nl1), na2. split; [done |]. split; [done |]. split.
  - simpl. apply elem_of_app. right. by left.
  - apply Hsub. simpl. apply elem_of_app. right. by left.
Qed.

Lemma way_init_loop_street (nodes : list Z) :
  forall (st st' : way_init_state) (s s' : OSM_objects),
    way_init_loop nodes true st s = (Ok st', s') ->
    (forall l, wi_last_node st = Some l -> is_Some (node_avl s !! l)) ->
    neighbours_grow s s' /\
    forall (k : nat) (a b : Z),
      (option_list (wi_last_node st) ++ nodes) !! k = Some a ->
      (option_list (wi_last_node st) ++ nodes) !! S k = Some b ->
      adjacent s' a b.
Proof.
  induction nodes as [|node_id nodes IH]; intros st st' s s' H Hlast; simpl in H.
  - injection H as <- <-. split; [apply neighbours_grow_refl |].
    intros k a b Ha Hb. rewrite app_nil_r in Hb.
    apply lookup_lt_Some in Hb. destruct (wi_last_node st); simpl in Hb; lia.
  - unfold read_node, deref_node in H.
    destruct (node_avl s !! node_id) as [osm_node|] eqn:Hnode; simpl in H;
      [| discriminate].
    set (st1 := mkWayInit _ _ _ _ _ _) in H.
    destruct (wi_last_node st) as [l|] eqn:El; simpl in H.
    + destruct (Hlast l eq_refl) as [nl Hl].
      set (s2 := update_node l _ (update_node node_id _ s)) in H.
      assert (Hadj : adjacent s2 l node_id).
      { apply link_adjacent; by eexists. }
      assert (Hg : neighbours_grow s s2).
      { eapply neighbours_grow_trans; apply update_node_grow. }
      destruct (IH st1 st' s2 s' H) as (Hg' & Hall).
      { intros l' [= <-]. destruct (Hg node_id osm_node Hnode) as (n' & Hn' & _).
        by eexists. }
      split; [by eapply neighbours_grow_trans |].
      intros k a b Ha Hb. simpl in Ha, Hb. destruct k as [|k].
      * simpl in Ha, Hb. injection Ha as <-. injection Hb as <-.
        by eapply adjacent_grow.
      * apply (Hall k a b); [exact Ha | exact Hb].
    + destruct (IH st1 st' s s' H) as (Hg' & Hall).
      { intros l' [= <-]. by eexists. }
      split; [done |]. intros k a b Ha Hb. by apply (Hall k a b).
Qed.

Lemma way_init_loop_plain (nodes : list Z) (st : way_init_state) (s : OSM_objects) :
  snd (way_init_loop nodes false st s) = s.
Proof.
  revert st s. induction nodes as [|node_id nodes IH]; intros st s; simpl; [done |].
  unfold read_node, deref_node.
  destruct (node_avl s !! node_id) as [osm_node|]; simpl; [| done].
  destruct (wi_last_node st); simpl; apply IH.
Qed.

Lemma way_init_loop_result (nodes : list Z) (is_street : bool) :
  forall (st : way_init_state) (s : OSM_objects),
    match fst (way_init_loop nodes is_street st s) with
    | Ok st' => all_resolve s nodes /\
                wi_node_objects st' = wi_node_objects st ++ nodes
    | Raise e => e = AttributeError /\ ~ all_resolve s nodes
    end.
Proof.
  induction nodes as [|node_id nodes IH]; intros st s; simpl.
  - split; [constructor | by rewrite app_nil_r].
  - unfold read_node, deref_node.
    destruct (node_avl s !! node_id) as [osm_node|] eqn:Hnode; simpl.
    + set (st1 := mkWayInit _ _ _ _ _ _).
      assert (exists s1, same_labels s s1 /\
                (let (r, s') := (match wi_last_node st with
                                 | Some last_node =>
                                     if is_street
                                     then sbind (modify (update_node node_id
                                                           (append_neighbour last_node)))
                                            (fun _ => modify (update_node last_node
                                                                (append_neighbour node_id)))
                                     else ret tt
                                 | None => ret tt
                                 end) s in
                 match r with
                 | Ok a => way_init_loop nodes is_street st1 s'
                 | Raise e => (Raise e, s')
                 end) = way_init_loop nodes is_street st1 s1) as (s1 & Hl & ->).
      { destruct (wi_last_node st) as [l|]; [destruct is_street |]; simpl.
        - eexists. split; [| done].
          eapply same_labels_trans; apply update_node_labels.
        - exists s. split; [apply same_labels_refl | done].
        - exists s. split; [apply same_labels_refl | done]. }
      specialize (IH st1 s1).
      assert (Hdom : all_resolve s1 nodes <-> all_resolve s nodes).
      { unfold all_resolve. rewrite !Forall_forall. split; intros Hall i Hi.
        - apply (same_labels_has_node s s1 i Hl). by apply Hall.
        - apply (same_labels_has_node s s1 i Hl). by apply Hall. }
      destruct (fst (way_init_loop nodes is_street st1 s1)) as [st'|e].
      * destruct IH as (Hall & Hobjs). split.
        -- constructor; [by eexists | by apply Hdom].
        -- rewrite Hobjs. subst st1. simpl. by rewrite <- app_assoc.
      * destruct IH as (-> & Hnot). split; [done |].
        intros Hall. apply Hnot, Hdom. by inversion Hall.
    + split; [done |]. intros Hall. inversion Hall as [|? ? [n Hn] _]; subst.
      congruence.
Qed.

(** [Way.__init__] returns exactly when every node id of the list is in the
    node tree, with the id list and the node list it was given; otherwise it
    raises [AttributeError] (the [None] that [node_avl.get] returns has no
    attribute [lon]). *)
Theorem Way_init_result (osm_id : Z) (nodes : list Z)
    (tags attr : gmap string string) (s : OSM_objects) :
  match fst (Way_init osm_id nodes tags attr s) with
  | Ok way =>
      Forall (fun i => is_Some (node_avl s !! i)) nodes /\
      way_id way = osm_id /\ nodeIDs way = nodes /\ way_nodes way = nodes /\
      way_tags way = tags
  | Raise e =>
      e = AttributeError /\ ~ Forall (fun i => is_Some (node_avl s !! i)) nodes
  end.
Proof.
  unfold Way_init. simpl.
  pose proof (way_init_loop_result nodes (bool_decide (is_Some (tags !! "highway"%string)))
                (mkWayInit Py.inf Py.inf Py.neg_inf Py.neg_inf [] None) s) as H.
  destruct (way_init_loop _ _ _ s) as [[st|e] s1]; simpl in *; [| done].
  destruct H as (Hall & Hobjs). by repeat split.
Qed.

(** The loop that [Way.__init__] has run for a street. *)
Lemma Way_init_street_loop (osm_id : Z) (nodes : list Z)
    (tags attr : gmap string string) (s s' : OSM_objects) (way : Way) :
  Way_init osm_id nodes tags attr s = (Ok way, s') ->
  is_Some (tags !! "highway"%string) ->
  exists st, way_init_loop nodes true
               (mkWayInit Py.inf Py.inf Py.neg_inf Py.neg_inf [] None) s = (Ok st, s').
Proof.
  unfold Way_init. simpl. intros H Hhw.
  rewrite bool_decide_eq_true_2 in H by done.
  destruct (way_init_loop nodes true _ s) as [[st|e] s1]; [| discriminate].
  injection H as _ <-. by exists st.
Qed.

(** When [Way.__init__] builds a street (a way with a [highway] tag), any two
    consecutive nodes of the way list each other as neighbours afterwards
    and no node loses a neighbour; when the way is no street the node tree
    is left as it was. *)
Theorem Way_init_neighbours (osm_id : Z) (nodes : list Z)
    (tags attr : gmap string string) (s s' : OSM_objects) (way : Way) :
  Way_init osm_id nodes tags attr s = (Ok way, s') ->
  match tags !! "highway"%string with
  | Some _ =>
      (forall (k : nat) (a b : Z),
          nodes !! k = Some a -> nodes !! S k = Some b ->
          exists na nb, node_avl s' !! a = Some na /\ node_avl s' !! b = Some nb /\
                        b ∈ neighbours na /\ a ∈ neighbours nb) /\
      (forall (j : Z) (n : Node),
          node_avl s !! j = Some n ->
          exists n', node_avl s' !! j = Some n' /\
                     forall x, x ∈ neighbours n -> x ∈ neighbours n')
  | None => s' = s
  end.
Proof.
  unfold Way_init. simpl. intros H.
  destruct (way_init_loop nodes _ _ s) as [[st|e] s1] eqn:Hloop; [| discriminate].
  injection H as _ <-.
  destruct (tags !! "highway"%string) as [h|] eqn:Eh.
  - rewrite bool_decide_eq_true_2 in Hloop by by eexists.
    apply way_init_loop_street in Hloop as (Hg & Hall); [| by intros l [=]].
    split; [| exact Hg]. intros k a b Ha Hb. by apply (Hall k a b).
  - rewrite bool_decide_eq_false_2 in Hloop by by intros [? [=]].
    pose proof (way_init_loop_plain nodes
                  (mkWayInit Py.inf Py.inf Py.neg_inf Py.neg_inf [] None) s) as Hs.
    by rewrite Hloop in Hs.
Qed.

Lemma Way_init_neighbours_witness :
  exists way s',
    Way_init 12 [2; 3] (Fixtures.highway "footway") ∅ Fixtures.address_store
      = (Ok way, s') /\
    exists na nb, node_avl s' !! 2 = Some na /\ node_avl s' !! 3 = Some nb /\
                  3 ∈ neighbours na /\ 2 ∈ neighbours nb.
Proof.
  destruct (Way_init 12 [2; 3] (Fixtures.highway "footway") ∅ Fixtures.address_store)
    as [[way|e] s'] eqn:E;
    [| apply (f_equal fst) in E; vm_compute in E; discriminate].
  exists way, s'. split; [reflexivity |].
  pose proof (Way_init_neighbours 12 [2; 3] (Fixtures.highway "footway") ∅
                Fixtures.address_store s' way E) as H.
  unfold Fixtures.highway in H. rewrite lookup_singleton_eq in H.
  destruct H as [H _]. by apply (H 0%nat 2 3).
Defined.

(** ** Connecting two nodes: the neighbour relation *)

Lemma set_partition_id_grow (i p : Z) (s : OSM_objects) :
  neighbours_grow s (update_node i (set_partition_id p) s).
Proof.
  intros j n Hn. simpl. destruct (decide (i = j)) as [-> | Hne].
  - rewrite lookup_alter_eq, Hn. simpl. by eexists.
  - rewrite lookup_alter_ne by done. by exists n.
Qed.

(** After a successful [connect_by_node(osm_object, a, b)] the two nodes list
    each other as neighbours, so that [a] counts as a street node from then
    on; no node has lost a neighbour and every way that existed is
    unchanged. *)
Theorem connect_by_node_neighbours (s s' : OSM_objects) (a b w : Z) (na nb : Node) :
  node_avl s !! a = Some na -> node_id na = a ->
  node_avl s !! b = Some nb -> node_id nb = b ->
  connect_by_node a b s = (Ok w, s') ->
  (exists na' nb', node_avl s' !! a = Some na' /\ node_avl s' !! b = Some nb' /\
                   b ∈ neighbours na' /\ a ∈ neighbours nb' /\
                   is_street_node na' = true) /\
  (forall (j : Z) (n : Node),
      node_avl s !! j = Some n ->
      exists n', node_avl s' !! j = Some n' /\
                 forall x, x ∈ neighbours n -> x ∈ neighbours n') /\
  (forall (k : Z) (way : Way), way_avl s !! k = Some way -> way_avl s' !! k = Some way).
Proof.
  intros Ha Ida Hb Idb Hcall.
  unfold connect_by_node in Hcall.
  unfold sbind at 1, read_node at 1, deref_node in Hcall. rewrite Ha in Hcall.
  unfold sbind at 1, read_node at 1, deref_node in Hcall. rewrite Hb in Hcall.
  rewrite Ida, Idb in Hcall. unfold sbind at 1 in Hcall.
  destruct (append_new_street _ [a; b] _ s) as [[k|e] s2] eqn:Happ; [| discriminate].
  apply append_new_street_Ok in Happ
    as (Hk & way & s0 & Hinit & (W0 & R0 & N0) & W2 & N2 & R2).
  destruct (Way_init_street_loop _ _ _ _ _ _ _ Hinit) as (st & Hloop);
    [rewrite lookup_singleton_eq; by eexists |].
  apply way_init_loop_street in Hloop as (Hgrow & Hadj); [| by intros l [=]].
  assert (Hfresh : way_avl s !! k = None).
  { apply eq_None_not_Some. intros Hsome.
    apply (find_new_key_fresh s k Hk). right. by left. }
  assert (Hadj2 : adjacent s2 a b).
  { destruct (Hadj 0%nat a b eq_refl eq_refl) as (x & y & Hx & Hy & H1 & H2).
    exists x, y. rewrite N2. by repeat split. }
  assert (Hg2 : neighbours_grow s s2).
  { intros j n Hn. rewrite N2. by apply Hgrow. }
  assert (Hways : forall s3, node_avl s3 = node_avl s2 \/
                             (exists p, node_avl s3 = node_avl (update_node a (set_partition_id p) s2)) ->
                             (exists f, way_avl s3 = alter f k (way_avl s2)) ->
                             adjacent s3 a b /\ neighbours_grow s s3 /\
                             forall j wy, way_avl s !! j = Some wy -> way_avl s3 !! j = Some wy).
  { intros s3 Hn3 (f & Hw3). split; [| split].
    - destruct Hn3 as [E | (p & E)].
      + destruct Hadj2 as (x & y & Hx & Hy & H1 & H2). exists x, y. rewrite E.
        by repeat split.
      + pose proof (adjacent_grow _ _ a b Hadj2 (set_partition_id_grow a p s2)) as
          (x & y & Hx & Hy & H1 & H2).
        exists x, y. rewrite E. by repeat split.
    - destruct Hn3 as [E | (p & E)].
      + intros j n Hn. rewrite E. by apply Hg2.
      + intros j n Hn. rewrite E.
        by apply (neighbours_grow_trans s s2 _ Hg2 (set_partition_id_grow a p s2)).
    - intros j wy Hj. rewrite Hw3, W2.
      assert (j <> k) by congruence.
      rewrite lookup_alter_ne, lookup_insert_ne by done. by rewrite W0. }
  assert (exists s3, s' = s3 /\
            (node_avl s3 = node_avl s2 \/
             exists p, node_avl s3 = node_avl (update_node a (set_partition_id p) s2)) /\
            exists f, way_avl s3 = alter f k (way_avl s2)) as (s3 & -> & Hn3 & Hw3).
  { unfold sbind at 1, read_node at 1, deref_node in Hcall.
    destruct (node_avl s2 !! a) as [na2|]; [| discriminate].
    destruct (0 <? partition_id na2)%Z.
    - simpl in Hcall. injection Hcall as _ <-. eexists. split; [done |].
      split; [by left | by eexists].
    - unfold sbind at 1, read_node at 1, deref_node in Hcall.
      destruct (node_avl s2 !! b) as [nb2|]; [| discriminate].
      simpl in Hcall. injection Hcall as _ <-. eexists. split; [done |].
      split; [right; by eexists | by eexists]. }
  destruct (Hways s3 Hn3 Hw3) as ((x & y & Hx & Hy & H1 & H2) & Hg3 & Hw).
  split; [| split; [exact Hg3 | exact Hw]].
  exists x, y. repeat split; try done.
  unfold is_street_node. rewrite bool_decide_eq_false_2; [done |].
  intros E. rewrite E in H1. by apply elem_of_nil in H1.
Qed.

Lemma connect_by_node_neighbours_witness :
  exists na' nb',
    node_avl (snd (connect_by_node 1 3 Fixtures.two_partitions_store)) !! 1 = Some na' /\
    node_avl (snd (connect_by_node 1 3 Fixtures.two_partitions_store)) !! 3 = Some nb' /\
    3 ∈ neighbours na' /\ 1 ∈ neighbours nb' /\ is_street_node na' = true.
Proof.
  destruct (node_avl Fixtures.two_partitions_store !! 1) as [na|] eqn:Ea;
    [| vm_compute in Ea; discriminate].
  destruct (node_avl Fixtures.two_partitions_store !! 3) as [nb|] eqn:Eb;
    [| vm_compute in Eb; discriminate].
  destruct (connect_by_node 1 3 Fixtures.two_partitions_store) as [[w|e] s'] eqn:E;
    [| apply (f_equal fst) in E; vm_compute in E; discriminate].
  simpl.
  refine (proj1 (connect_by_node_neighbours Fixtures.two_partitions_store s' 1 3 w na nb
                   Ea _ Eb _ E)).
  - vm_compute in Ea. injection Ea as <-. reflexivity.
  - vm_compute in Eb. injection Eb as <-. reflexivity.
Defined.

(** ** The largest partition *)

Lemma not_larger_refl (p : Partition) : not_larger p p.
Proof. right. split; lia. Qed.

Lemma not_larger_trans (p q r : Partition) :
  not_larger p q -> not_larger q r -> not_larger p r.
Proof. unfold not_larger. lia. Qed.

Lemma find_largest_loop_max (partitions : gmap Z Partition) (items : list (Z * Partition)) :
  (forall k p, (k, p) ∈ items -> partitions !! k = Some p) ->
  forall (mk : Z) (mp : Partition),
    partitions !! mk = Some mp ->
    exists k p,
      find_largest_loop partitions items mk (size (part_nodes mp)) = Ok k /\
      partitions !! k = Some p /\
      ((k, p) = (mk, mp) \/ (k, p) ∈ items) /\
      not_larger mp p /\
      forall k' p', (k', p') ∈ items -> not_larger p' p.
Proof.
  induction items as [|[k0 p0] rest IH]; intros Hitems mk mp Hmk; simpl.
  - exists mk, mp. split; [done |]. split; [done |]. split; [by left |].
    split; [apply not_larger_refl |]. intros k' p' Hin. by apply elem_of_nil in Hin.
  - assert (Hrest : forall k p, (k, p) ∈ rest -> partitions !! k = Some p).
    { intros k p Hin. apply Hitems. by right. }
    assert (Hk0 : partitions !! k0 = Some p0) by (apply Hitems; left).
    assert (Hnew : forall mk' mp',
               partitions !! mk' = Some mp' -> ((mk', mp') = (mk, mp) \/ (mk', mp') = (k0, p0)) ->
               not_larger mp mp' -> not_larger p0 mp' ->
               exists k p,
                 find_largest_loop partitions rest mk' (size (part_nodes mp')) = Ok k /\
                 partitions !! k = Some p /\
                 ((k, p) = (mk, mp) \/ (k, p) ∈ (k0, p0) :: rest) /\
                 not_larger mp p /\
                 forall k' p', (k', p') ∈ (k0, p0) :: rest -> not_larger p' p).
    { intros mk' mp' Hmk' Hwhich Hle Hle0.
      destruct (IH Hrest mk' mp' Hmk') as (k & p & Hrun & Hk & Hsrc & Hmp & Hall).
      exists k, p. split; [done |]. split; [done |]. split.
      - destruct Hsrc as [-> | Hin]; [| right; by right].
        destruct Hwhich as [-> | ->]; [by left | right; left].
      - split; [by eapply not_larger_trans |].
        intros k' p' Hin. apply elem_of_cons in Hin as [[= -> ->] | Hin];
          [by eapply not_larger_trans | by apply (Hall k')]. }
    destruct (size (part_nodes mp) <? size (part_nodes p0))%nat eqn:E1.
    + apply Nat.ltb_lt in E1.
      apply (Hnew k0 p0 Hk0); [by right | by left | apply not_larger_refl].
    + apply Nat.ltb_ge in E1.
      destruct (size (part_nodes p0) =? size (part_nodes mp))%nat eqn:E2.
      * apply Nat.eqb_eq in E2. rewrite Hmk.
        destruct (size (part_streets mp) <? size (part_streets p0))%nat eqn:E3.
        -- apply Nat.ltb_lt in E3. rewrite E2.
           replace (size (part_nodes mp)) with (size (part_nodes p0)) by done.
           apply (Hnew k0 p0 Hk0); [by right | | apply not_larger_refl].
           right. split; [done | lia].
        -- apply Nat.ltb_ge in E3.
           apply (Hnew mk mp Hmk); [by left | apply not_larger_refl |].
           right. split; [done | lia].
      * apply Nat.eqb_neq in E2.
        apply (Hnew mk mp Hmk); [by left | apply not_larger_refl |].
        left. lia.
Qed.

(** When the first partition the dictionary yields has at least one node,
    [find_largest_partition] returns the key of a partition of the
    dictionary that no other partition exceeds in its number of nodes, nor,
    at an equal number of nodes, in its number of streets. *)
Theorem find_largest_partition_maximal (partitions : gmap Z Partition)
    (k0 : Z) (p0 : Partition) (rest : list (Z * Partition)) :
  (forall k p, (k, p) ∈ (k0, p0) :: rest -> partitions !! k = Some p) ->
  part_nodes p0 <> ∅ ->
  exists k p,
    find_largest_loop partitions ((k0, p0) :: rest) 0 0 = Ok k /\
    (k, p) ∈ (k0, p0) :: rest /\
    forall k' p', (k', p') ∈ (k0, p0) :: rest ->
      (size (part_nodes p') < size (part_nodes p))%nat \/
      (size (part_nodes p') = size (part_nodes p) /\
       (size (part_streets p') <= size (part_streets p))%nat).
Proof.
  intros Hitems Hne. simpl.
  assert (Hpos : (0 < size (part_nodes p0))%nat).
  { destruct (size (part_nodes p0)) eqn:E; [| lia].
    apply size_empty_inv in E. by apply leibniz_equiv in E. }
  apply Nat.ltb_lt in Hpos. rewrite Hpos.
  destruct (find_largest_loop_max partitions rest) with (mk := k0) (mp := p0)
    as (k & p & Hrun & Hk & Hsrc & Hmp & Hall).
  { intros k p Hin. apply Hitems. by right. }
  { apply Hitems. left. }
  exists k, p. split; [done |]. split.
  - destruct Hsrc as [[= -> ->] | Hin]; [left | by right].
  - intros k' p' Hin. apply elem_of_cons in Hin as [[= -> ->] | Hin];
      [done | by apply (Hall k')].
Qed.

Lemma find_largest_partition_maximal_witness :
  let p1 := mkPartition 1 {[ 1; 2 ]} {[ 10 ]} None in
  let p2 := mkPartition 2 {[ 3; 4 ]} {[ 11; 12 ]} None in
  exists k p,
    find_largest_loop {[ 1 := p1; 2 := p2 ]} [(1, p1); (2, p2)] 0 0 = Ok k /\
    (k, p) ∈ [(1, p1); (2, p2)] /\
    forall k' p', (k', p') ∈ [(1, p1); (2, p2)] ->
      (size (part_nodes p') < size (part_nodes p))%nat \/
      (size (part_nodes p') = size (part_nodes p) /\
       (size (part_streets p') <= size (part_streets p))%nat).
Proof.
  intros p1 p2.
  apply (find_largest_partition_maximal {[ 1 := p1; 2 := p2 ]} 1 p1 [(2, p2)]).
  - intros k p Hin. apply elem_of_cons in Hin as [[= -> ->] | Hin]; [reflexivity |].
    apply elem_of_cons in Hin as [[= -> ->] | Hin]; [reflexivity |].
    by apply elem_of_nil in Hin.
  - intros E. apply (f_equal (fun x : gset Z => bool_decide (1 ∈ x))) in E.
    vm_compute in E. discriminate.
Defined.

(** [find_largest_partition] raises exactly when the first partition the
    dictionary yields has no node: [0] is no key of the dictionary, and the
    street count is then compared with that of [partitions.get(0)], which is
    [None].  The [AttributeError] of that call is the only exception. *)
Theorem find_largest_partition_raises (partitions : gmap Z Partition)
    (items : list (Z * Partition)) :
  partitions !! 0 = None ->
  (forall k p, (k, p) ∈ items -> partitions !! k = Some p) ->
  (find_largest_loop partitions items 0 0 = Raise AttributeError <->
   exists k0 p0 rest, items = (k0, p0) :: rest /\ part_nodes p0 = ∅) /\
  (forall e, find_largest_loop partitions items 0 0 = Raise e -> e = AttributeError).
Proof.
  intros H0 Hitems. destruct items as [|[k0 p0] rest].
  - simpl. split; [| discriminate]. split; [discriminate |].
    intros (k & p & r & [=] & _).
  - destruct (decide (part_nodes p0 = ∅)) as [Hempty | Hne].
    + assert (Hrun : find_largest_loop partitions ((k0, p0) :: rest) 0 0
                     = Raise AttributeError).
      { simpl. rewrite Hempty, size_empty. simpl. by rewrite H0. }
      rewrite Hrun. split; [| by intros e [= <-]].
      split; [| done]. intros _. by exists k0, p0, rest.
    + assert (Hpos : (0 < size (part_nodes p0))%nat).
      { destruct (size (part_nodes p0)) eqn:E; [| lia].
        apply size_empty_inv in E. by apply leibniz_equiv in E. }
      destruct (find_largest_loop_max partitions rest) with (mk := k0) (mp := p0)
        as (k & p & Hrun & _).
      { intros k p Hin. apply Hitems. by right. }
      { apply Hitems. left. }
      assert (Hok : find_largest_loop partitions ((k0, p0) :: rest) 0 0 = Ok k).
      { simpl. apply Nat.ltb_lt in Hpos. by rewrite Hpos. }
      rewrite Hok. split; [| discriminate]. split; [discriminate |].
      intros (k1 & p1 & r1 & [= -> -> ->] & Hempty). done.
Qed.

(** The case occurs: after [filter_streets(['service'])] on a residential
    street between two service roads, [breadth_first_search] leaves
    partition 1 without nodes, and [find_largest_partition] raises. *)
Lemma find_largest_partition_raises_witness :
  exists s pf p0,
    Cases.flanked_filtered = Ok s /\
    find_partitions 100 (all_streets s) s = Some (Ok pf) /\
    map_to_list (partitions pf) = [(1, p0)] /\
    partitions pf !! 0 = None /\ part_nodes p0 = ∅ /\
    find_largest_partition pf = Raise AttributeError.
Proof.
  destruct Cases.flanked_filtered as [s|e] eqn:Es; [| vm_compute in Es; discriminate].
  destruct (find_partitions 100 (all_streets s) s) as [[pf|e]|] eqn:Epf;
    [| vm_compute in Es; injection Es as <-; vm_compute in Epf; discriminate
     | vm_compute in Es; injection Es as <-; vm_compute in Epf; discriminate].
  destruct (map_to_list (partitions pf)) as [|[k0 p0] rest] eqn:Eitems.
  { vm_compute in Es. injection Es as <-. vm_compute in Epf. injection Epf as <-.
    vm_compute in Eitems. discriminate. }
  assert (H0 : partitions pf !! 0 = None).
  { vm_compute in Es. injection Es as <-. vm_compute in Epf. injection Epf as <-.
    reflexivity. }
  assert (E : k0 = 1 /\ rest = [] /\ part_nodes p0 = ∅).
  { vm_compute in Es. injection Es as <-. vm_compute in Epf. injection Epf as <-.
    vm_compute in Eitems. injection Eitems as <- <- <-. by repeat split. }
  destruct E as (-> & -> & Hempty).
  exists s, pf, p0. split; [reflexivity |]. split; [exact Epf |].
  split; [exact Eitems |]. split; [exact H0 |]. split; [exact Hempty |].
  unfold find_largest_partition. rewrite Eitems.
  apply (find_largest_partition_raises (partitions pf) [(1, p0)] H0).
  - intros k p Hin. apply elem_of_map_to_list. by rewrite Eitems.
  - by exists 1, p0, [].
Defined.

(** ** Streets outside a partition *)

(** [filter_streets_by_partition] returns, in their order, exactly the
    streets of the list that do not have the given partition id. *)
Theorem filter_streets_by_partition_complement (s : OSM_objects) (streets : list Z)
    (partition_id : Z) (kept : list Z) :
  filter_streets_by_partition s streets partition_id = Ok kept ->
  kept `sublist_of` streets /\
  forall street,
    street ∈ kept <->
    street ∈ streets /\
    exists w, way_avl s !! street = Some w /\ way_partition_id w <> partition_id.
Proof.
  revert kept. induction streets as [|street rest IH]; intros kept H; simpl in H.
  - injection H as <-. split; [done |]. intros st. split.
    + intros Hin. by apply elem_of_nil in Hin.
    + intros [Hin _]. by apply elem_of_nil in Hin.
  - apply rbind_Ok in H as (w & Hw & H). apply rbind_Ok in H as (tl & Htl & H).
    unfold deref_way in Hw. destruct (way_avl s !! street) as [w'|] eqn:Ew;
      [| discriminate]. injection Hw as ->.
    destruct (IH tl Htl) as (Hsub & Hiff). injection H as <-.
    destruct (way_partition_id w =? partition_id)%Z eqn:E; simpl.
    + apply Z.eqb_eq in E. split; [by apply sublist_cons |].
      intros st. rewrite Hiff, elem_of_cons. split.
      * intros (Hin & Hex). split; [by right | done].
      * intros ([-> | Hin] & (w2 & Hw2 & Hne)); [congruence |]. split; [done |].
        by exists w2.
    + apply Z.eqb_neq in E. split; [by apply sublist_skip |].
      intros st. rewrite !elem_of_cons, Hiff. split.
      * intros [-> | (Hin & Hex)]; [| split; [by right | done]].
        split; [by left | by exists w].
      * intros ([-> | Hin] & Hex); [by left | right; by split].
Qed.

Lemma filter_streets_by_partition_complement_witness :
  exists kept,
    filter_streets_by_partition Fixtures.two_partitions_store [10; 11] 0 = Ok kept /\
    kept `sublist_of` [10; 11] /\
    forall street,
      street ∈ kept <->
      street ∈ [10; 11] /\
      exists w, way_avl Fixtures.two_partitions_store !! street = Some w /\
                way_partition_id w <> 0.
Proof.
  destruct (filter_streets_by_partition Fixtures.two_partitions_store [10; 11] 0)
    as [kept|e] eqn:E; [| vm_compute in E; discriminate].
  exists kept. split; [reflexivity |].
  exact (filter_streets_by_partition_complement Fixtures.two_partitions_store
           [10; 11] 0 kept E).
Defined.

(** ** Labelling: what breadth-first search guarantees *)

Lemma labelling_step_refl (pf : PartitionFinder) : labelling_step pf pf.
Proof. by repeat split. Qed.

Lemma labelling_step_trans (pf1 pf2 pf3 : PartitionFinder) :
  labelling_step pf1 pf2 -> labelling_step pf2 pf3 -> labelling_step pf1 pf3.
Proof.
  intros (F1 & R1 & N1 & C1) (F2 & R2 & N2 & C2). split; [| split; [| split]].
  - intros j. by rewrite F2, F1.
  - auto.
  - intros j n Hn Hpos. apply N2; [by apply N1 | done].
  - auto.
Qed.

(** Relabelling a node that has no positive partition id. *)
Lemma relabel_step (pf : PartitionFinder) (node : Z) (n : Node) (p : Z) :
  node_avl (osm pf) !! node = Some n -> ~ 0 < partition_id n ->
  labelling_step pf (with_osm (update_node node (set_partition_id p)) pf).
Proof.
  intros Hn Hneg. split; [| split; [| split]].
  - done.
  - intros street (w & q & Hw & Hpos & Hq & Hin). by exists w, q.
  - intros j m Hm Hpos. simpl.
    destruct (decide (node = j)) as [-> | Hne]; [congruence |].
    by rewrite lookup_alter_ne.
  - done.
Qed.

(** Adding a node to a partition. *)
Lemma add_node_step (pf : PartitionFinder) (node k : Z) :
  labelling_step pf (with_partitions (alter (add_node node) k) pf).
Proof.
  split; [| split; [| split]]; [done | | done | done].
  intros street (w & q & Hw & Hpos & Hq & Hin). simpl.
  destruct (decide (k = way_partition_id w)) as [-> | Hne].
  - exists w, (add_node node q). split; [done |]. split; [done |].
    simpl. by rewrite lookup_alter_eq, Hq.
  - exists w, q. split; [done |]. split; [done |].
    simpl. by rewrite lookup_alter_ne.
Qed.

Lemma flood_step (fuel : nat) :
  forall (node_queue : list Z) (pf pf' : PartitionFinder),
    flood fuel node_queue pf = Some (Ok pf') -> labelling_step pf pf'.
Proof.
  induction fuel as [|fuel IH]; intros q pf pf' H.
  - destruct q; [| discriminate]. injection H as <-. apply labelling_step_refl.
  - destruct q as [|node queue]; [injection H as <-; apply labelling_step_refl |].
    simpl in H. unfold deref_node in H.
    destruct (node_avl (osm pf) !! node) as [n|] eqn:Hn; [| discriminate].
    destruct (0 <? partition_id n)%Z eqn:Hpos; [by eapply IH |].
    apply Z.ltb_ge in Hpos.
    destruct ((partition_id n =? -1)%Z && filtered n).
    + destruct (unfiltered_neighbours _ _) as [l|e]; [| discriminate].
      eapply labelling_step_trans; [| by eapply IH].
      apply (relabel_step pf node n); [done | lia].
    + destruct (filtered n); [by eapply IH |].
      destruct (partitions _ !! _) as [p|]; [| discriminate].
      eapply labelling_step_trans; [| by eapply IH].
      eapply labelling_step_trans; [| apply add_node_step].
      apply (relabel_step pf node n); [done | lia].
Qed.

(** Registering [street] in the partition [k]. *)
Lemma add_street_step (s : OSM_objects) (parts : gmap Z Partition) (c c' : Z)
    (street k : Z) (w : Way) (p : Partition) :
  way_avl s !! street = Some w -> 0 < k -> parts !! k = Some p ->
  (0 <= c -> 0 <= c') ->
  let pf' := mkFinder (update_way street (set_way_partition_id k) s)
                      (alter (add_street street (box w)) k parts) c' in
  labelling_step (mkFinder s parts c) pf' /\ registered pf' street.
Proof.
  intros Hw Hk Hp Hc pf'.
  assert (Hreg : registered pf' street).
  { exists (set_way_partition_id k w), (add_street street (box w) p). simpl.
    rewrite !lookup_alter_eq, Hw, Hp. simpl. split; [done |]. split; [done |].
    split; [done |]. apply elem_of_union. left. by apply elem_of_singleton. }
  split; [| exact Hreg]. split; [| split; [| split]].
  - intros j. simpl. destruct (decide (street = j)) as [-> | Hne].
    + rewrite lookup_alter_eq. by destruct (way_avl s !! j).
    + by rewrite lookup_alter_ne.
  - intros st (w' & q & Hw' & Hpos & Hq & Hin). simpl in *.
    destruct (decide (st = street)) as [-> | Hne]; [exact Hreg |].
    destruct (decide (k = way_partition_id w')) as [-> | Hnk].
    + exists w', (add_street street (box w) q). simpl.
      rewrite lookup_alter_ne by done. split; [done |]. split; [done |].
      rewrite lookup_alter_eq, Hq. split; [done |].
      simpl. apply elem_of_union. by right.
    + exists w', q. simpl. rewrite !lookup_alter_ne by done. done.
  - done.
  - done.
Qed.

Lemma breadth_first_search_step (fuel : nat) (streets : list Z) :
  forall (pf pf' : PartitionFinder),
    0 <= finder_partition_id pf ->
    breadth_first_search fuel streets pf = Some (Ok pf') ->
    labelling_step pf pf' /\
    forall street w, street ∈ streets -> way_avl (osm pf) !! street = Some w ->
                     way_filtered w = false -> registered pf' street.
Proof.
  induction streets as [|street rest IH]; intros pf pf' Hc H; simpl in H.
  - injection H as <-. split; [apply labelling_step_refl |].
    intros st w Hin. by apply elem_of_nil in Hin.
  - unfold deref_way in H.
    destruct (way_avl (osm pf) !! street) as [w|] eqn:Hw; [| discriminate].
    assert (Hcombine : forall pf2,
               labelling_step pf pf2 ->
               (way_filtered w = false -> registered pf2 street) ->
               breadth_first_search fuel rest pf2 = Some (Ok pf') ->
               labelling_step pf pf' /\
               forall st w', st ∈ street :: rest -> way_avl (osm pf) !! st = Some w' ->
                             way_filtered w' = false -> registered pf' st).
    { intros pf2 Hstep Hreg Hrun.
      destruct (IH pf2 pf') as (Hstep' & Hall); [by apply Hstep | done |].
      split; [by eapply labelling_step_trans |].
      intros st w' Hin Hw' Hnf. apply elem_of_cons in Hin as [-> | Hin].
      - assert (w' = w) as -> by congruence.
        destruct Hstep' as (_ & R & _). by apply R, Hreg.
      - destruct Hstep as (F & _). specialize (F st). rewrite Hw' in F. simpl in F.
        apply fmap_Some in F as (w2 & Hw2 & E).
        apply (Hall st w2); [done | done | congruence]. }
    destruct (way_filtered w) eqn:Hf.
    { apply (Hcombine pf); [apply labelling_step_refl | done | done]. }
    destruct (way_nodes w) as [|first ?] eqn:Enodes; [discriminate |].
    unfold deref_node in H.
    destruct (node_avl (osm pf) !! first) as [n0|] eqn:Hn0; [| discriminate].
    destruct pf as [s parts c]. simpl in *.
    destruct (0 <? partition_id n0)%Z eqn:Hpos.
    + apply Z.ltb_lt in Hpos.
      destruct (parts !! partition_id n0) as [p|] eqn:Hp; [| discriminate].
      destruct (add_street_step s parts c c street (partition_id n0) w p Hw Hpos Hp)
        as (Hstep & Hreg); [done |].
      by apply (Hcombine _ Hstep).
    + destruct (flood fuel _ _) as [[pf2|e]|] eqn:Hflood; [| discriminate | discriminate].
      apply flood_step in Hflood.
      set (parts1 := match parts !! (c + 1) with
                     | Some _ => parts
                     | None => <[c + 1 := Partition_init (c + 1)]> parts
                     end) in *.
      assert (exists p, parts1 !! (c + 1) = Some p) as (p & Hp).
      { subst parts1. destruct (parts !! (c + 1)) as [p|] eqn:E; [by exists p |].
        rewrite lookup_insert_eq. by eexists. }
      destruct (add_street_step s parts1 c (c + 1) street (c + 1) w p Hw) as (Hstep & Hreg);
        [lia | done | lia |].
      assert (Hfirst : labelling_step (mkFinder s parts c) (mkFinder s parts1 c)).
      { split; [| split; [| split]]; [done | | done | done].
        intros st (w' & q & Hw' & Hq0 & Hq & Hin). exists w', q. simpl in *.
        split; [done |]. split; [done |]. split; [| done].
        subst parts1. destruct (parts !! (c + 1)) eqn:E; [done |].
        rewrite lookup_insert_ne; [done | congruence]. }
      apply (Hcombine pf2).
      * eapply labelling_step_trans; [exact Hfirst |].
        eapply labelling_step_trans; [exact Hstep | exact Hflood].
      * intros _. destruct Hflood as (_ & R & _). by apply R.
      * done.
Qed.

(** When [breadth_first_search] returns, every street of its list that is
    not filtered has a positive partition id and is a member of the
    partition with that id, and every node that had a positive partition id
    before is unchanged. *)
Theorem breadth_first_search_registers (fuel : nat) (streets : list Z)
    (pf pf' : PartitionFinder) :
  0 <= finder_partition_id pf ->
  breadth_first_search fuel streets pf = Some (Ok pf') ->
  (forall (street : Z) (w : Way),
      street ∈ streets -> way_avl (osm pf) !! street = Some w ->
      way_filtered w = false ->
      exists w' p, way_avl (osm pf') !! street = Some w' /\
                   0 < way_partition_id w' /\
                   partitions pf' !! way_partition_id w' = Some p /\
                   street ∈ part_streets p) /\
  (forall (j : Z) (n : Node),
      node_avl (osm pf) !! j = Some n -> 0 < partition_id n ->
      node_avl (osm pf') !! j = Some n).
Proof.
  intros Hc H. apply breadth_first_search_step in H as ((_ & _ & N & _) & Hall); [| done].
  split; [| exact N]. intros street w Hin Hw Hf. by apply (Hall street w).
Qed.

Lemma breadth_first_search_registers_witness :
  exists s pf',
    Fixtures.service_filtered = Ok s /\
    breadth_first_search 100 (all_streets s) (mkFinder s ∅ 0) = Some (Ok pf') /\
    (forall (street : Z) (w : Way),
        street ∈ all_streets s -> way_avl s !! street = Some w ->
        way_filtered w = false ->
        exists w' p, way_avl (osm pf') !! street = Some w' /\
                     0 < way_partition_id w' /\
                     partitions pf' !! way_partition_id w' = Some p /\
                     street ∈ part_streets p).
Proof.
  destruct Fixtures.service_filtered as [s|e] eqn:Es; [| vm_compute in Es; discriminate].
  destruct (breadth_first_search 100 (all_streets s) (mkFinder s ∅ 0))
    as [[pf'|e]|] eqn:E;
    [| vm_compute in Es; injection Es as <-; vm_compute in E; discriminate
     | vm_compute in Es; injection Es as <-; vm_compute in E; discriminate].
  exists s, pf'. split; [reflexivity |]. split; [exact E |].
  exact (proj1 (breadth_first_search_registers 100 (all_streets s) (mkFinder s ∅ 0) pf'
                  ltac:(simpl; lia) E)).
Defined.

(** ** Merging partitions *)

Lemma foldl_update_node (f : Node -> Node) (l : list Z) :
  (forall n, f (f n) = f n) ->
  forall (s : OSM_objects) (j : Z),
    node_avl (foldl (fun acc node => update_node node f acc) s l) !! j
    = (if bool_decide (j ∈ l) then f else id) <$> node_avl s !! j.
Proof.
  intros Hf. induction l as [|x l IH]; intros s j; simpl.
  - by destruct (node_avl s !! j).
  - rewrite IH. simpl. destruct (decide (x = j)) as [-> | Hne].
    + rewrite lookup_alter_eq. rewrite (bool_decide_eq_true_2 (j ∈ j :: l)) by left.
      destruct (node_avl s !! j) as [n|]; simpl; [| done].
      destruct (bool_decide (j ∈ l)); simpl; by rewrite ?Hf.
    + rewrite lookup_alter_ne by done.
      assert (bool_decide (j ∈ x :: l) = bool_decide (j ∈ l)) as ->; [| done].
      apply bool_decide_ext. rewrite elem_of_cons.
      split; [intros [E | H]; [congruence | done] | by right].
Qed.

Lemma foldl_update_way (f : Way -> Way) (l : list Z) :
  (forall w, f (f w) = f w) ->
  forall (s : OSM_objects) (j : Z),
    way_avl (foldl (fun acc street => update_way street f acc) s l) !! j
    = (if bool_decide (j ∈ l) then f else id) <$> way_avl s !! j.
Proof.
  intros Hf. induction l as [|x l IH]; intros s j; simpl.
  - by destruct (way_avl s !! j).
  - rewrite IH. simpl. destruct (decide (x = j)) as [-> | Hne].
    + rewrite lookup_alter_eq. rewrite (bool_decide_eq_true_2 (j ∈ j :: l)) by left.
      destruct (way_avl s !! j) as [n|]; simpl; [| done].
      destruct (bool_decide (j ∈ l)); simpl; by rewrite ?Hf.
    + rewrite lookup_alter_ne by done.
      assert (bool_decide (j ∈ x :: l) = bool_decide (j ∈ l)) as ->; [| done].
      apply bool_decide_ext. rewrite elem_of_cons.
      split; [intros [E | H]; [congruence | done] | by right].
Qed.

Lemma foldl_update_node_ways (f : Node -> Node) (l : list Z) (s : OSM_objects) :
  way_avl (foldl (fun acc node => update_node node f acc) s l) = way_avl s.
Proof. revert s. induction l as [|x l IH]; intros s; simpl; [done | by rewrite IH]. Qed.

Lemma foldl_update_way_nodes (f : Way -> Way) (l : list Z) (s : OSM_objects) :
  node_avl (foldl (fun acc street => update_way street f acc) s l) = node_avl s.
Proof. revert s. induction l as [|x l IH]; intros s; simpl; [done | by rewrite IH]. Qed.

(** [append_partition] gives every node and every street of the other
    partition the id of this partition and changes no other node or way,
    and this partition then holds the members of both; this also holds when
    the call raises [TypeError], which it does exactly when one of the two
    partitions has no bounding box. *)
Theorem append_partition_relabels (self : Z) (this other : Partition)
    (pf pf' : PartitionFinder) (r : result unit) :
  partitions pf !! self = Some this ->
  append_partition self other pf = (r, pf') ->
  (forall j, node_avl (osm pf') !! j
             = (if bool_decide (j ∈ part_nodes other)
                then set_partition_id (part_id this) else id) <$> node_avl (osm pf) !! j) /\
  (forall j, way_avl (osm pf') !! j
             = (if bool_decide (j ∈ part_streets other)
                then set_way_partition_id (part_id this) else id)
               <$> way_avl (osm pf) !! j) /\
  (exists merged,
      partitions pf' !! self = Some merged /\ part_id merged = part_id this /\
      part_nodes merged = part_nodes this ∪ part_nodes other /\
      part_streets merged = part_streets this ∪ part_streets other) /\
  r = (if bool_decide (is_Some (part_box this) /\ is_Some (part_box other))
       then Ok tt else Raise TypeError).
Proof.
  intros Hself H. unfold append_partition in H. rewrite Hself in H.
  assert (Hnodes : forall osm2,
             osm2 = foldl (fun acc street =>
                             update_way street (set_way_partition_id (part_id this)) acc)
                      (foldl (fun acc node =>
                                update_node node (set_partition_id (part_id this)) acc)
                         (osm pf) (elements (part_nodes other)))
                      (elements (part_streets other)) ->
             (forall j, node_avl osm2 !! j
                        = (if bool_decide (j ∈ part_nodes other)
                           then set_partition_id (part_id this) else id)
                          <$> node_avl (osm pf) !! j) /\
             (forall j, way_avl osm2 !! j
                        = (if bool_decide (j ∈ part_streets other)
                           then set_way_partition_id (part_id this) else id)
                          <$> way_avl (osm pf) !! j)).
  { intros osm2 ->. split; intros j.
    - rewrite foldl_update_way_nodes, foldl_update_node by done.
      assert (bool_decide (j ∈ elements (part_nodes other))
              = bool_decide (j ∈ part_nodes other)) as ->; [| done].
      apply bool_decide_ext, elem_of_elements.
    - rewrite foldl_update_way by done. rewrite foldl_update_node_ways.
      assert (bool_decide (j ∈ elements (part_streets other))
              = bool_decide (j ∈ part_streets other)) as ->; [| done].
      apply bool_decide_ext, elem_of_elements. }
  destruct (Hnodes _ eq_refl) as (HN & HW).
  destruct (part_box this) as [b1|] eqn:E1; [destruct (part_box other) as [b2|] eqn:E2 |];
    injection H as <- <-.
  - split; [exact HN |]. split; [exact HW |]. split.
    + eexists. cbn [partitions]. rewrite lookup_insert_eq. by repeat split.
    + rewrite bool_decide_eq_true_2; [done |]. split; by eexists.
  - split; [exact HN |]. split; [exact HW |]. split.
    + eexists. cbn [partitions]. rewrite lookup_insert_eq. by repeat split.
    + rewrite bool_decide_eq_false_2; [done |]. intros [_ [? [=]]].
  - split; [exact HN |]. split; [exact HW |]. split.
    + eexists. cbn [partitions]. rewrite lookup_insert_eq. by repeat split.
    + rewrite bool_decide_eq_false_2; [done |]. intros [[? [=]] _].
Qed.

Lemma append_partition_relabels_witness :
  exists this other r pf',
    partitions Cases.two_partitions !! 1 = Some this /\
    partitions Cases.two_partitions !! 2 = Some other /\
    append_partition 1 other Cases.two_partitions = (r, pf') /\
    r = Ok tt /\
    partition_id <$> node_avl (osm pf') !! 1 = Some 1 /\
    way_partition_id <$> way_avl (osm pf') !! 10 = Some 1.
Proof.
  destruct (partitions Cases.two_partitions !! 1) as [this|] eqn:E1;
    [| vm_compute in E1; discriminate].
  destruct (partitions Cases.two_partitions !! 2) as [other|] eqn:E2;
    [| vm_compute in E2; discriminate].
  destruct (append_partition 1 other Cases.two_partitions) as [r pf'] eqn:E.
  exists this, other, r, pf'. split; [reflexivity |]. split; [reflexivity |].
  split; [exact E |].
  destruct (append_partition_relabels 1 this other Cases.two_partitions pf' r E1 E)
    as (HN & HW & _ & Hr).
  vm_compute in E1. injection E1 as <-. vm_compute in E2. injection E2 as <-.
  split; [rewrite Hr; reflexivity |]. split.
  - rewrite HN. vm_compute. reflexivity.
  - rewrite HW. vm_compute. reflexivity.
Defined.

(** ** Marking a point of interest *)

Lemma set_poi_Ok (node state : Z) (s s' : OSM_objects) (r : result unit) :
  set_poi node state s = (r, s') ->
  match node_avl s !! node with
  | Some n =>
      r = Ok tt /\
      s' = with_poi_set ({[ node ]} ∪ poi_set s)
             (update_node node (set_poi_field state) s)
  | None => r = Raise AttributeError /\ s' = s
  end.
Proof.
  unfold set_poi, sbind, read_node, deref_node.
  destruct (node_avl s !! node); simpl; by intros [= <- <-].
Qed.

Lemma set_poi_marks (node state : Z) (s s' : OSM_objects) :
  set_poi node state s = (Ok tt, s') ->
  node ∈ poi_set s' /\
  exists n, node_avl s' !! node = Some n /\ poi n = state.
Proof.
  intros H. apply set_poi_Ok in H.
  destruct (node_avl s !! node) as [n|] eqn:Hn; [| by destruct H].
  destruct H as (_ & ->). simpl. split.
  - apply elem_of_union. left. by apply elem_of_singleton.
  - rewrite lookup_alter_eq, Hn. simpl. by eexists.
Qed.

(** Whenever the loop body of [connect_poi] returns for a node, the node is
    in the POI set and is marked as connected or as not connected, never
    left as selected.  For a node that already is a street node, and for a
    node without any street in its search box, nothing but this mark
    changes in the store. *)
Theorem connect_poi_node_marks
    (GEOD_inv : float -> float -> float -> float -> option (float * float * float))
    (GEOD_fwd : float -> float -> float -> float -> float * float * float)
    (utm : float -> float -> float * float)
    (round7 : float -> float)
    (search_threshold projection_threshold address_threshold : Z)
    (poi_node : Z) (s s' : OSM_objects) :
  connect_poi_node GEOD_inv GEOD_fwd utm round7
    search_threshold projection_threshold address_threshold poi_node s = (Ok tt, s') ->
  poi_node ∈ poi_set s' /\
  (exists n, node_avl s' !! poi_node = Some n /\
             (poi n = POI_CONNECTED \/ poi n = POI_NOT_CONNECTED)) /\
  (forall p, node_avl s !! poi_node = Some p ->
             is_street_node p = true \/
             get_adjacent_streets GEOD_fwd s p search_threshold = [] ->
             s' = with_poi_set ({[ poi_node ]} ∪ poi_set s)
                    (update_node poi_node
                       (set_poi_field (if is_street_node p then POI_CONNECTED
                                       else POI_NOT_CONNECTED)) s)).
Proof.
  unfold connect_poi_node. unfold sbind at 1, read_node at 1, deref_node.
  destruct (node_avl s !! poi_node) as [p|] eqn:Hp; [| discriminate].
  destruct (is_street_node p) eqn:Hstreet.
  - intros H. destruct (set_poi_marks _ _ _ _ H) as (Hin & n & Hn & Hpoi).
    split; [done |]. split; [exists n; split; [done | by left] |].
    intros p' [= <-] _. apply set_poi_Ok in H. rewrite Hp in H. destruct H as [_ ->]. by rewrite Hstreet.
  - unfold sbind at 1. unfold sbind at 1.
    destruct (get_adjacent_streets GEOD_fwd s p search_threshold) as [|st sts] eqn:Hs.
    + simpl. intros H. destruct (set_poi_marks _ _ _ _ H) as (Hin & n & Hn & Hpoi).
      split; [done |]. split; [exists n; split; [done | by right] |].
      intros p' [= <-] _. apply set_poi_Ok in H. rewrite Hp in H. destruct H as [_ ->]. by rewrite Hstreet.
    + match goal with
      | |- context [match ?big s with _ => _ end] =>
          destruct (big s) as [[[w|]|e] s1]
      end; [| | discriminate].
      * intros H. destruct (set_poi_marks _ _ _ _ H) as (Hin & n & Hn & Hpoi).
        split; [done |]. split; [exists n; split; [done | by left] |].
        intros p' [= <-] [? | ?]; congruence.
      * intros H. destruct (set_poi_marks _ _ _ _ H) as (Hin & n & Hn & Hpoi).
        split; [done |]. split; [exists n; split; [done | by right] |].
        intros p' [= <-] [? | ?]; congruence.
Qed.

Lemma connect_poi_node_marks_witness :
  exists s' n,
    connect_poi_node Planar.inv Planar.fwd Planar.utm Planar.round7 10 0 0 1
      Fixtures.same_lon_store = (Ok tt, s') /\
    1 ∈ poi_set s' /\ node_avl s' !! 1 = Some n /\
    (poi n = POI_CONNECTED \/ poi n = POI_NOT_CONNECTED).
Proof.
  destruct (connect_poi_node Planar.inv Planar.fwd Planar.utm Planar.round7 10 0 0 1
              Fixtures.same_lon_store) as [[[]|e] s'] eqn:E;
    [| apply (f_equal fst) in E; vm_compute in E; discriminate].
  destruct (connect_poi_node_marks Planar.inv Planar.fwd Planar.utm Planar.round7
              10 0 0 1 Fixtures.same_lon_store s' E) as (Hin & (n & Hn & Hpoi) & _).
  exists s', n. by repeat split.
Defined.

(** ** Inserting a node into a street *)

Lemma list_index_from_Ok (x : Z) (l : list Z) (start : nat) :
  forall (pos i : nat),
    list_index_from x l pos start = Ok i ->
    exists k, i = (pos + k)%nat /\ l !! k = Some x /\ (start <= i)%nat /\
              forall k', (start <= pos + k')%nat -> (k' < k)%nat -> l !! k' <> Some x.
Proof.
  induction l as [|y l IH]; intros pos i H; simpl in H; [discriminate |].
  destruct ((start <=? pos)%nat && bool_decide (y = x)) eqn:E.
  - injection H as <-. apply andb_true_iff in E as [E1 E2].
    apply Nat.leb_le in E1. apply bool_decide_eq_true_1 in E2 as ->.
    exists 0%nat. split; [lia |]. split; [done |]. split; [done |]. intros; lia.
  - destruct (IH _ _ H) as (k & -> & Hk & Hstart & Hmin).
    exists (S k). split; [lia |]. split; [done |]. split; [lia |].
    intros [|k'] Hs Hlt; simpl.
    + intros [= ->]. apply andb_false_iff in E as [E | E].
      * apply Nat.leb_gt in E. lia.
      * by apply bool_decide_eq_false_1 in E.
    + apply Hmin; lia.
Qed.

Lemma list_index_Ok (x : Z) (l : list Z) (start i : nat) :
  list_index x l start = Ok i ->
  l !! i = Some x /\ (start <= i)%nat /\
  forall k, (start <= k < i)%nat -> l !! k <> Some x.
Proof.
  intros H. apply list_index_from_Ok in H as (k & -> & Hk & Hs & Hmin).
  simpl. split; [done |]. split; [done |]. intros k' Hk'. apply Hmin; lia.
Qed.

Lemma list_insert_at_splice (l : list Z) (i : nat) (a b x : Z) :
  l !! i = Some a -> l !! S i = Some b ->
  exists l1 l2, l = l1 ++ a :: b :: l2 /\ length l1 = i /\
                list_insert_at (S i) x l = l1 ++ a :: x :: b :: l2.
Proof.
  intros Ha Hb. exists (take i l), (drop (S (S i)) l).
  assert (E : l = take i l ++ a :: b :: drop (S (S i)) l).
  { rewrite <- (take_drop i l) at 1. f_equal.
    rewrite (drop_S _ _ _ Ha). f_equal. by rewrite (drop_S _ _ _ Hb). }
  split; [exact E |]. split.
  - apply length_take_le. apply lookup_lt_Some in Ha. lia.
  - unfold list_insert_at. rewrite (take_S_r _ _ _ Ha), (drop_S _ _ _ Hb).
    by rewrite <- app_assoc.
Qed.

Lemma list_remove_keeps (y : Z) (l l' : list Z) (x : Z) :
  list_remove y l = Ok l' -> x ∈ l -> x <> y -> x ∈ l'.
Proof.
  revert l'. induction l as [|z l IH]; intros l' H Hin Hne; simpl in H; [discriminate |].
  destruct (bool_decide (z = y)) eqn:E.
  - injection H as <-. apply bool_decide_eq_true_1 in E as ->.
    apply elem_of_cons in Hin as [-> | Hin]; [done | done].
  - apply rbind_Ok in H as (l'' & Hl'' & H). injection H as <-.
    apply elem_of_cons in Hin as [-> | Hin]; [left | right; by apply IH].
Qed.

Lemma remove_neighbour_Ok (i y : Z) (s s' : OSM_objects) :
  remove_neighbour i y s = (Ok tt, s') ->
  exists n l, node_avl s !! i = Some n /\ list_remove y (neighbours n) = Ok l /\
              s' = update_node i (set_neighbours l) s.
Proof.
  unfold remove_neighbour, sbind, read_node, deref_node.
  destruct (node_avl s !! i) as [n|]; [| discriminate]. simpl.
  destruct (list_remove y (neighbours n)) as [l|e] eqn:El; [| discriminate].
  intros [= <-]. by exists n, l.
Qed.

Lemma has_neighbour_append_new (s : OSM_objects) (i x : Z) :
  is_Some (node_avl s !! i) ->
  has_neighbour (update_node i (append_neighbour x) s) i x.
Proof.
  intros [n Hn]. exists (append_neighbour x n).
  split; [by apply update_node_lookup |]. simpl. apply elem_of_app. right. by left.
Qed.

Lemma has_neighbour_append_keep (s : OSM_objects) (i y j x : Z) :
  has_neighbour s j x -> has_neighbour (update_node i (append_neighbour y) s) j x.
Proof.
  intros (n & Hn & Hin). destruct (update_node_grow i y s j n Hn) as (n' & Hn' & Hsub).
  exists n'. split; [done | by apply Hsub].
Qed.

Lemma has_neighbour_remove_keep (s s' : OSM_objects) (i y j x : Z) :
  remove_neighbour i y s = (Ok tt, s') ->
  has_neighbour s j x -> x <> y -> has_neighbour s' j x.
Proof.
  intros H (n & Hn & Hin) Hne.
  apply remove_neighbour_Ok in H as (ni & l & Hi & Hl & ->).
  destruct (decide (i = j)) as [-> | Hij].
  - assert (ni = n) as -> by congruence.
    exists (set_neighbours l n). split; [by apply update_node_lookup |].
    simpl. by eapply list_remove_keeps.
  - exists n. split; [| done]. simpl. by rewrite lookup_alter_ne.
Qed.

Lemma update_node_is_Some (i : Z) (f : Node -> Node) (s : OSM_objects) (j : Z) :
  is_Some (node_avl (update_node i f s) !! j) <-> is_Some (node_avl s !! j).
Proof.
  simpl. destruct (decide (i = j)) as [-> | Hne].
  - rewrite lookup_alter_eq. apply fmap_is_Some.
  - by rewrite lookup_alter_ne.
Qed.

Lemma adjacent_of_has (s : OSM_objects) (a b : Z) :
  has_neighbour s a b -> has_neighbour s b a -> adjacent s a b.
Proof. intros (na & Ha & Hab) (nb & Hb & Hba). by exists na, nb. Qed.

(** The six neighbour updates at the end of [Way.insert_node]. *)
Lemma relink_adjacent (a b node : Z) (s s' : OSM_objects) :
  sbind (remove_neighbour a b) (fun _ =>
    sbind (modify (update_node a (append_neighbour node))) (fun _ =>
      sbind (remove_neighbour b a) (fun _ =>
        sbind (modify (update_node b (append_neighbour node))) (fun _ =>
          sbind (modify (update_node node (append_neighbour a))) (fun _ =>
            modify (update_node node (append_neighbour b))))))) s = (Ok tt, s') ->
  is_Some (node_avl s !! node) -> node <> a -> node <> b ->
  adjacent s' a node /\ adjacent s' node b /\ way_avl s' = way_avl s.
Proof.
  intros H Hnode Hna Hnb.
  unfold sbind at 1 in H.
  destruct (remove_neighbour a b s) as [[[]|e] s2] eqn:R1; [| discriminate].
  simpl in H.
  set (s3 := update_node a (append_neighbour node) s2) in H.
  destruct (remove_neighbour b a s3) as [[[]|e] s4] eqn:R2; [| discriminate].
  injection H as <-.
  pose proof (remove_neighbour_Ok _ _ _ _ R1) as (na & la & Ha & _ & E2).
  pose proof (remove_neighbour_Ok _ _ _ _ R2) as (nb & lb & Hb & _ & E4).
  assert (Ha2 : is_Some (node_avl s2 !! a)).
  { rewrite E2. apply update_node_is_Some. by eexists. }
  assert (Hb4 : is_Some (node_avl s4 !! b)).
  { rewrite E4. apply update_node_is_Some. by eexists. }
  assert (Hn5 : is_Some (node_avl (update_node b (append_neighbour node) s4) !! node)).
  { apply update_node_is_Some. rewrite E4. apply update_node_is_Some.
    subst s3. apply update_node_is_Some. rewrite E2. by apply update_node_is_Some. }
  assert (H1 : has_neighbour s3 a node) by (by apply has_neighbour_append_new).
  assert (H2 : has_neighbour s4 a node).
  { by apply (has_neighbour_remove_keep s3 s4 b a a node R2). }
  set (s5 := update_node b (append_neighbour node) s4) in *.
  set (s6 := update_node node (append_neighbour a) s5).
  assert (Hn6 : is_Some (node_avl s6 !! node)) by (by apply update_node_is_Some).
  assert (K1 : has_neighbour (update_node node (append_neighbour b) s6) a node).
  { by do 3 apply has_neighbour_append_keep. }
  assert (K2 : has_neighbour (update_node node (append_neighbour b) s6) node a).
  { apply has_neighbour_append_keep. by apply has_neighbour_append_new. }
  assert (K3 : has_neighbour (update_node node (append_neighbour b) s6) node b).
  { by apply has_neighbour_append_new. }
  assert (K4 : has_neighbour (update_node node (append_neighbour b) s6) b node).
  { do 2 apply has_neighbour_append_keep. by apply has_neighbour_append_new. }
  split; [by apply adjacent_of_has |]. split; [by apply adjacent_of_has |].
  subst s6 s5. simpl. rewrite E4. subst s3. simpl. by rewrite E2.
Qed.

(** A successful [Way.insert_node(segment_start, segment_end, node)] on a
    street puts the node between the two segment nodes, which were
    consecutive in the way (at the first occurrence of the start node), and
    makes it a neighbour of both. *)
Theorem insert_node_splices (street segment_start segment_end node : Z)
    (s s' : OSM_objects) :
  node <> segment_start -> node <> segment_end ->
  insert_node street segment_start segment_end node s = (Ok tt, s') ->
  exists w w' l1 l2,
    way_avl s !! street = Some w /\
    way_avl s' !! street = Some w' /\
    way_nodes w = l1 ++ segment_start :: segment_end :: l2 /\
    (segment_start ∉ l1) /\
    way_nodes w' = l1 ++ segment_start :: node :: segment_end :: l2 /\
    length (nodeIDs w') = S (length (nodeIDs w)) /\
    adjacent s' segment_start node /\ adjacent s' node segment_end.
Proof.
  intros Hns Hne H. unfold insert_node in H.
  unfold sbind at 1, read_way at 1, deref_way in H.
  destruct (way_avl s !! street) as [w|] eqn:Hw; [| discriminate].
  unfold sbind at 1, read_node at 1, deref_node in H.
  destruct (node_avl s !! segment_start) as [ss|] eqn:Hss; [| discriminate].
  unfold sbind at 1, lift at 1 in H.
  destruct (list_index (node_id ss) (nodeIDs w) 0) as [index_start|e] eqn:Is;
    [| discriminate].
  unfold sbind at 1, read_node at 1, deref_node in H.
  destruct (node_avl s !! segment_end) as [se|] eqn:Hse; [| discriminate].
  unfold sbind at 1, lift at 1 in H.
  destruct (list_index (node_id se) (nodeIDs w) 1) as [index_end|e] eqn:Ie;
    [| discriminate].
  unfold sbind at 1, lift at 1 in H.
  destruct (list_index segment_start (way_nodes w) 0) as [obj_start|e] eqn:Os;
    [| discriminate].
  destruct (index_start =? obj_start)%nat eqn:E1; [| discriminate].
  cbv beta iota delta [negb] in H. unfold sbind at 1, lift at 1 in H.
  destruct (list_index segment_end (way_nodes w) 1) as [obj_end|e] eqn:Oe;
    [| discriminate].
  destruct (index_end =? obj_end)%nat eqn:E2; [| discriminate].
  destruct (Z.of_nat index_start =? Z.of_nat index_end - 1)%Z eqn:E3; [| discriminate].
  cbv beta iota delta [negb] in H.
  apply Nat.eqb_eq in E1, E2. apply Z.eqb_eq in E3. subst obj_start obj_end.
  assert (index_end = S index_start) as -> by lia.
  unfold sbind at 1, read_node at 1, deref_node in H.
  destruct (node_avl s !! node) as [nd|] eqn:Hnd; [| discriminate].
  unfold sbind at 1, modify at 1 in H.
  apply list_index_Ok in Os as (Hs1 & _ & Hfirst).
  apply list_index_Ok in Oe as (He1 & _ & _).
  apply list_index_Ok in Is as (Hids & _ & _).
  destruct (list_insert_at_splice (way_nodes w) index_start segment_start segment_end
              node Hs1 He1) as (l1 & l2 & El & Hlen & Eins).
  apply relink_adjacent in H as (Hadj1 & Hadj2 & Hways); [| | done | done].
  - eexists w, _, l1, l2. split; [done |]. split.
    { rewrite Hways. simpl. by rewrite lookup_alter_eq, Hw. }
    split; [exact El |]. split.
    { intros Hin. apply list_elem_of_lookup in Hin as (k & Hk).
      apply (Hfirst k).
      - apply lookup_lt_Some in Hk. lia.
      - rewrite El, lookup_app_l; [done |]. by apply lookup_lt_Some in Hk. }
    split; [exact Eins |]. split; [| done].
    simpl. unfold list_insert_at.
    rewrite length_app. simpl. rewrite length_take, length_drop.
    apply lookup_lt_Some in Hids. lia.
  - simpl. by eexists.
Qed.

Lemma insert_node_splices_witness :
  exists s' w w' l1 l2,
    insert_node 10 2 3 9 Cases.splice_store = (Ok tt, s') /\
    way_avl Cases.splice_store !! 10 = Some w /\
    way_avl s' !! 10 = Some w' /\
    way_nodes w = l1 ++ 2 :: 3 :: l2 /\
    (2 ∉ l1) /\
    way_nodes w' = l1 ++ 2 :: 9 :: 3 :: l2 /\
    length (nodeIDs w') = S (length (nodeIDs w)) /\
    adjacent s' 2 9 /\ adjacent s' 9 3.
Proof.
  destruct (insert_node 10 2 3 9 Cases.splice_store) as [[[]|e] s'] eqn:E;
    [| apply (f_equal fst) in E; vm_compute in E; discriminate].
  destruct (insert_node_splices 10 2 3 9 Cases.splice_store s' ltac:(lia) ltac:(lia) E)
    as (w & w' & l1 & l2 & H).
  exists s', w, w', l1, l2. split; [reflexivity | exact H].
Defined.

(** ** Labelling terminates *)

Lemma pending_relabel (s : OSM_objects) (node : Z) (n : Node) (p : Z) :
  node_avl s !! node = Some n -> (0 <? partition_id n)%Z = false -> 0 < p ->
  (pending (update_node node (set_partition_id p) s) + length (neighbours n))%nat
  = pending s.
Proof.
  intros Hn Hneg Hp. unfold pending. simpl.
  rewrite <- (insert_delete_id (node_avl s) node n Hn) at 2.
  rewrite (alter_alt_Some _ _ _ _ Hn).
  rewrite <- (insert_delete_eq (node_avl s)).
  rewrite !map_to_list_insert by apply lookup_delete_eq.
  simpl. rewrite Hneg. apply Z.ltb_lt in Hp. rewrite Hp. lia.
Qed.

Lemma unfiltered_neighbours_length (s : OSM_objects) (ns l : list Z) :
  unfiltered_neighbours s ns = Ok l -> (length l <= length ns)%nat.
Proof.
  revert l. induction ns as [|x ns IH]; intros l H; simpl in H.
  - injection H as <-. done.
  - apply rbind_Ok in H as (n & _ & H). apply rbind_Ok in H as (tl & Htl & H).
    injection H as <-. specialize (IH tl Htl).
    destruct (negb (filtered n)); simpl; lia.
Qed.

(** One run of the [while] loop changes no way and no partition counter,
    and leaves no more work than it found. *)
Lemma flood_keeps (fuel : nat) :
  forall (node_queue : list Z) (pf pf' : PartitionFinder),
    0 < finder_partition_id pf ->
    flood fuel node_queue pf = Some (Ok pf') ->
    way_avl (osm pf') = way_avl (osm pf) /\
    finder_partition_id pf' = finder_partition_id pf /\
    (pending (osm pf') <= pending (osm pf))%nat.
Proof.
  induction fuel as [|fuel IH]; intros q pf pf' Hc H.
  - destruct q; [| discriminate]. by injection H as <-.
  - destruct q as [|node queue]; [by injection H as <- |].
    simpl in H. unfold deref_node in H.
    destruct (node_avl (osm pf) !! node) as [n|] eqn:Hn; [| discriminate].
    destruct (0 <? partition_id n)%Z eqn:Hpos; [by eapply IH |].
    pose proof (pending_relabel (osm pf) node n (finder_partition_id pf) Hn Hpos Hc)
      as Hpend.
    destruct ((partition_id n =? -1)%Z && filtered n).
    + destruct (unfiltered_neighbours _ _) as [l|e]; [| discriminate].
      apply IH in H as (Hw & Hid & Hle); [| done]. simpl in *.
      split; [done |]. split; [done | lia].
    + destruct (filtered n); [by eapply IH |].
      destruct (partitions _ !! _) as [p|]; [| discriminate].
      apply IH in H as (Hw & Hid & Hle); [| done]. simpl in *.
      split; [done |]. split; [done | lia].
Qed.

(** The loop ends within [length node_queue + pending] iterations: every
    iteration either shortens the queue or labels a node for good and
    appends at most its neighbours. *)
Lemma flood_terminates (fuel : nat) :
  forall (node_queue : list Z) (pf : PartitionFinder),
    0 < finder_partition_id pf ->
    (length node_queue + pending (osm pf) <= fuel)%nat ->
    exists r, flood fuel node_queue pf = Some r.
Proof.
  induction fuel as [|fuel IH]; intros q pf Hc Hfuel.
  - destruct q; [by eexists | simpl in Hfuel; lia].
  - destruct q as [|node queue]; [by eexists |].
    simpl in Hfuel. simpl. unfold deref_node.
    destruct (node_avl (osm pf) !! node) as [n|] eqn:Hn; [| by eexists].
    destruct (0 <? partition_id n)%Z eqn:Hpos; [apply IH; [done | lia] |].
    pose proof (pending_relabel (osm pf) node n (finder_partition_id pf) Hn Hpos Hc)
      as Hpend.
    destruct ((partition_id n =? -1)%Z && filtered n).
    + destruct (unfiltered_neighbours _ _) as [l|e] eqn:El; [| by eexists].
      apply unfiltered_neighbours_length in El.
      apply IH; [done |]. rewrite length_app. simpl. lia.
    + destruct (filtered n); [apply IH; [done | lia] |].
      destruct (partitions _ !! _) as [p|]; [| by eexists].
      apply IH; [done |]. rewrite length_app. simpl. lia.
Qed.

(** More iterations than needed change nothing. *)
Lemma flood_fuel (fuel : nat) :
  forall (fuel' : nat) (node_queue : list Z) (pf : PartitionFinder)
         (r : result PartitionFinder),
    flood fuel node_queue pf = Some r -> (fuel <= fuel')%nat ->
    flood fuel' node_queue pf = Some r.
Proof.
  induction fuel as [|fuel IH]; intros fuel' q pf r H Hle.
  - destruct q; [| discriminate]. by destruct fuel'.
  - destruct fuel' as [|fuel']; [lia |].
    destruct q as [|node queue]; [done |].
    simpl in *. destruct (deref_node (osm pf) node) as [n|e]; [| done].
    destruct (0 <? partition_id n)%Z; [apply IH; [done | lia] |].
    destruct ((partition_id n =? -1)%Z && filtered n).
    + destruct (unfiltered_neighbours _ _) as [l|e]; [| done].
      apply IH; [done | lia].
    + destruct (filtered n); [apply IH; [done | lia] |].
      destruct (partitions _ !! _) as [p|]; [| done].
      apply IH; [done | lia].
Qed.

Lemma way_length_update (s : OSM_objects) (street j k : Z) :
  way_length (update_way street (set_way_partition_id k) s) j = way_length s j.
Proof.
  unfold way_length. simpl. destruct (decide (street = j)) as [-> | Hne].
  - rewrite lookup_alter_eq. by destruct (way_avl s !! j).
  - by rewrite lookup_alter_ne.
Qed.

Lemma pending_update_way (s : OSM_objects) (street : Z) (f : Way -> Way) :
  pending (update_way street f s) = pending s.
Proof. done. Qed.

Lemma breadth_first_search_fuel (fuel fuel' : nat) (streets : list Z) :
  forall (pf : PartitionFinder) (r : result PartitionFinder),
    breadth_first_search fuel streets pf = Some r -> (fuel <= fuel')%nat ->
    breadth_first_search fuel' streets pf = Some r.
Proof.
  induction streets as [|street rest IH]; intros pf r H Hle; simpl in *; [done |].
  destruct (deref_way (osm pf) street) as [w|e]; [| done].
  destruct (way_filtered w); [by apply IH |].
  destruct (way_nodes w) as [|first ?]; [done |].
  destruct (deref_node (osm pf) first) as [n0|e]; [| done].
  destruct (0 <? partition_id n0)%Z.
  - destruct (partitions _ !! _); [by apply IH | done].
  - destruct (flood fuel _ _) as [r1|] eqn:Hflood; [| discriminate].
    rewrite (flood_fuel _ fuel' _ _ _ Hflood Hle).
    destruct r1 as [pf2|e]; [by apply IH | done].
Qed.

Lemma breadth_first_search_returns (fuel : nat) (streets : list Z) :
  forall (pf : PartitionFinder),
    0 <= finder_partition_id pf ->
    (forall street, street ∈ streets ->
                    (way_length (osm pf) street + pending (osm pf) <= fuel)%nat) ->
    exists r, breadth_first_search fuel streets pf = Some r.
Proof.
  induction streets as [|street rest IH]; intros pf Hc Hfuel; simpl; [by eexists |].
  assert (Hrest : forall st, st ∈ rest ->
                    (way_length (osm pf) st + pending (osm pf) <= fuel)%nat).
  { intros st Hin. apply Hfuel. by right. }
  pose proof (Hfuel street ltac:(left)) as Hstreet.
  unfold way_length in Hstreet. unfold deref_way.
  destruct (way_avl (osm pf) !! street) as [w|] eqn:Hw; [| by eexists].
  destruct (way_filtered w); [by apply IH |].
  destruct (way_nodes w) as [|first tl] eqn:Enodes; [by eexists |].
  destruct (deref_node (osm pf) first) as [n0|e]; [| by eexists].
  destruct (0 <? partition_id n0)%Z.
  - destruct (partitions _ !! _); [| by eexists].
    apply IH; [done |]. intros st Hin. simpl.
    rewrite way_length_update. by apply Hrest.
  - match goal with
    | |- context [flood fuel ?q ?pf1] =>
        destruct (flood_terminates fuel q pf1) as (r1 & Hflood);
          [simpl; lia | simpl; exact Hstreet |];
          rewrite Hflood; destruct r1 as [pf2|e]; [| by eexists];
          apply flood_keeps in Hflood as (Hways & Hid & Hpend); [| simpl; lia]
    end.
    cbn [osm finder_partition_id] in Hways, Hid, Hpend.
    rewrite pending_update_way in Hpend.
    apply IH; [lia |]. intros st Hin.
    specialize (Hrest st Hin).
    assert (way_length (osm pf2) st = way_length (osm pf) st) as ->; [| lia].
    rewrite <- (way_length_update (osm pf) street st (finder_partition_id pf + 1)).
    unfold way_length. by rewrite Hways.
Qed.

(** [breadth_first_search] terminates: with a partition counter that is not
    negative it returns a result (a finder or an exception) once every
    [while] loop is given [labelling_fuel] iterations, and the result is the
    same for every larger bound. *)
Theorem breadth_first_search_terminates (streets : list Z) (pf : PartitionFinder) :
  0 <= finder_partition_id pf ->
  exists r, forall fuel,
    (labelling_fuel (osm pf) streets <= fuel)%nat ->
    breadth_first_search fuel streets pf = Some r.
Proof.
  intros Hc.
  destruct (breadth_first_search_returns (labelling_fuel (osm pf) streets) streets pf Hc)
    as (r & Hr).
  { intros street Hin. unfold labelling_fuel.
    assert (way_length (osm pf) street <= max_list_with (way_length (osm pf)) streets)%nat;
      [| lia].
    clear -Hin. induction Hin as [x l | x y l Hin IH]; cbn [max_list_with].
    - apply Nat.le_max_l.
    - etrans; [exact IH | apply Nat.le_max_r]. }
  exists r. intros fuel Hfuel. by eapply breadth_first_search_fuel.
Qed.

Lemma breadth_first_search_terminates_witness :
  exists s r,
    Fixtures.service_filtered = Ok s /\
    (labelling_fuel s (all_streets s) <= 100)%nat /\
    find_partitions 100 (all_streets s) s = Some r.
Proof.
  destruct Fixtures.service_filtered as [s|e] eqn:Es; [| vm_compute in Es; discriminate].
  destruct (breadth_first_search_terminates (all_streets s) (mkFinder s ∅ 0))
    as (r & Hr); [simpl; lia |].
  assert (Hfuel : (labelling_fuel s (all_streets s) <= 100)%nat).
  { vm_compute in Es. injection Es as <-. vm_compute. lia. }
  exists s, r. split; [reflexivity |]. split; [exact Hfuel |].
  exact (Hr 100%nat Hfuel).
Defined.

(** ** Filtering streets *)

Lemma existsb_same {A : Type} (f g : A -> bool) (l : list A) :
  (forall a, f a = g a) -> existsb f l = existsb g l.
Proof. intros E. induction l as [|a l IH]; simpl; [done | by rewrite E, IH]. Qed.

Lemma foldl_update_node_tree (f : Node -> Node) (l : list Z) (s : OSM_objects) :
  street_tree (foldl (fun acc node => update_node node f acc) s l) = street_tree s.
Proof. revert s. induction l as [|x l IH]; intros s; simpl; [done | by rewrite IH]. Qed.

Lemma reset_street_Ok (street : Z) (s s1 : OSM_objects) :
  reset_street street s = Ok s1 ->
  way_avl s1 = alter (fun w => set_way_filtered false (set_way_partition_id 0 w))
                     street (way_avl s) /\
  street_tree s1 = street_tree s.
Proof.
  unfold reset_street. intros H. apply rbind_Ok in H as (w & _ & H).
  apply rbind_Ok in H as (ns & _ & H). injection H as <-.
  by rewrite foldl_update_node_ways, foldl_update_node_tree.
Qed.

Lemma mark_filtered_Ok (street : Z) (s s1 : OSM_objects) :
  mark_filtered street s = Ok s1 ->
  way_avl s1 = alter (fun w => set_way_filtered true (set_way_partition_id (-1) w))
                     street (way_avl s) /\
  street_tree s1 = street_tree s.
Proof.
  unfold mark_filtered. intros H. apply rbind_Ok in H as (w & _ & H).
  apply rbind_Ok in H as (ns & _ & H). injection H as <-.
  by rewrite foldl_update_node_ways, foldl_update_node_tree.
Qed.

Lemma reset_streets_Ok (streets : list Z) :
  forall (s s1 : OSM_objects),
    reset_streets streets s = Ok s1 ->
    (forall j, way_avl s1 !! j
               = (fun w => if bool_decide (j ∈ streets)
                           then set_way_filtered false (set_way_partition_id 0 w)
                           else w) <$> way_avl s !! j) /\
    street_tree s1 = street_tree s /\
    (forall street, street ∈ streets -> is_Some (way_avl s !! street)).
Proof.
  induction streets as [|street rest IH]; intros s s1 H; simpl in H.
  - injection H as <-. split; [| split; [done |]].
    + intros j. by destruct (way_avl s !! j).
    + intros street Hin. by apply elem_of_nil in Hin.
  - apply rbind_Ok in H as (s0 & H0 & H).
    assert (Hsome : is_Some (way_avl s !! street)).
    { unfold reset_street, deref_way in H0.
      destruct (way_avl s !! street); [by eexists | discriminate]. }
    apply reset_street_Ok in H0 as (Hw & Ht).
    apply IH in H as (Hways & Htree & Hres). split; [| split; [congruence |]].
    2: { intros st Hin. apply elem_of_cons in Hin as [-> | Hin]; [done |].
         specialize (Hres st Hin). rewrite Hw in Hres.
         destruct (decide (street = st)) as [-> | Hne]; [done |].
         by rewrite lookup_alter_ne in Hres. }
    intros j. rewrite Hways, Hw. destruct (decide (street = j)) as [-> | Hne].
    + rewrite lookup_alter_eq. rewrite (bool_decide_eq_true_2 (j ∈ j :: rest)) by left.
      destruct (way_avl s !! j) as [w|]; simpl; [| done].
      by destruct (bool_decide (j ∈ rest)).
    + rewrite lookup_alter_ne by done.
      assert (bool_decide (j ∈ street :: rest) = bool_decide (j ∈ rest)) as ->; [| done].
      apply bool_decide_ext. rewrite elem_of_cons.
      split; [intros [E | Hin]; [congruence | done] | by right].
Qed.

Lemma street_in_filter_alter (street_filter : list string) (f : Way -> Way)
    (street : Z) (s s1 : OSM_objects) :
  (forall w, way_tags (f w) = way_tags w) ->
  way_avl s1 = alter f street (way_avl s) ->
  forall j, street_in_filter street_filter s1 j = street_in_filter street_filter s j.
Proof.
  intros Hf Hw j. unfold street_in_filter, highway_in. rewrite Hw.
  destruct (decide (street = j)) as [-> | Hne].
  - rewrite lookup_alter_eq. destruct (way_avl s !! j); simpl; [by rewrite Hf | done].
  - by rewrite lookup_alter_ne.
Qed.

Lemma filter_loop_Ok (street_filter : list string) (streets : list Z) :
  forall (flag flag' : bool) (acc acc' : list Z) (s s' : OSM_objects),
    filter_loop street_filter streets flag acc s = Ok (flag', acc', s') ->
    (forall j, way_avl s' !! j
               = (fun w => if bool_decide (j ∈ streets) && highway_in street_filter w
                           then set_way_filtered true (set_way_partition_id (-1) w)
                           else w) <$> way_avl s !! j) /\
    street_tree s' = street_tree s /\
    flag' = flag || existsb (street_in_filter street_filter s) streets /\
    acc' = acc ++ List.filter (street_in_filter street_filter s) streets.
Proof.
  induction streets as [|street rest IH]; intros flag flag' acc acc' s s' H; simpl in H.
  - injection H as <- <- <-. split; [| split; [done | split]].
    + intros j. by destruct (way_avl s !! j).
    + by rewrite orb_false_r.
    + by rewrite app_nil_r.
  - apply rbind_Ok in H as (w & Hw & H). unfold deref_way in Hw.
    destruct (way_avl s !! street) as [w0|] eqn:Ew; [| discriminate].
    injection Hw as ->.
    assert (Hin : street_in_filter street_filter s street = highway_in street_filter w).
    { unfold street_in_filter. by rewrite Ew. }
    simpl. rewrite Hin.
    assert (Hcons : forall j, j <> street ->
              bool_decide (j ∈ street :: rest) = bool_decide (j ∈ rest)).
    { intros j Hne. apply bool_decide_ext. rewrite elem_of_cons.
      split; [intros [E | Hj]; [congruence | done] | by right]. }
    destruct (highway_in street_filter w) eqn:Hf.
    + apply rbind_Ok in H as (s1 & H1 & H). apply mark_filtered_Ok in H1 as (Hw1 & Ht1).
      assert (Hsame : forall j, street_in_filter street_filter s1 j
                                = street_in_filter street_filter s j).
      { eapply street_in_filter_alter; [| exact Hw1]. done. }
      apply IH in H as (Hways & Htree & Hflag & Hacc).
      split; [| split; [congruence | split]].
      * intros j. rewrite Hways, Hw1. destruct (decide (j = street)) as [-> | Hne].
        -- rewrite lookup_alter_eq, Ew. simpl.
           rewrite (bool_decide_eq_true_2 (street ∈ street :: rest)) by left.
           unfold highway_in in *. simpl. rewrite Hf.
           by destruct (bool_decide (street ∈ rest)).
        -- rewrite lookup_alter_ne by done. by rewrite Hcons.
      * rewrite Hflag. by destruct flag.
      * rewrite Hacc, <- app_assoc. simpl. f_equal. f_equal.
        apply filter_ext. intros j. apply Hsame.
    + apply IH in H as (Hways & Htree & Hflag & Hacc).
      split; [| split; [done | split; [done | done]]].
      intros j. rewrite Hways. destruct (decide (j = street)) as [-> | Hne].
      * rewrite Ew. simpl. rewrite Hf. by rewrite !andb_false_r.
      * by rewrite Hcons.
Qed.

(** Labelling leaves the filtered ways as they are. *)
Lemma breadth_first_search_skips (fuel : nat) (streets : list Z) :
  forall (pf pf' : PartitionFinder),
    0 <= finder_partition_id pf ->
    breadth_first_search fuel streets pf = Some (Ok pf') ->
    forall j w, way_avl (osm pf) !! j = Some w -> way_filtered w = true ->
                way_avl (osm pf') !! j = Some w.
Proof.
  induction streets as [|street rest IH]; intros pf pf' Hc H j wj Hj Hfj; simpl in H.
  - by injection H as <-.
  - unfold deref_way in H.
    destruct (way_avl (osm pf) !! street) as [w|] eqn:Hw; [| discriminate].
    destruct (way_filtered w) eqn:Hf; [by eapply IH |].
    assert (Hne : street <> j) by congruence.
    destruct (way_nodes w) as [|first ?]; [discriminate |].
    destruct (deref_node (osm pf) first) as [n0|e]; [| discriminate].
    destruct (0 <? partition_id n0)%Z.
    + destruct (partitions _ !! _); [| discriminate].
      eapply IH; [| exact H | | done]; [done |]. simpl. by rewrite lookup_alter_ne.
    + destruct (flood fuel _ _) as [[pf2|e]|] eqn:Hflood; [| discriminate | discriminate].
      apply flood_keeps in Hflood as (Hways & Hid & _); [| simpl; lia].
      eapply IH; [| exact H | | done]; [simpl in Hid; lia |].
      rewrite Hways. simpl. by rewrite lookup_alter_ne.
Qed.

(** What [filter_streets] leaves behind when it returns, whatever labels
    and flags the store had before: a street of the street tree is filtered,
    with partition id [-1], exactly when its highway type is in the filter,
    and every other street has a positive partition id and is a member of
    the partition with that id.  The list of filtered streets holds the
    streets of the filter in the order of the tree, and the returned flag
    says whether there is one. *)
Theorem filter_streets_classifies (fuel : nat) (street_filter : list string)
    (s : OSM_objects) (r : Filtered) :
  filter_streets fuel street_filter s = Some (Ok r) ->
  (forall street, street ∈ all_streets s ->
     exists w w', way_avl s !! street = Some w /\
                  way_avl (osm (finder r)) !! street = Some w' /\
                  if highway_in street_filter w
                  then way_filtered w' = true /\ way_partition_id w' = -1
                  else way_filtered w' = false /\ 0 < way_partition_id w' /\
                       exists p, partitions (finder r) !! way_partition_id w' = Some p /\
                                 street ∈ part_streets p) /\
  filtered_streets r = List.filter (street_in_filter street_filter s) (all_streets s) /\
  any_filtered r = existsb (street_in_filter street_filter s) (all_streets s).
Proof.
  unfold filter_streets, reset_partitions. intros H.
  destruct (reset_streets (all_streets s) s) as [s1|e] eqn:Hreset; [| discriminate].
  simpl in H.
  destruct (filter_loop street_filter (all_streets s1) false [] s1)
    as [[[flag fstreets] s2]|e] eqn:Hloop; [| discriminate].
  destruct (find_partitions fuel (all_streets s) s2) as [[pf|e]|] eqn:Hfind;
    [| discriminate | discriminate].
  destruct (find_largest_partition pf) as [largest|e]; [| discriminate].
  injection H as <-. simpl.
  apply reset_streets_Ok in Hreset as (Hways1 & Htree1 & Hres).
  assert (Hstreets : all_streets s1 = all_streets s).
  { unfold all_streets. by rewrite Htree1. }
  rewrite Hstreets in Hloop.
  apply filter_loop_Ok in Hloop as (Hways2 & _ & Hflag & Hacc).
  assert (Hsame : forall j, street_in_filter street_filter s1 j
                            = street_in_filter street_filter s j).
  { intros j. unfold street_in_filter. rewrite Hways1.
    destruct (way_avl s !! j) as [w|]; simpl; [| done].
    by destruct (bool_decide (j ∈ all_streets s)). }
  split; [| split].
  - intros street Hin. unfold find_partitions in Hfind.
    destruct (Hres street Hin) as (w & Hw). exists w.
    pose proof (Hways2 street) as E2.
    rewrite Hways1, Hw, (bool_decide_eq_true_2 _ Hin) in E2. simpl in E2.
    assert (Hhw : highway_in street_filter
                    (set_way_filtered false (set_way_partition_id 0 w))
                  = highway_in street_filter w) by done.
    rewrite Hhw in E2. clear Hhw.
    destruct (highway_in street_filter w) eqn:Hf.
    + pose proof (breadth_first_search_skips fuel (all_streets s) (mkFinder s2 ∅ 0) pf
                    ltac:(simpl; lia) Hfind street _ E2 ltac:(done)) as Hw'.
      eexists. split; [done |]. split; [exact Hw' | done].
    + destruct (breadth_first_search_step fuel (all_streets s) (mkFinder s2 ∅ 0) pf)
        as ((F & _) & Hall); [simpl; lia | exact Hfind |].
      destruct (Hall street _ Hin E2) as (w' & p & Hw' & Hpos & Hp & Hps); [done |].
      specialize (F street). simpl in F. rewrite Hw', E2 in F. simpl in F.
      injection F as F.
      exists w'. split; [done |]. split; [done |].
      split; [done | split; [done | by exists p]].
  - rewrite Hacc. simpl. apply filter_ext. intros j. apply Hsame.
  - rewrite Hflag. simpl. apply existsb_same. intros j. apply Hsame.
Qed.

Lemma filter_streets_classifies_witness :
  exists r w10 w12,
    filter_streets 100 [ "service"%string ] Fixtures.service_store = Some (Ok r) /\
    way_avl (osm (finder r)) !! 10 = Some w10 /\
    way_avl (osm (finder r)) !! 12 = Some w12 /\
    way_filtered w10 = false /\ 0 < way_partition_id w10 /\
    way_filtered w12 = true /\ way_partition_id w12 = -1 /\
    filtered_streets r = [12; 13] /\ any_filtered r = true.
Proof.
  destruct (filter_streets 100 [ "service"%string ] Fixtures.service_store)
    as [[r|e]|] eqn:E; [| vm_compute in E; discriminate | vm_compute in E; discriminate].
  destruct (filter_streets_classifies 100 [ "service"%string ] Fixtures.service_store r E)
    as (Hall & Hlist & Hflag).
  destruct (Hall 10) as (w & w10 & Hw & Hw10 & H10); [vm_compute; left |].
  destruct (Hall 12) as (v & w12 & Hv & Hw12 & H12);
    [vm_compute; right; right; left |].
  vm_compute in Hw. injection Hw as <-. vm_compute in Hv. injection Hv as <-.
  change (way_filtered w10 = false /\ 0 < way_partition_id w10 /\
          exists p, partitions (finder r) !! way_partition_id w10 = Some p /\
                    10 ∈ part_streets p) in H10.
  change (way_filtered w12 = true /\ way_partition_id w12 = -1) in H12.
  destruct H10 as (? & ? & _). destruct H12 as (? & ?).
  exists r, w10, w12. repeat split; [done .. | |].
  - rewrite Hlist. reflexivity.
  - rewrite Hflag. reflexivity.
Defined.

(** ** The distance between a node and a street *)

Section NearestSegment.

Variable GEOD_inv : float -> float -> float -> float -> option (float * float * float).
Variable utm : float -> float -> float * float.

Lemma nearest_segment_min (node : Node) (snodes : list Node) :
  forall (acc r : float * option distance_mode),
    is_number (fst acc) ->
    nearest_segment GEOD_inv utm node snodes acc = Ok r ->
    is_number (fst r) /\ fle (fst r) (fst acc) /\
    (forall (i : nat) a b, snodes !! i = Some a -> snodes !! S i = Some b ->
       exists d m, distance_mode_point_line GEOD_inv utm a b node = Ok (d, m) /\
                   ~ flt d (fst r)) /\
    (r = acc \/
     exists (i : nat) a b m, snodes !! i = Some a /\ snodes !! S i = Some b /\
                     snd r = Some m /\
                     distance_mode_point_line GEOD_inv utm a b node = Ok (fst r, m)).
Proof.
  induction snodes as [|a tl IH]; intros acc r Hacc H.
  - injection H as <-. split; [done |]. split; [by apply fle_refl |].
    split; [| by left]. intros i a b Ha. by rewrite lookup_nil in Ha.
  - destruct tl as [|b tl'].
    + injection H as <-. split; [done |]. split; [by apply fle_refl |].
      split; [| by left]. intros i x y Hx Hy. by destruct i.
    + cbn [nearest_segment] in H.
      apply rbind_Ok in H as ([distance mode] & Hd & H).
      destruct (PrimFloat.ltb distance (fst acc)) eqn:Hlt.
      * apply ltb_flt in Hlt.
        destruct (IH (distance, Some mode) r (proj1 (flt_number _ _ Hlt)) H)
          as (Hn & Hle & Hall & Hsrc).
        simpl in Hle. split; [done |].
        split; [eapply fle_trans; [exact Hle | by apply flt_fle] |]. split.
        -- intros i x y Hx Hy. destruct i as [|i]; [| by apply (Hall i)].
           injection Hx as <-. injection Hy as <-.
           exists distance, mode. split; [done |]. intros Hc.
           by apply (flt_not_fle _ _ Hc).
        -- right. destruct Hsrc as [-> | (i & x & y & m & Hx & Hy & Hm & Hdist)].
           ++ by exists 0%nat, a, b, mode.
           ++ by exists (S i), x, y, m.
      * destruct (IH acc r Hacc H) as (Hn & Hle & Hall & Hsrc).
        split; [done |]. split; [done |]. split.
        -- intros i x y Hx Hy. destruct i as [|i]; [| by apply (Hall i)].
           injection Hx as <-. injection Hy as <-.
           exists distance, mode. split; [done |]. intros Hc.
           apply ltb_false_flt in Hlt. apply Hlt. by eapply flt_fle_trans.
        -- destruct Hsrc as [-> | (i & x & y & m & Hx & Hy & Hm & Hdist)]; [by left |].
           right. by exists (S i), x, y, m.
Qed.

End NearestSegment.

(** The distance [distance_node_street] returns is the distance of one
    segment of the street, the mode returned is the mode of that segment,
    and no segment of the street is strictly nearer; for a street without a
    segment, and when no segment distance is below the initial [1e400], it
    returns that initial value and no mode. *)
Theorem distance_node_street_minimal
    (GEOD_inv : float -> float -> float -> float -> option (float * float * float))
    (utm : float -> float -> float * float)
    (s : OSM_objects) (node : Node) (street : Z)
    (min_dist : float) (min_mode : option distance_mode) :
  distance_node_street GEOD_inv utm s node street = Ok (min_dist, min_mode) ->
  exists w snodes,
    way_avl s !! street = Some w /\ resolve_nodes s (way_nodes w) = Ok snodes /\
    (forall (i : nat) a b, snodes !! i = Some a -> snodes !! S i = Some b ->
       exists d m, distance_mode_point_line GEOD_inv utm a b node = Ok (d, m) /\
                   PrimFloat.ltb d min_dist = false) /\
    match min_mode with
    | Some mode =>
        exists (i : nat) a b, snodes !! i = Some a /\ snodes !! S i = Some b /\
          distance_mode_point_line GEOD_inv utm a b node = Ok (min_dist, mode)
    | None => min_dist = Py.inf
    end.
Proof.
  unfold distance_node_street. intros H.
  apply rbind_Ok in H as (w & Hw & H). apply rbind_Ok in H as (snodes & Hs & H).
  unfold deref_way in Hw. destruct (way_avl s !! street) as [w'|]; [| discriminate].
  injection Hw as ->. exists w, snodes. split; [done |]. split; [done |].
  apply nearest_segment_min in H as (_ & _ & Hall & Hsrc); [| by apply eqb_number].
  simpl in *. split.
  - intros i a b Ha Hb. destruct (Hall i a b Ha Hb) as (d & m & Hd & Hnot).
    exists d, m. split; [done | by apply ltb_false_flt].
  - destruct Hsrc as [[= -> ->] | (i & a & b & m & Ha & Hb & -> & Hd)]; [done |].
    by exists i, a, b.
Qed.

Lemma distance_node_street_minimal_witness :
  exists min_dist mode (i : nat) (a b : Node) (snodes : list Node),
    distance_node_street Planar.inv Planar.utm Fixtures.address_store Fixtures.poi0 10
      = Ok (min_dist, Some mode) /\
    snodes !! i = Some a /\ snodes !! S i = Some b /\
    distance_mode_point_line Planar.inv Planar.utm a b Fixtures.poi0
      = Ok (min_dist, mode).
Proof.
  destruct (distance_node_street Planar.inv Planar.utm Fixtures.address_store
              Fixtures.poi0 10) as [[min_dist [mode|]]|e] eqn:E;
    [| vm_compute in E; discriminate | vm_compute in E; discriminate].
  destruct (distance_node_street_minimal Planar.inv Planar.utm Fixtures.address_store
              Fixtures.poi0 10 min_dist (Some mode) E)
    as (w & snodes & _ & _ & _ & (i & a & b & Ha & Hb & Hd)).
  by exists min_dist, mode, i, a, b, snodes.
Defined.

(** ** Connecting by address *)

Lemma same_ids_refl (s : OSM_objects) : same_ids s s.
Proof. by intros j. Qed.








Section Toward.

Variable GEOD_inv : float -> float -> float -> float -> option (float * float * float).
Variable GEOD_fwd : float -> float -> float -> float -> float * float * float.
Variable utm : float -> float -> float * float.
Variable round7 : float -> float.









End Toward.




